(** * Vault question answering: the retrieval core of [vault_index.py] and [app.py]

    A shallow embedding of the section splitter, the alias builder, the
    lexical search of [VaultIndex], and of the price extractor and the
    source enforcement of [app.py], followed by the properties the
    specification states about them.

    Conventions of the embedding.
    - A Python [str] is a Rocq [string]; its characters are the code points
      0..255 (the Latin-1 block, where the Danish letters of the patterns
      live).  The character tables below ([str.isspace], [str.lower],
      [\w], [\d], [str.isdigit], the line boundaries of [str.splitlines])
      are Python's for that block.  U+2022, which [_clean_text] strips, has
      no code point in the block and therefore never occurs in a modelled
      string.
    - A Python [int] is a [Z]; an index produced by [enumerate] or [len] is
      a [nat] and is injected with [Z.of_nat] where the code adds it to an
      [int].
    - The relevance score is a Python [float] that only ever holds sums of
      non-negative integers (counts, 3 and 2 times a count, 8, 20).  Such
      sums are exact in binary64 below 2^53, so the score is a [Z].
    - Regular expressions are values of a small syntax [Re.regex], run by a
      backtracking matcher with Python's priorities (leftmost match, greedy
      repetition, ordered alternation). *)

From Stdlib Require Import ZArith NArith Ascii String List DecimalString Lia.
From Stdlib Require Import Sorted Permutation OrderedTypeEx.
From stdpp Require Import gmap strings list.

Local Open Scope string_scope.
Local Open Scope list_scope.

(* ===================================================================== *)
(** * Python built-ins used by the code *)
(* ===================================================================== *)

Module Py.

Definition chars (s : string) : list ascii := list_ascii_of_string s.
Definition str (l : list ascii) : string := string_of_list_ascii l.

Definition code (c : ascii) : N := N_of_ascii c.

Definition in_range (lo hi : N) (c : ascii) : bool :=
  ((lo <=? code c) && (code c <=? hi))%N.

Definition is_code (n : N) (c : ascii) : bool := (code c =? n)%N.

(** [str.isspace] on one character; also the class [\s]. *)
Definition is_space (c : ascii) : bool :=
  in_range 9 13 c || in_range 28 32 c || is_code 133 c || is_code 160 c.

(** The class [\d], and the range [0-9]. *)
Definition is_decimal (c : ascii) : bool := in_range 48 57 c.

(** [str.isdigit] on one character: the decimal digits and the
    superscripts 1, 2, 3. *)
Definition is_digit_char (c : ascii) : bool :=
  is_decimal c || is_code 178 c || is_code 179 c || is_code 185 c.

(** [str.isalnum] on one character. *)
Definition is_alnum (c : ascii) : bool :=
  in_range 48 57 c || in_range 65 90 c || in_range 97 122 c
  || is_code 170 c || is_code 178 c || is_code 179 c || is_code 181 c
  || is_code 185 c || is_code 186 c || in_range 188 190 c
  || in_range 192 214 c || in_range 216 246 c || in_range 248 255 c.

(** The class [\w]. *)
Definition is_word (c : ascii) : bool := is_alnum c || is_code 95 c.

(** The characters at which [str.splitlines] breaks. *)
Definition is_linebreak (c : ascii) : bool :=
  in_range 10 13 c || in_range 28 30 c || is_code 133 c.

(** [str.lower] on one character. *)
Definition lower_char (c : ascii) : ascii :=
  if in_range 65 90 c || in_range 192 214 c || in_range 216 222 c
  then ascii_of_N (code c + 32) else c.

Definition lower (s : string) : string := str (map lower_char (chars s)).

Definition len (s : string) : nat := String.length s.

(** Truth value of a string: non-empty. *)
Definition truthy (s : string) : bool := negb (String.eqb s "").

(** ** Stripping *)

Fixpoint lstrip_with (p : ascii -> bool) (s : list ascii) : list ascii :=
  match s with
  | [] => []
  | c :: s' => if p c then lstrip_with p s' else s
  end.

Definition rstrip_with (p : ascii -> bool) (s : list ascii) : list ascii :=
  rev (lstrip_with p (rev s)).

Definition strip_with (p : ascii -> bool) (s : list ascii) : list ascii :=
  rstrip_with p (lstrip_with p s).

Definition one_of (set : string) (c : ascii) : bool :=
  existsb (Ascii.eqb c) (chars set).

(** [s.strip()], [s.rstrip()] and [s.strip(set)]. *)
Definition strip (s : string) : string := str (strip_with is_space (chars s)).
Definition rstrip (s : string) : string := str (rstrip_with is_space (chars s)).
Definition strip_chars (set s : string) : string :=
  str (strip_with (one_of set) (chars s)).

(** ** Searching *)

Fixpoint is_prefix (p s : list ascii) : bool :=
  match p, s with
  | [], _ => true
  | _ :: _, [] => false
  | a :: p', b :: s' => Ascii.eqb a b && is_prefix p' s'
  end.

(** [s.startswith(p)]. *)
Definition startswith (s p : string) : bool := is_prefix (chars p) (chars s).

(** [s.startswith(tuple)]. *)
Definition startswith_any (s : string) (ps : list string) : bool :=
  existsb (startswith s) ps.

Fixpoint contains_l (sub s : list ascii) : bool :=
  is_prefix sub s ||
  match s with
  | [] => false
  | _ :: s' => contains_l sub s'
  end.

(** [sub in s]. *)
Definition contains (sub s : string) : bool := contains_l (chars sub) (chars s).

(** Non-overlapping occurrences, left to right; [skip] characters of the
    occurrence found last are still to be passed. *)
Fixpoint count_l (sub : list ascii) (skip : nat) (s : list ascii) : nat :=
  match s with
  | [] => 0
  | _ :: s' =>
      match skip with
      | S k => count_l sub k s'
      | O => if is_prefix sub s
             then S (count_l sub (length sub - 1) s')
             else count_l sub 0 s'
      end
  end.

(** [s.count(sub)]; an empty [sub] occurs [len(s) + 1] times. *)
Definition count (s sub : string) : nat :=
  match chars sub with
  | [] => S (len s)
  | _ => count_l (chars sub) 0 (chars s)
  end.

(** ** Splitting and joining *)

(** [s.split()]: the maximal runs of non-whitespace characters. *)
Fixpoint split_ws_l (cur : list ascii) (s : list ascii) : list (list ascii) :=
  match s with
  | [] => match cur with [] => [] | _ => [rev cur] end
  | c :: s' =>
      if is_space c
      then match cur with
           | [] => split_ws_l [] s'
           | _ => rev cur :: split_ws_l [] s'
           end
      else split_ws_l (c :: cur) s'
  end.

Definition split_ws (s : string) : list string :=
  map str (split_ws_l [] (chars s)).

(** [s.split(sep)] for a non-empty [sep]. *)
Fixpoint split_l (sep : list ascii) (skip : nat) (cur s : list ascii)
  : list (list ascii) :=
  match s with
  | [] => [rev cur]
  | c :: s' =>
      match skip with
      | S k => split_l sep k cur s'
      | O => if is_prefix sep s
             then rev cur :: split_l sep (length sep - 1) [] s'
             else split_l sep 0 (c :: cur) s'
      end
  end.

Definition split (s sep : string) : list string :=
  map str (split_l (chars sep) 0 [] (chars s)).

(** [s.splitlines()]: a carriage return followed by a line feed is one
    boundary, and a final boundary opens no further line. *)
Fixpoint splitlines_l (cur : list ascii) (s : list ascii) : list (list ascii) :=
  match s with
  | [] => match cur with [] => [] | _ => [rev cur] end
  | c :: s' =>
      if is_linebreak c
      then rev cur ::
           (if is_code 13 c
            then match s' with
                 | c' :: s'' => if is_code 10 c' then splitlines_l [] s''
                                else splitlines_l [] s'
                 | [] => splitlines_l [] s'
                 end
            else splitlines_l [] s')
      else splitlines_l (c :: cur) s'
  end.

Definition splitlines (s : string) : list string :=
  map str (splitlines_l [] (chars s)).

(** [sep.join(l)]. *)
Definition join (sep : string) (l : list string) : string := String.concat sep l.

(** [s.replace(old, new)]. *)
Fixpoint replace_l (old new : list ascii) (skip : nat) (s : list ascii)
  : list ascii :=
  match s with
  | [] => []
  | c :: s' =>
      match skip with
      | S k => replace_l old new k s'
      | O => if is_prefix old s
             then new ++ replace_l old new (length old - 1) s'
             else c :: replace_l old new 0 s'
      end
  end.

Definition replace (s old new : string) : string :=
  match chars old with
  | [] => str (chars new ++ flat_map (fun c => c :: chars new) (chars s))
  | _ => str (replace_l (chars old) (chars new) 0 (chars s))
  end.

(** [s.isdigit()]. *)
Definition isdigit (s : string) : bool :=
  truthy s && forallb is_digit_char (chars s).

(** ** Slices *)

(** [l[a:b]] for indices that are not negative. *)
Definition slice {A} (a b : nat) (l : list A) : list A :=
  take (b - a) (drop a l).

(** [l[:k]] for an [int] k: a negative [k] counts from the end. *)
Definition slice_to {A} (k : Z) (l : list A) : list A :=
  if (0 <=? k)%Z then take (Z.to_nat k) l
  else take (length l - Z.to_nat (- k)%Z) l.

(** [s[a:]] and [s[a:b]] on strings. *)
Definition str_from (a : nat) (s : string) : string := str (drop a (chars s)).
Definition str_slice (a b : nat) (s : string) : string :=
  str (slice a b (chars s)).

(** [l.sort(key=key, reverse=True)] for a numeric key: descending, and
    stable (elements with equal keys keep their order). *)
Fixpoint insert_desc {A} (key : A -> Z) (x : A) (l : list A) : list A :=
  match l with
  | [] => [x]
  | y :: l' =>
      if (key x <? key y)%Z then y :: insert_desc key x l' else x :: l
  end.

Definition sort_desc {A} (key : A -> Z) (l : list A) : list A :=
  foldr (insert_desc key) [] l.

(** The decimal text of an [int], as an f-string prints it. *)
Definition str_of_int (z : Z) : string := NilZero.string_of_int (Z.to_int z).

End Py.

(* ===================================================================== *)
(** * Regular expressions *)
(* ===================================================================== *)

Module Re.
Import Py.

(** The fragment of the pattern language the code uses.  Repetition is
    only ever applied to a single class in the source ([\s+], [#{1,6}],
    [[\d\.,]*], [.*], ...), which is what [Rep] offers. *)
Inductive regex : Type :=
| Eps
| Lit (c : ascii)
| Cls (p : ascii -> bool)
| Seq (r1 r2 : regex)
| Alt (r1 r2 : regex)
| Rep (p : ascii -> bool) (lo : nat) (hi : option nat)
| Opt (r : regex)
| Grp (n : nat) (r : regex)
| Bol
| WordB.

(** A position of the matcher in the subject: the offset, the character
    before it, the rest of the subject, and the groups closed so far
    (latest first). *)
Record mstate : Type := MState {
  m_pos : nat;
  m_prev : option ascii;
  m_rest : list ascii;
  m_caps : list (nat * (nat * nat))
}.

Definition start_state (s : list ascii) : mstate :=
  {| m_pos := 0; m_prev := None; m_rest := s; m_caps := [] |}.

Definition eq_char (ignorecase : bool) (a b : ascii) : bool :=
  if ignorecase then Ascii.eqb (lower_char a) (lower_char b) else Ascii.eqb a b.

Definition is_word_opt (o : option ascii) : bool :=
  match o with Some c => is_word c | None => false end.

Definition at_word_boundary (st : mstate) : bool :=
  xorb (is_word_opt (m_prev st)) (is_word_opt (head (m_rest st))).

Definition more_allowed (hi : option nat) : bool :=
  match hi with Some O => false | _ => true end.

Definition one_less (hi : option nat) : option nat :=
  match hi with Some n => Some (n - 1)%nat | None => None end.

(** Greedy repetition of a class: the longest run first, shorter runs on
    backtracking, never fewer than [lo] characters. *)
Fixpoint rep (p : ascii -> bool) (lo : nat) (hi : option nat)
    (pos : nat) (prev : option ascii) (s : list ascii)
    (caps : list (nat * (nat * nat)))
    (k : mstate -> option mstate) : option mstate :=
  let stop :=
    match lo with
    | O => k {| m_pos := pos; m_prev := prev; m_rest := s; m_caps := caps |}
    | S _ => None
    end in
  match s with
  | c :: s' =>
      if p c && more_allowed hi
      then match rep p (lo - 1) (one_less hi) (S pos) (Some c) s' caps k with
           | Some m => Some m
           | None => stop
           end
      else stop
  | [] => stop
  end.

Definition step (ok : ascii -> bool) (st : mstate)
    (k : mstate -> option mstate) : option mstate :=
  match m_rest st with
  | c :: s' =>
      if ok c
      then k {| m_pos := S (m_pos st); m_prev := Some c; m_rest := s';
                m_caps := m_caps st |}
      else None
  | [] => None
  end.

Definition close_group (n start : nat) (st : mstate) : mstate :=
  {| m_pos := m_pos st; m_prev := m_prev st; m_rest := m_rest st;
     m_caps := (n, (start, m_pos st)) :: m_caps st |}.

(** The backtracking matcher: [run ic r st k] matches [r] at [st] and
    hands the position reached to the continuation [k]; when [k] fails
    the next alternative of [r] is tried. *)
Fixpoint run (ic : bool) (r : regex) (st : mstate)
    (k : mstate -> option mstate) : option mstate :=
  match r with
  | Eps => k st
  | Lit c => step (eq_char ic c) st k
  | Cls p => step p st k
  | Seq r1 r2 => run ic r1 st (fun st' => run ic r2 st' k)
  | Alt r1 r2 =>
      match run ic r1 st k with
      | Some m => Some m
      | None => run ic r2 st k
      end
  | Rep p lo hi => rep p lo hi (m_pos st) (m_prev st) (m_rest st) (m_caps st) k
  | Opt r1 =>
      match run ic r1 st k with
      | Some m => Some m
      | None => k st
      end
  | Grp n r1 => run ic r1 st (fun st' => k (close_group n (m_pos st) st'))
  | Bol => if (m_pos st =? 0)%nat then k st else None
  | WordB => if at_word_boundary st then k st else None
  end.

(** A successful match: where it starts, where it ends, its groups. *)
Record rmatch : Type := RMatch {
  m_start : nat;
  m_end : nat;
  m_groups : list (nat * (nat * nat))
}.

Definition match_at (ic : bool) (r : regex) (st : mstate) : option rmatch :=
  match run ic r st Some with
  | Some m => Some {| m_start := m_pos st; m_end := m_pos m; m_groups := m_caps m |}
  | None => None
  end.

(** All successive matches, left to right and non-overlapping; after a
    match, [skip] characters of it are still to be passed. *)
Fixpoint scan (ic : bool) (r : regex) (skip pos : nat) (prev : option ascii)
    (s : list ascii) : list rmatch :=
  let here := match_at ic r {| m_pos := pos; m_prev := prev; m_rest := s;
                               m_caps := [] |} in
  match s with
  | [] => match skip, here with
          | O, Some m => [m]
          | _, _ => []
          end
  | c :: s' =>
      match skip with
      | S j => scan ic r j (S pos) (Some c) s'
      | O => match here with
             | Some m => m :: scan ic r (m_end m - pos - 1) (S pos) (Some c) s'
             | None => scan ic r 0 (S pos) (Some c) s'
             end
      end
  end.

Definition finditer (ic : bool) (r : regex) (s : string) : list rmatch :=
  scan ic r 0 0 None (chars s).

(** [pattern.match(s)]: a match starting at offset 0. *)
Definition re_match (ic : bool) (r : regex) (s : string) : option rmatch :=
  match_at ic r (start_state (chars s)).

(** [pattern.search(s)]: the leftmost match. *)
Definition search (ic : bool) (r : regex) (s : string) : option rmatch :=
  head (finditer ic r s).

(** [match.group(0)] and [match.group(n)]; a group that took no part in
    the match reads as the empty string here. *)
Definition group0 (s : string) (m : rmatch) : string :=
  str_slice (m_start m) (m_end m) s.

Definition group (n : nat) (s : string) (m : rmatch) : string :=
  match find (fun g => (fst g =? n)%nat) (m_groups m) with
  | Some (_, (a, b)) => str_slice a b s
  | None => ""
  end.

(** [pattern.findall(s)] for a pattern without groups. *)
Definition findall (ic : bool) (r : regex) (s : string) : list string :=
  map (group0 s) (finditer ic r s).

(** A replacement template: literal text and group references. *)
Inductive titem : Type :=
| TText (t : string)
| TGroup (n : nat).

Definition expand (tpl : list titem) (s : string) (m : rmatch) : string :=
  String.concat "" (map (fun i => match i with
                                  | TText t => t
                                  | TGroup n => group n s m
                                  end) tpl).

(** The text between the matches, each match replaced. *)
Fixpoint splice (tpl : list titem) (s : string) (from : nat)
    (ms : list rmatch) : string :=
  match ms with
  | [] => str_from from s
  | m :: ms' =>
      str_slice from (m_start m) s +:+ expand tpl s m
      +:+ splice tpl s (m_end m) ms'
  end.

(** [re.sub(pattern, template, s)]. *)
Definition sub (ic : bool) (r : regex) (tpl : list titem) (s : string) : string :=
  splice tpl s 0 (finditer ic r s).

Definition any_char (c : ascii) : bool := true.

(** [.] without DOTALL. *)
Definition dot (c : ascii) : bool := negb (is_code 10 c).

Definition star (p : ascii -> bool) : regex := Rep p 0 None.
Definition plus (p : ascii -> bool) : regex := Rep p 1 None.

End Re.

(* ===================================================================== *)
(** * vault_index.py *)
(* ===================================================================== *)

Module VaultIndex.
Import Py Re.

Definition nl : string := String "010" "".

(** The Danish letters of the patterns, by code point:
    ae 230, o-slash 248, a-ring 229, and their capitals 198, 216, 197. *)
Definition danish_lower (c : ascii) : bool :=
  is_code 230 c || is_code 248 c || is_code 229 c.
Definition danish_upper (c : ascii) : bool :=
  is_code 198 c || is_code 216 c || is_code 197 c.

(** [[a-z...]], [[A-Z...]] and [[A-Za-z...]] with the Danish letters. *)
Definition lower_letter (c : ascii) : bool := in_range 97 122 c || danish_lower c.
Definition upper_letter (c : ascii) : bool := in_range 65 90 c || danish_upper c.
Definition letter (c : ascii) : bool := upper_letter c || lower_letter c.

(** [WORD_RE = [\w...]+] with the six Danish letters added to [\w]. *)
Definition word_char (c : ascii) : bool :=
  is_word c || danish_lower c || danish_upper c.
Definition WORD_RE : regex := plus word_char.

(** [HEADING_RE]: at the start, one to six hashes (group 1), at least
    one whitespace character, then the rest of the line (group 2). *)
Definition HEADING_RE : regex :=
  Seq Bol (Seq (Grp 1 (Rep (is_code 35) 1 (Some 6)))
               (Seq (plus is_space) (Grp 2 (star dot)))).

Record Section : Type := mkSection {
  path : string;
  heading : string;
  line_start : Z;
  line_end : Z;
  text : string;
  score : Z
}.

Record NoteMeta : Type := mkNoteMeta {
  note_path : string;
  title : string;
  aliases : list string
}.

(** The root that [os.path.splitext] returns (the POSIX version, with
    the separator /).  The extension starts at the last dot of the last
    path component, unless that component has nothing but dots before
    that dot. *)
Fixpoint rfind_from (c : ascii) (i : nat) (s : list ascii) (found : Z) : Z :=
  match s with
  | [] => found
  | x :: s' => rfind_from c (S i) s' (if Ascii.eqb x c then Z.of_nat i else found)
  end.

Definition rfind (c : ascii) (s : string) : Z := rfind_from c 0 (chars s) (-1)%Z.

Definition splitext_root (p : string) : string :=
  let sepIndex := rfind "/" p in
  let dotIndex := rfind "." p in
  if (sepIndex <? dotIndex)%Z
  then
    let name_before_dot :=
      slice (Z.to_nat (sepIndex + 1)) (Z.to_nat dotIndex) (chars p) in
    if forallb (Ascii.eqb ".") name_before_dot then p
    else str_slice 0 (Z.to_nat dotIndex) p
  else p.

(** The heading a line opens, if it opens one: group 2 of [HEADING_RE] on
    the stripped line. *)
Definition heading_match (line : string) : option string :=
  let stripped := strip line in
  match re_match false HEADING_RE stripped with
  | Some m => Some (group 2 stripped m)
  | None => None
  end.

Fixpoint _detect_title_loop (lines : list string) : option string :=
  match lines with
  | [] => None
  | line :: rest =>
      match heading_match line with
      | Some g =>
          let title := strip g in
          if truthy title then Some title else _detect_title_loop rest
      | None => _detect_title_loop rest
      end
  end.

Definition _detect_title (lines : list string) (filename : string) : string :=
  match _detect_title_loop lines with
  | Some title => title
  | None => replace (replace (splitext_root filename) "_" " ") "-" " "
  end.

Definition _split_camel (text : string) : string :=
  let both := [TGroup 1; TText " "; TGroup 2] in
  let text := sub false (Seq (Grp 1 (Cls lower_letter)) (Grp 2 (Cls upper_letter)))
                  both text in
  let text := sub false (Seq (Grp 1 (Cls is_decimal)) (Grp 2 (Cls letter)))
                  both text in
  let text := sub false (Seq (Grp 1 (Cls letter)) (Grp 2 (Cls is_decimal)))
                  both text in
  text.

(** The aliases one cleaned variant contributes (the body of the second
    loop of [_build_aliases]). *)
Definition variant_aliases (variant : string) : gset string :=
  let cleaned := strip (sub false (plus is_space) [TText " "] variant) in
  if negb (truthy cleaned) then ∅
  else
    let lowered := lower cleaned in
    let tokens := findall false WORD_RE lowered in
    let tokens :=
      match tokens with
      | t0 :: t1 :: rest =>
          if String.eqb t0 "gs" && isdigit t1 then ("gs" +:+ t1) :: rest
          else tokens
      | _ => tokens
      end in
    {[ lowered ]}
    ∪ (if (2 <=? length tokens)%nat then {[ join " " (slice 0 2 tokens) ]} else ∅)
    ∪ (if (3 <=? length tokens)%nat then {[ join " " (slice 0 3 tokens) ]} else ∅)
    ∪ (match tokens with
       | t0 :: _ =>
           if startswith t0 "gs1" && (2 <=? length tokens)%nat
           then {[ join " " (slice 1 3 tokens) ]} else ∅
       | [] => ∅
       end).

Definition le_string (a b : string) : bool := String.leb a b.

(** [sorted] on strings: ascending by code points. *)
Fixpoint insert_string (x : string) (l : list string) : list string :=
  match l with
  | [] => [x]
  | y :: l' => if le_string x y then x :: l else y :: insert_string x l'
  end.

Definition sorted_strings (l : list string) : list string :=
  foldr insert_string [] l.

Definition _build_aliases (title filename : string) : list string :=
  let base := splitext_root filename in
  let variants : gset string :=
    {[ title; base; replace base "-" " "; replace base "_" " " ]} in
  let expanded : gset string :=
    foldr (fun variant acc =>
             if truthy variant
             then {[ variant ]} ∪ {[ _split_camel variant ]} ∪ acc
             else acc)
          ∅ (elements variants) in
  let aliases : gset string :=
    foldr (fun variant acc => variant_aliases variant ∪ acc) ∅ (elements expanded) in
  sorted_strings (elements aliases).

(** The first loop of [_split_sections]: the indices of the heading
    lines with the heading each opens. *)
Fixpoint boundaries_from (idx : nat) (lines : list string) : list (nat * string) :=
  match lines with
  | [] => []
  | line :: rest =>
      match heading_match line with
      | Some g =>
          let h := strip g in
          (idx, if truthy h then h else "(top)") :: boundaries_from (S idx) rest
      | None => boundaries_from (S idx) rest
      end
  end.

(** The last loop of [_split_sections]: one section per boundary, up to
    the line before the next boundary or to the last line. *)
Fixpoint heading_sections (p : string) (lines : list string)
    (boundaries : list (nat * string)) : list Section :=
  match boundaries with
  | [] => []
  | (start_idx, h) :: rest =>
      let end_idx : Z :=
        match rest with
        | (next, _) :: _ => (Z.of_nat next - 1)%Z
        | [] => (Z.of_nat (length lines) - 1)%Z
        end in
      let section_lines := slice start_idx (Z.to_nat (end_idx + 1)) lines in
      {| path := p; heading := h;
         line_start := (Z.of_nat start_idx + 1)%Z;
         line_end := (end_idx + 1)%Z;
         text := strip (join nl section_lines);
         score := 0 |}
      :: heading_sections p lines rest
  end.

Definition _split_sections (p : string) (lines : list string) : list Section :=
  match lines with
  | [] => []
  | _ =>
      let boundaries := boundaries_from 0 lines in
      match boundaries with
      | [] =>
          [ {| path := p; heading := "(top)"; line_start := 1;
               line_end := Z.of_nat (length lines);
               text := strip (join nl lines); score := 0 |} ]
      | (first, _) :: _ =>
          (if (0 <? first)%nat
           then [ {| path := p; heading := "(top)"; line_start := 1;
                     line_end := Z.of_nat first;
                     text := strip (join nl (slice 0 first lines));
                     score := 0 |} ]
           else [])
          ++ heading_sections p lines boundaries
      end
  end.

(** The index: the sections of all notes and the notes by path. *)
Record index_state : Type := mkIndex {
  sections : list Section;
  notes : gmap string NoteMeta
}.

Definition _score_section (section : Section) (tokens : list string)
    (query_lower : string) : Z :=
  let text_lower := lower (text section) in
  let heading_lower := lower (heading section) in
  let path_lower := lower (path section) in
  let score :=
    fold_left
      (fun score token =>
         if truthy token
         then (score + Z.of_nat (count text_lower token)
               + 3 * Z.of_nat (count heading_lower token)
               + 2 * Z.of_nat (count path_lower token))%Z
         else score)
      tokens 0%Z in
  if contains query_lower text_lower then (score + 8)%Z else score.

Definition note_boost (ns : gmap string NoteMeta) (query_lower : string)
    (section : Section) : Z :=
  match ns !! path section with
  | Some note_meta =>
      if existsb (fun alias => contains alias query_lower) (aliases note_meta)
      then 20%Z else 0%Z
  | None => 0%Z
  end.

Definition sort_by_score (l : list Section) : list Section :=
  sort_desc score l.

Definition scored_copy (ns : gmap string NoteMeta) (tokens : list string)
    (query_lower : string) (section : Section) : list Section :=
  let sc := (note_boost ns query_lower section
             + _score_section section tokens query_lower)%Z in
  if (0 <? sc)%Z
  then [ {| path := path section; heading := heading section;
            line_start := line_start section; line_end := line_end section;
            text := text section; score := sc |} ]
  else [].

Definition find_sections (idx : index_state) (query : string) (top_k : Z)
    : list Section :=
  let query_lower := lower query in
  let tokens := map lower (findall false WORD_RE query_lower) in
  match tokens with
  | [] => []
  | _ =>
      let results :=
        flat_map (scored_copy (notes idx) tokens query_lower) (sections idx) in
      slice_to top_k (sort_by_score results)
  end.

End VaultIndex.

(* ===================================================================== *)
(** * find_sections over Section objects held by reference *)
(* ===================================================================== *)

(** [self.sections] is a list of references to [Section] objects, and
  [find_sections] builds new objects for its results.  Here the objects
  live in a store addressed by natural numbers, and the method is a
  computation in a state monad over that store; a read of an address
  that holds no object fails. *)
Module ObjectStore.
Import Py Re VaultIndex.

Record state : Type := mkState {
  heap : list Section;
  self_sections : list nat;
  self_notes : gmap string NoteMeta
}.

Definition M (A : Type) : Type := state -> option (A * state).

Definition ret {A} (a : A) : M A := fun st => Some (a, st).

Definition bind {A B} (m : M A) (f : A -> M B) : M B :=
  fun st => match m st with
            | Some (a, st') => f a st'
            | None => None
            end.

Notation "x <- m ;; k" := (bind m (fun x => k))
  (at level 100, m at next level, right associativity).

Definition read (l : nat) : M Section :=
  fun st => match heap st !! l with
            | Some s => Some (s, st)
            | None => None
            end.

(** A constructor call: the new object gets the next free address. *)
Definition new (s : Section) : M nat :=
  fun st => Some (length (heap st),
                  {| heap := heap st ++ [s];
                     self_sections := self_sections st;
                     self_notes := self_notes st |}).

Definition get_sections : M (list nat) := fun st => Some (self_sections st, st).
Definition get_notes : M (gmap string NoteMeta) := fun st => Some (self_notes st, st).

(** The loop over [self.sections]. *)
Fixpoint score_loop (tokens : list string) (query_lower : string)
    (todo results : list nat) : M (list nat) :=
  match todo with
  | [] => ret results
  | l :: rest =>
      section <- read l ;;
      ns <- get_notes ;;
      let sc := (note_boost ns query_lower section
                 + _score_section section tokens query_lower)%Z in
      if (0 <? sc)%Z
      then
        r <- new {| path := path section; heading := heading section;
                    line_start := line_start section;
                    line_end := line_end section;
                    text := text section; score := sc |} ;;
        score_loop tokens query_lower rest (results ++ [r])
      else score_loop tokens query_lower rest results
  end.

(** The keys [list.sort] computes before it sorts: the score of each
    object, read through its reference. *)
Fixpoint read_keys (ls : list nat) : M (list (Z * nat)) :=
  match ls with
  | [] => ret []
  | l :: rest =>
      s <- read l ;;
      ks <- read_keys rest ;;
      ret ((score s, l) :: ks)
  end.

Definition sort_results (ls : list nat) : M (list nat) :=
  ks <- read_keys ls ;;
  ret (map snd (sort_desc fst ks)).

Definition find_sections (query : string) (top_k : Z) : M (list nat) :=
  let query_lower := lower query in
  let tokens := map lower (findall false WORD_RE query_lower) in
  match tokens with
  | [] => ret []
  | _ =>
      todo <- get_sections ;;
      results <- score_loop tokens query_lower todo [] ;;
      sorted <- sort_results results ;;
      ret (slice_to top_k sorted)
  end.

(** The objects behind a list of references. *)
Definition objects (st : state) (ls : list nat) : list (option Section) :=
  map (fun l => heap st !! l) ls.

(** The score behind a reference, and the score of an optional
    object. *)
Definition score_opt (o : option Section) : Z :=
  match o with Some s => score s | None => 0%Z end.
Definition score_at (st : state) (l : nat) : Z := score_opt (heap st !! l).

(** The store after [fresh] objects were built; the index is as it was. *)
Definition grown (st : state) (fresh : list Section) : state :=
  {| heap := heap st ++ fresh;
     self_sections := self_sections st;
     self_notes := self_notes st |}.

(** The references [ls] point to the objects [ss]. *)
Definition point_to (st : state) (ls : list nat) (ss : list Section) : Prop :=
  Forall2 (fun l s => heap st !! l = Some s) ls ss.

(** Every reference of the index points to an object. *)
Definition well_formed (st : state) : Prop :=
  Forall (fun l => (l < length (heap st))%nat) (self_sections st).

End ObjectStore.

(* ===================================================================== *)
(** * vault_tools.py and app.py *)
(* ===================================================================== *)

Module App.
Import Py Re.
Export VaultIndex.

(** [vault_tools.Snippet]. *)
Record Snippet : Type := mkSnippet {
  s_path : string;
  s_heading : string;
  s_line_start : Z;
  s_line_end : Z;
  s_excerpt : string;
  s_score : Z
}.

(** The dictionary [extract_price_items] builds for an item; its keys
    are fixed, so it is a record. *)
Record PriceItem : Type := mkItem {
  i_name : string;
  i_price : string;
  i_path : string;
  i_heading : string;
  i_line_start : Z;
  i_line_end : Z
}.

Definition lits (s : string) : regex :=
  foldr (fun c r => Seq (Lit c) r) Eps (chars s).

(** [PRICE_PATTERN], compiled with IGNORECASE: a decimal digit and any
    run of digits, dots and commas (group 1), optional whitespace, then
    [dkk], or [kr] with an optional dot, or [kr] between word boundaries
    (group 2). *)
Definition price_tail (c : ascii) : bool :=
  is_decimal c || is_code 46 c || is_code 44 c.

Definition PRICE_AMOUNT : regex :=
  Grp 1 (Seq (Cls is_decimal) (star price_tail)).

Definition PRICE_CURRENCY : regex :=
  Grp 2 (Alt (lits "dkk")
             (Alt (Seq (lits "kr") (Opt (Lit ".")))
                  (Seq WordB (Seq (lits "kr") WordB)))).

Definition PRICE_PATTERN : regex :=
  Seq PRICE_AMOUNT (Seq (star is_space) PRICE_CURRENCY).

Definition price_search (s : string) : option rmatch := search true PRICE_PATTERN s.

Definition LABEL_STOP : list string :=
  ["pris"; "price"; "abonnement"; "billedpakker"; "certificering";
   "pakker"; "pakken"].

Definition CONTINUATION_PREFIXES : list string :=
  ["inkl"; "inkl."; "inklusive"; "pr."; "pr"; "per"; "/"].

Definition tab : string := String "009" "".

(** The set of [strip] in [_clean_text] and [_name_from_line]: hyphen,
    colon, tab and space (the bullet U+2022 is outside the block). *)
Definition label_trim : string := "-:" +:+ tab +:+ " ".

Definition not_char (x : ascii) (c : ascii) : bool := negb (Ascii.eqb c x).

(** A Markdown link: bracketed text (group 1) and a parenthesised
    target, neither empty. *)
Definition LINK_RE : regex :=
  Seq (Lit "[") (Seq (Grp 1 (plus (not_char "]")))
    (Seq (Lit "]") (Seq (Lit "(") (Seq (plus (not_char ")")) (Lit ")"))))).

Definition _clean_text (text : string) : string :=
  let text := sub false LINK_RE [TGroup 1] text in
  let text := replace (replace text "**" "") "*" "" in
  let text := strip_chars label_trim (strip text) in
  strip (sub false (plus is_space) [TText " "] text).

Definition _has_letters (text : string) : bool :=
  match search false (Cls letter) text with
  | Some _ => true
  | None => false
  end.

Definition in_strings (s : string) (l : list string) : bool :=
  existsb (String.eqb s) l.

Definition _is_stop_label (text : string) : bool :=
  let cleaned := strip_chars (" :" +:+ tab) (lower text) in
  in_strings cleaned LABEL_STOP.

Definition _extract_price_from_line (line : string) : option string :=
  match price_search line with
  | None => None
  | Some m =>
      let price := strip (group0 line m) in
      let suffix := strip (str_from (m_end m) line) in
      if truthy suffix
      then
        let suffix_words := split_ws suffix in
        match suffix_words with
        | w :: _ =>
            if startswith w "/" || startswith (lower w) "pr"
               || startswith (lower w) "per"
            then Some (strip (price +:+ " " +:+ join " " (slice 0 2 suffix_words)))
            else Some price
        | [] => Some price
        end
      else Some price
  end.

(** The truth value of an optional string: present and non-empty. *)
Definition truthy_opt (o : option string) : bool :=
  match o with Some s => truthy s | None => false end.

(** The year qualifiers [_name_from_line] refuses as names; 229 is the
    a-ring. *)
Definition aar : string := String "229" "r".
Definition YEAR_LABELS : list string :=
  ["/ " +:+ aar; "/ aar"; "/" +:+ aar; "pr. " +:+ aar; "pr " +:+ aar].

Definition _name_from_line (line : string) (price : option string) : string :=
  if negb (truthy line) then ""
  else
    let cleaned := _clean_text line in
    let cleaned :=
      match price with
      | Some p => if truthy p then strip (replace cleaned p "") else cleaned
      | None => cleaned
      end in
    let cleaned := strip_chars label_trim cleaned in
    if negb (truthy cleaned) then ""
    else
      let lowered := lower cleaned in
      if _is_stop_label lowered then ""
      else if in_strings lowered YEAR_LABELS then ""
      else if negb (_has_letters cleaned) then ""
      else if (len cleaned <=? 2)%nat then ""
      else cleaned.

(** The loop of [_collect_label]: [before] holds the lines above the
    price line, nearest first; a candidate goes to the front of
    [collected]. *)
Fixpoint _collect_label_loop (max_lines : nat) (before collected : list string)
    : list string :=
  match before with
  | [] => collected
  | line :: rest =>
      if (length collected <? max_lines)%nat
      then
        let raw := strip line in
        if negb (truthy raw)
        then match collected with
             | [] => _collect_label_loop max_lines rest collected
             | _ => collected
             end
        else if startswith raw "#"
        then _collect_label_loop max_lines rest collected
        else
          let candidate := _clean_text raw in
          if negb (truthy candidate)
          then _collect_label_loop max_lines rest collected
          else if _is_stop_label candidate
          then _collect_label_loop max_lines rest collected
          else _collect_label_loop max_lines rest (candidate :: collected)
      else collected
  end.

Definition _collect_label (lines : list string) (idx max_lines : nat) : string :=
  strip (join " " (_collect_label_loop max_lines (rev (take idx lines)) [])).

Definition _parse_table_row (line : string) : option (list string) :=
  if negb (contains "|" line) then None
  else
    let stripped := strip line in
    if negb (truthy stripped) then None
    else if forallb (one_of "|-: ") (chars stripped) then None
    else
      let cells := map strip (split (strip_chars "|" stripped) "|") in
      Some (List.filter truthy cells).

(** The first cell of a table row that holds a price. *)
Definition find_price_cell (cells : list string) : option string :=
  find (fun cell => match price_search cell with Some _ => true | None => false end)
       cells.

(** The name loop over the cells of a table row: the first cell, other
    than the price cell, that yields a name which is no stop label. *)
Fixpoint table_name (price_cell : string) (cells : list string) : string :=
  match cells with
  | [] => ""
  | cell :: rest =>
      if String.eqb cell price_cell then table_name price_cell rest
      else
        let candidate := _name_from_line cell None in
        if truthy candidate && negb (_is_stop_label candidate) then candidate
        else table_name price_cell rest
  end.

Definition make_item (section : Section) (idx : nat) (name price : string)
    : PriceItem :=
  {| i_name := name; i_price := price;
     i_path := path section; i_heading := heading section;
     i_line_start := (line_start section + Z.max (Z.of_nat idx - 1) 0)%Z;
     i_line_end := (line_start section + Z.of_nat idx)%Z |}.

(** The body of the inner loop of [extract_price_items]: the items line
    [idx] of the section appends. *)
Definition line_items (section : Section) (lines : list string) (idx : nat)
    (line : string) : list PriceItem :=
  match _parse_table_row line with
  | Some (c :: cs) =>
      let table_cells := c :: cs in
      match find_price_cell table_cells with
      | Some price_cell =>
          if truthy price_cell
          then
            let price := _extract_price_from_line price_cell in
            let name := table_name price_cell table_cells in
            let name := if truthy name then name else _collect_label lines idx 4 in
            match price with
            | Some pr =>
                if truthy name && truthy pr
                then [make_item section idx name pr] else []
            | None => []
            end
          else []
      | None => []
      end
  | _ =>
      match _extract_price_from_line line with
      | None => []
      | Some price =>
          if negb (truthy price) then []
          else
            let name := _name_from_line line (Some price) in
            let name := if truthy name then name else _collect_label lines idx 4 in
            if truthy name
            then
              let name :=
                if startswith_any (lower name) CONTINUATION_PREFIXES
                then
                  let extended := _collect_label lines idx 4 in
                  if truthy extended && negb (String.eqb extended name)
                  then extended else name
                else name in
              [make_item section idx name price]
            else []
      end
  end.

Fixpoint enumerate_from {A} (i : nat) (l : list A) : list (nat * A) :=
  match l with
  | [] => []
  | x :: l' => (i, x) :: enumerate_from (S i) l'
  end.

Definition section_items (section : Section) : list PriceItem :=
  let lines := splitlines (text section) in
  flat_map (fun '(idx, line) => line_items section lines idx line)
           (enumerate_from 0 lines).

Definition item_key (item : PriceItem) : string * string * string * string * Z :=
  (i_path item, i_heading item, i_name item, i_price item, i_line_start item).

(** The deduplication loop, with its set of keys seen. *)
Fixpoint dedupe (seen : gset (string * string * string * string * Z))
    (items : list PriceItem) : list PriceItem :=
  match items with
  | [] => []
  | item :: rest =>
      if decide (item_key item ∈ seen) then dedupe seen rest
      else item :: dedupe ({[ item_key item ]} ∪ seen) rest
  end.

(** Tuple order on [(path, line_start)]: the paths by code points, then
    the line numbers. *)
Definition sort_key_lt (a b : PriceItem) : bool :=
  if String.eqb (i_path a) (i_path b)
  then (i_line_start a <? i_line_start b)%Z
  else String.ltb (i_path a) (i_path b).

(** [list.sort(key=...)]: ascending and stable. *)
Fixpoint insert_item (x : PriceItem) (l : list PriceItem) : list PriceItem :=
  match l with
  | [] => [x]
  | y :: l' => if sort_key_lt y x then y :: insert_item x l' else x :: l
  end.

Definition sort_items (l : list PriceItem) : list PriceItem :=
  foldr insert_item [] l.

Definition extract_price_items (sections : list Section) : list PriceItem :=
  let items := flat_map section_items sections in
  let deduped := dedupe ∅ items in
  sort_items deduped.

(** The loop of [parse_sources]. *)
Fixpoint parse_sources_loop (capture : bool) (lines : list string) : list string :=
  match lines with
  | [] => []
  | line :: rest =>
      if startswith (strip line) "Sources:" then parse_sources_loop true rest
      else if capture
      then
        if negb (truthy (strip line)) then parse_sources_loop capture rest
        else if startswith (strip line) "-"
        then str_from 2 (strip line) :: parse_sources_loop capture rest
        else []
      else parse_sources_loop capture rest
  end.

Definition parse_sources (text : string) : list string :=
  if negb (contains "Sources:" text) then []
  else parse_sources_loop false (splitlines text).

Definition citation (snippet : Snippet) : string :=
  s_path snippet +:+ "#" +:+ s_heading snippet +:+ " (lines "
  +:+ str_of_int (s_line_start snippet) +:+ "-"
  +:+ str_of_int (s_line_end snippet) +:+ ")".

Definition ensure_sources (response : string) (snippets : list Snippet)
    : string * list string :=
  let sources := parse_sources response in
  match sources with
  | _ :: _ => (response, sources)
  | [] =>
      let base :=
        if contains "Sources:" response
        then rstrip (hd "" (split response "Sources:"))
        else response in
      let fallback_sources := map citation (slice 0 3 snippets) in
      match fallback_sources with
      | _ :: _ =>
          (rstrip base +:+ nl +:+ nl +:+ "Sources:" +:+ nl
           +:+ join nl (map (fun src => "- " +:+ src) fallback_sources),
           fallback_sources)
      | [] => (response, fallback_sources)
      end
  end.

End App.

(* ===================================================================== *)
(** * Vocabulary of the properties *)
(* ===================================================================== *)

Module Spec.
Import Py Re App.

(** The character before the position, once [consumed] was passed. *)
Definition last_prev (prev : option ascii) (consumed : list ascii)
    : option ascii :=
  fold_left (fun _ c => Some c) consumed prev.

(** The matcher got from [st] to [st'] by consuming characters. *)
Definition reaches (st st' : mstate) : Prop :=
  exists consumed,
    m_rest st = consumed ++ m_rest st'
    /\ m_pos st' = (m_pos st + length consumed)%nat
    /\ m_prev st' = last_prev (m_prev st) consumed.

(** A text that neither starts nor ends with a character of class [p]. *)
Definition starts_clean (p : ascii -> bool) (s : list ascii) : Prop :=
  exists c t, s = c :: t /\ p c = false.
Definition ends_clean (p : ascii -> bool) (s : list ascii) : Prop :=
  exists u c, s = u ++ [c] /\ p c = false.

(** A line is a heading line when [HEADING_RE] matches it, stripped. *)
Definition is_heading_line (line : string) : Prop :=
  heading_match line <> None.

(** The lines a section claims: [lines[line_start - 1 : line_end]]. *)
Definition section_lines (lines : list string) (s : Section) : list string :=
  slice (Z.to_nat (line_start s - 1)) (Z.to_nat (line_end s)) lines.

(** Boundaries at or after [lo], strictly increasing, below [n]. *)
Fixpoint increasing (lo : nat) (bs : list (nat * string)) (n : nat) : Prop :=
  match bs with
  | [] => True
  | (b, _) :: rest => (lo <= b < n)%nat /\ increasing (S b) rest n
  end.

(** Sections that start at [first], follow one another without a gap,
    are not empty, and end at [last]. *)
Fixpoint chain (first : Z) (secs : list Section) (last : Z) : Prop :=
  match secs with
  | [] => first = (last + 1)%Z
  | s :: rest =>
      line_start s = first /\ (first <= line_end s)%Z
      /\ chain (line_end s + 1) rest last
  end.

Definition no_space (w : list ascii) : Prop :=
  Forall (fun c => is_space c = false) w.

(** The guard of [_extract_price_from_line] on the first word after the
    match. *)
Definition continues (w : string) : bool :=
  startswith w "/" || startswith (lower w) "pr" || startswith (lower w) "per".

(** The word tokens of a query, as the specification has them: the
    matches of the word pattern in the lowercased query. *)
Definition query_tokens (query : string) : list string :=
  findall false WORD_RE (lower query).

Definition Zsum (l : list Z) : Z := foldr Z.add 0%Z l.

(** The score the specification gives a section for a query: 20 if an
    alias of the section's document is a substring of the lowercased
    query; for each token its count in the lowercased body, 3 times its
    count in the lowercased heading and 2 times its count in the
    lowercased path; 8 if the lowercased query is a substring of the
    lowercased body. *)
Definition spec_score (ns : gmap string NoteMeta) (query : string)
    (s : Section) : Z :=
  let q := lower query in
  let document_aliases :=
    match ns !! path s with
    | Some note => aliases note
    | None => []
    end in
  ((if existsb (fun alias => contains alias q) document_aliases then 20 else 0)
   + Zsum (map (fun t => Z.of_nat (count (lower (text s)) t)
                         + 3 * Z.of_nat (count (lower (heading s)) t)
                         + 2 * Z.of_nat (count (lower (path s)) t))
               (query_tokens query))
   + (if contains q (lower (text s)) then 8 else 0))%Z.

(** A copy of a section with another score. *)
Definition with_score (s : Section) (sc : Z) : Section :=
  {| path := path s; heading := heading s; line_start := line_start s;
     line_end := line_end s; text := text s; score := sc |}.

(** Descending order of a numeric key. *)
Definition desc {A} (key : A -> Z) (a b : A) : Prop := (key b <= key a)%Z.

(** Tuple order on [(path, line_start)], as [sorted] sees it: the path is
    smaller, or the paths agree and the line is not larger. *)
Definition key_le (a b : PriceItem) : Prop :=
  String.ltb (i_path a) (i_path b) = true
  \/ (i_path a = i_path b /\ (i_line_start a <= i_line_start b)%Z).

(** A price text is recognized when [_extract_price_from_line] returns
    it for some text. *)
Definition recognized (price : string) : Prop :=
  exists src, _extract_price_from_line src = Some price.

(** The table row of the pricing example. *)
Definition basis_row : string := "| Basis | 499 kr. |".

End Spec.

(* ===================================================================== *)
(** * Dictionaries in insertion order *)
(* ===================================================================== *)

(** A Python [dict] where the order of the keys matters (iteration,
    [items()], the first key that satisfies a test): an association list
    that holds every key once, in the order of first insertion. *)
Module Dict.

Definition dict (K V : Type) : Type := list (K * V).

Section Ops.
Context {K V : Type} `{EqDecision K}.

(** [d.get(k)]. *)
Fixpoint get (d : dict K V) (k : K) : option V :=
  match d with
  | [] => None
  | (k', v) :: d' => if decide (k' = k) then Some v else get d' k
  end.

(** [d[k] = v]: the value of a present key is replaced where it stands, a
    new key goes to the end. *)
Fixpoint set (d : dict K V) (k : K) (v : V) : dict K V :=
  match d with
  | [] => [(k, v)]
  | (k', v') :: d' =>
      if decide (k' = k) then (k', v) :: d' else (k', v') :: set d' k v
  end.

Definition keys (d : dict K V) : list K := map fst d.

End Ops.

End Dict.

(* ===================================================================== *)
(** * vault_index.py: building the index and looking notes up *)
(* ===================================================================== *)

Module VaultBuild.
Import Py Re.
Export VaultIndex.

(** The index with [self.notes] in insertion order. *)
Record vault : Type := mkVault {
  v_sections : list Section;
  v_notes : Dict.dict string NoteMeta
}.

(** The same index as [find_sections] reads it: the notes by path. *)
Definition index_of (v : vault) : index_state :=
  {| sections := v_sections v; notes := list_to_map (v_notes v) |}.

(** [s.endswith(suffix)]. *)
Definition endswith (s suffix : string) : bool :=
  is_prefix (rev (chars suffix)) (rev (chars s)).

(** One Markdown candidate that [os.walk] reaches: its path relative to
    the vault root, its file name, and what [_read_file] returns for it
    (the empty text when it cannot be read). *)
Record walked : Type := mkWalked {
  w_rel_path : string;
  w_file : string;
  w_content : string
}.

(** The body of the loop of [build] for one file. *)
Definition build_file (acc : vault) (f : walked) : vault :=
  if negb (endswith (lower (w_file f)) ".md") then acc
  else
    let lines := splitlines (w_content f) in
    let title := _detect_title lines (w_file f) in
    let aliases := _build_aliases title (w_file f) in
    {| v_sections := v_sections acc ++ _split_sections (w_rel_path f) lines;
       v_notes := Dict.set (v_notes acc) (w_rel_path f)
                    {| note_path := w_rel_path f; title := title;
                       aliases := aliases |} |}.

(** [build]: [root_is_dir] tells whether a vault root is configured and
    is a directory; [files] are the files of the walk, in its order. *)
Definition build (root_is_dir : bool) (files : list walked) : vault :=
  if negb root_is_dir then {| v_sections := []; v_notes := [] |}
  else fold_left build_file files {| v_sections := []; v_notes := [] |}.

Definition alias_in_query (query_lower : string) (meta : NoteMeta) : bool :=
  existsb (fun alias => contains alias query_lower) (aliases meta).

Definition find_paths_by_alias (v : vault) (query : string) : list string :=
  let query_lower := lower query in
  flat_map (fun '(p, meta) => if alias_in_query query_lower meta then [p] else [])
           (v_notes v).

Definition sections_for_paths (v : vault) (paths : list string) : list Section :=
  let path_set : gset string := list_to_set paths in
  List.filter (fun section => bool_decide (path section ∈ path_set))
              (v_sections v).

End VaultBuild.

(* ===================================================================== *)
(** * app.py: query tokens, ranking and candidate selection *)
(* ===================================================================== *)

Module AppRank.
Import Py Re.
Export App VaultBuild.

(** [WORD_PATTERN] of app.py is the same pattern as [WORD_RE]. *)
Definition WORD_PATTERN : regex := WORD_RE.

Definition PRICE_STOPWORDS : list string :=
  ["hvad"; "hvor"; "hvem"; "hvordan"; "det"; "for"; "til"; "et"; "en"; "den";
   "der"; "som"; "at"; "og"; "the"; "what"; "where"; "how"; "does"; "do";
   "is"; "are"; "a"; "an"; "of"; "it"; "cost"; "costs"; "koster"; "pris";
   "priser"; "price"; "pricing"; "pakke"; "pakker"; "package"; "packages";
   "abonnement"; "abonnements"].

Definition SHORT_KEEP : list string := ["gln"; "gtin"; "gdsn"; "sscc"].

(** [s[:-n]]. *)
Definition drop_last (n : nat) (s : string) : string :=
  str (take (len s - n) (chars s)).

Definition _normalize_token (token : string) : string :=
  if endswith token "s" && (3 <? len token)%nat then drop_last 1 token
  else if endswith token "er" && (4 <? len token)%nat then drop_last 2 token
  else if endswith token "e" && (4 <? len token)%nat then drop_last 1 token
  else token.

(** What the loop of [_query_tokens] appends for one token. *)
Definition token_variants (token : string) : list string :=
  if in_strings token PRICE_STOPWORDS then []
  else if (len token <? 3)%nat && negb (in_strings token SHORT_KEEP) then []
  else
    let normalized := _normalize_token token in
    if negb (String.eqb normalized token) then [token; normalized] else [token].

Definition _query_tokens (query : string) : list string :=
  let tokens := flat_map token_variants (findall false WORD_PATTERN (lower query)) in
  sorted_strings (elements (list_to_set tokens : gset string)).

(** The inner loop of [_rank_sections]: no token is skipped here. *)
Definition rank_score (section : Section) (tokens : list string)
    (query_lower : string) : Z :=
  let text_lower := lower (text section) in
  let heading_lower := lower (heading section) in
  let path_lower := lower (path section) in
  let score :=
    fold_left
      (fun score token =>
         (score + Z.of_nat (count text_lower token)
          + 3 * Z.of_nat (count heading_lower token)
          + 2 * Z.of_nat (count path_lower token))%Z)
      tokens 0%Z in
  if contains query_lower text_lower then (score + 8)%Z else score.

Definition ranked_copy (tokens : list string) (query_lower : string)
    (section : Section) : list Section :=
  let sc := rank_score section tokens query_lower in
  if (0 <? sc)%Z
  then [ {| path := path section; heading := heading section;
            line_start := line_start section; line_end := line_end section;
            text := text section; score := sc |} ]
  else [].

Definition _rank_sections (sections : list Section) (query : string) (top_k : Z)
    : list Section :=
  let query_lower := lower query in
  let tokens := List.filter truthy (findall false WORD_PATTERN query_lower) in
  match tokens with
  | [] => []
  | _ =>
      let scored := flat_map (ranked_copy tokens query_lower) sections in
      slice_to top_k (sort_desc score scored)
  end.

(** The loop of [_select_top_paths]: the scores of the sections summed
    per path. *)
Definition add_score (scores : Dict.dict string Z) (section : Section)
    : Dict.dict string Z :=
  Dict.set scores (path section)
           (default 0%Z (Dict.get scores (path section)) + score section)%Z.

Definition _select_top_paths (sections : list Section) (limit : Z) : list string :=
  let scores := fold_left add_score sections [] in
  let ranked := sort_desc snd scores in
  map fst (slice_to limit ranked).

(** [x or y] on strings and on lists. *)
Definition or_string (a b : string) : string := if truthy a then a else b.
Definition or_list {A} (a b : list A) : list A :=
  match a with [] => b | _ => a end.

Definition _price_candidate_sections (v : vault) (query : string)
    (max_sections : Z) : list Section * list string :=
  let alias_paths := find_paths_by_alias v query in
  match alias_paths with
  | _ :: _ => (sections_for_paths v alias_paths, alias_paths)
  | [] =>
      let reduced_query := or_string (join " " (_query_tokens query)) query in
      let scored_sections := find_sections (index_of v) reduced_query max_sections in
      match scored_sections with
      | [] => ([], [])
      | _ =>
          let top_paths := _select_top_paths scored_sections 2 in
          let expanded := sections_for_paths v top_paths in
          (or_list expanded scored_sections, [])
      end
  end.

End AppRank.

(* ===================================================================== *)
(** * app.py: intent, snippets and the filter on price items *)
(* ===================================================================== *)

Module AppMore.
Import Py Re.
Export AppRank.

(** [any(marker in text for marker in markers)]. *)
Definition contains_any (markers : list string) (text : string) : bool :=
  existsb (fun marker => contains marker text) markers.

(** The patterns of [is_identity_question] are plain texts; each is run
    through the matcher as a sequence of literals. *)
Definition IDENTITY_PATTERNS : list string :=
  ["hvem er du"; "hvad hedder du"; "what's your name"; "what is your name";
   "who are you"].

Definition is_identity_question (text : string) : bool :=
  let text_lower := strip (lower text) in
  existsb (fun pattern =>
             match search false (lits pattern) text_lower with
             | Some _ => true
             | None => false
             end)
          IDENTITY_PATTERNS.

Definition INFO_KEYWORDS : list string :=
  ["price"; "pricing"; "pakke"; "package"; "service"; "policy"; "politik";
   "proces"; "process"; "procedure"; "how"; "what"; "where"; "hvad";
   "hvordan"; "hvor"; "cost"; "pris"; "priser"; "timeline"; "tidslinje";
   "find"; "show"; "tell me"; "forklar"; "vis"].

Definition is_info_seeking (text : string) : bool :=
  let text_lower := lower text in
  if contains "?" text_lower then true
  else contains_any INFO_KEYWORDS text_lower.

Definition PRICE_MARKERS : list string :=
  ["pris"; "priser"; "price"; "pricing"; "pakke"; "pakker"; "package";
   "packages"; "abonnement"; "abonnements"; "gebyr"; "fee"; "fees"; "cost";
   "costs"; "koster"; "hvad koster"].

Definition is_price_query (text : string) : bool :=
  contains_any PRICE_MARKERS (lower text).

Definition COUNT_MARKERS : list string :=
  ["how many"; "hvor mange"; "antal"; "number of"; "count"].

Definition is_count_query (text : string) : bool :=
  contains_any COUNT_MARKERS (lower text).

Definition INDUSTRY_MARKERS : list string :=
  ["branche"; "brancher"; "industri"; "industrier"; "industries"; "sektor";
   "sektorer"].

Definition is_industry_query (text : string) : bool :=
  contains_any INDUSTRY_MARKERS (lower text).

(** [s[:k]] on a string, for an [int] k. *)
Definition str_to (k : Z) (s : string) : string := str (slice_to k (chars s)).

Definition snippet_of_section (max_chars : Z) (section : Section) : Snippet :=
  let excerpt := strip (text section) in
  let excerpt :=
    if (max_chars <? Z.of_nat (len excerpt))%Z
    then rstrip (str_to max_chars excerpt) +:+ nl +:+ "..."
    else excerpt in
  {| s_path := path section; s_heading := heading section;
     s_line_start := line_start section; s_line_end := line_end section;
     s_excerpt := excerpt; s_score := score section |}.

Definition build_snippets_from_sections (sections : list Section) (max_chars : Z)
    : list Snippet :=
  map (snippet_of_section max_chars) sections.

Definition INCLUSION_MARKERS : list string :=
  ["inkl"; "inkl."; "inklusive"; "gratis"; "medlemskab"; "medlem"; "uden ekstra"].

(** The snippet [extract_inclusion_snippets] builds around line [idx]. *)
Definition inclusion_snippet (section : Section) (lines : list string) (idx : nat)
    : Snippet :=
  let start_idx := Z.max 0 (Z.of_nat idx - 1) in
  let end_idx := Z.min (Z.of_nat (length lines) - 1) (Z.of_nat idx + 1) in
  {| s_path := path section; s_heading := heading section;
     s_line_start := (line_start section + start_idx)%Z;
     s_line_end := (line_start section + end_idx)%Z;
     s_excerpt := strip (join nl (slice (Z.to_nat start_idx)
                                        (Z.to_nat (end_idx + 1)) lines));
     s_score := score section |}.

(** The loop over the lines of one section.  The result is the list of
    snippets so far and whether the function has returned. *)
Fixpoint inclusion_lines (section : Section) (lines : list string)
    (query_tokens : list string) (limit : Z)
    (todo : list (nat * string)) (snippets : list Snippet)
    : list Snippet * bool :=
  match todo with
  | [] => (snippets, false)
  | (idx, line) :: rest =>
      let line_lower := lower line in
      if negb (existsb (fun token => contains token line_lower) query_tokens)
      then inclusion_lines section lines query_tokens limit rest snippets
      else if negb (contains_any INCLUSION_MARKERS line_lower)
      then inclusion_lines section lines query_tokens limit rest snippets
      else
        let snippets := snippets ++ [inclusion_snippet section lines idx] in
        if (limit <=? Z.of_nat (length snippets))%Z then (snippets, true)
        else inclusion_lines section lines query_tokens limit rest snippets
  end.

Fixpoint inclusion_sections (query_tokens : list string) (limit : Z)
    (sections : list Section) (snippets : list Snippet) : list Snippet :=
  match sections with
  | [] => snippets
  | section :: rest =>
      let lines := splitlines (text section) in
      match inclusion_lines section lines query_tokens limit
                            (enumerate_from 0 lines) snippets with
      | (snippets, true) => snippets
      | (snippets, false) => inclusion_sections query_tokens limit rest snippets
      end
  end.

Definition extract_inclusion_snippets (sections : list Section) (query : string)
    (limit : Z) : list Snippet :=
  let query_tokens := _query_tokens query in
  match query_tokens with
  | [] => []
  | _ => inclusion_sections query_tokens limit sections []
  end.

Definition filter_key (item : PriceItem) : string * string :=
  (lower (i_name item), i_price item).

(** The deduplication loop of [filter_price_items]. *)
Fixpoint dedupe_by_name (seen : gset (string * string)) (items : list PriceItem)
    : list PriceItem :=
  match items with
  | [] => []
  | item :: rest =>
      if decide (filter_key item ∈ seen) then dedupe_by_name seen rest
      else item :: dedupe_by_name ({[ filter_key item ]} ∪ seen) rest
  end.

Definition name_has_token (query_tokens : list string) (item : PriceItem) : bool :=
  existsb (fun token => contains token (lower (i_name item))) query_tokens.

Definition filter_price_items (items : list PriceItem) (query : string)
    : list PriceItem :=
  let query_tokens := _query_tokens query in
  match query_tokens with
  | [] => items
  | _ => dedupe_by_name ∅ (List.filter (name_has_token query_tokens) items)
  end.

(** The grouping loop of [build_price_snippets_from_items]:
    [grouped.setdefault(key, []).append(item)]. *)
Definition group_item (grouped : Dict.dict (string * string) (list PriceItem))
    (item : PriceItem) : Dict.dict (string * string) (list PriceItem) :=
  let key := (i_path item, i_heading item) in
  Dict.set grouped key (default [] (Dict.get grouped key) ++ [item]).

(** [min] and [max] of a list of integers that is not empty; they raise
    on the empty list, which a group never is. *)
Definition min_list (l : list Z) : option Z :=
  match l with
  | [] => None
  | x :: l' => Some (fold_left Z.min l' x)
  end.
Definition max_list (l : list Z) : option Z :=
  match l with
  | [] => None
  | x :: l' => Some (fold_left Z.max l' x)
  end.

(** The snippet of one group.  The excerpt lines join name and price by
    a dash between two spaces; the dash of the source is U+2014, which
    has no code point in the block, so the separator is the parameter
    [sep]. *)
Definition group_snippet (sep : string)
    (entry : (string * string) * list PriceItem) : option Snippet :=
  let '((p, h), group) := entry in
  match min_list (map i_line_start group), max_list (map i_line_end group) with
  | Some lo, Some hi =>
      Some {| s_path := p; s_heading := h; s_line_start := lo; s_line_end := hi;
              s_excerpt := join nl (map (fun item => i_name item +:+ sep
                                                     +:+ i_price item) group);
              s_score := 999 |}
  | _, _ => None
  end.

(** [build_price_snippets_from_items]; [None] stands for the exception
    of [min] on an empty group. *)
Fixpoint collect_snippets (sep : string)
    (entries : list ((string * string) * list PriceItem)) : option (list Snippet) :=
  match entries with
  | [] => Some []
  | entry :: rest =>
      match group_snippet sep entry, collect_snippets sep rest with
      | Some s, Some l => Some (s :: l)
      | _, _ => None
      end
  end.

Definition build_price_snippets_from_items (sep : string) (items : list PriceItem)
    : option (list Snippet) :=
  collect_snippets sep (fold_left group_item items []).

End AppMore.

(* ===================================================================== *)
(** * app.py: the session store, in memory *)
(* ===================================================================== *)

(** [SessionStore] keeps two dictionaries and writes both to a file
    after every change ([_save]).  The file is left out here: the model
    is the state in memory, which [_save] does not change. *)
Module Session.
Import Py.

(** A message of a conversation: its role and its content. *)
Definition message : Type := string * string.

Record store : Type := mkStore {
  max_turns : Z;
  sessions : gmap string (list message);
  sources : gmap string (list string)
}.

Definition session_key (user_id channel_id : string) : string :=
  user_id +:+ ":" +:+ channel_id.

(** [l[k:]] for an [int] k: a negative [k] counts from the end. *)
Definition slice_from {A} (k : Z) (l : list A) : list A :=
  if (0 <=? k)%Z then drop (Z.to_nat k) l
  else drop (length l - Z.to_nat (- k)%Z) l.

Definition get_session (st : store) (user_id channel_id : string) : list message :=
  default [] (sessions st !! session_key user_id channel_id).

Definition update_session (st : store) (user_id channel_id : string)
    (messages : list message) : store :=
  {| max_turns := max_turns st;
     sessions := <[ session_key user_id channel_id
                    := slice_from (- max_turns st) messages ]> (sessions st);
     sources := sources st |}.

Definition set_sources (st : store) (user_id channel_id : string)
    (srcs : list string) : store :=
  {| max_turns := max_turns st;
     sessions := sessions st;
     sources := <[ session_key user_id channel_id := srcs ]> (sources st) |}.

Definition get_sources (st : store) (user_id channel_id : string) : list string :=
  default [] (sources st !! session_key user_id channel_id).

(** [_update_history] of app.py: the stored history with the user text
    and the reply appended, stored again. *)
Definition _update_history (st : store) (user_id channel_id : string)
    (user_text reply : string) : store :=
  let history := get_session st user_id channel_id in
  let history := history ++ [("user", user_text)] in
  let history := history ++ [("assistant", reply)] in
  update_session st user_id channel_id history.

End Session.

(* ===================================================================== *)
(** * vault_tools.py: scoring a line and finding its heading *)
(* ===================================================================== *)

Module VaultTools.
Import Py Re.
Import App.

(** [WORD_RE] of vault_tools.py: its class holds [\w] and the question
    mark (the file has six question marks where vault_index.py has the
    Danish letters, which [\w] holds already). *)
Definition WORD_RE : regex :=
  plus (fun c => is_word c || is_code 63 c).

Definition _tokenize (text : string) : list string :=
  map lower (findall false WORD_RE text).

Definition _score_line (line : string) (terms : list string) : Z :=
  let line_lower := lower line in
  fold_left (fun score term =>
               if truthy term then (score + Z.of_nat (count line_lower term))%Z
               else score)
            terms 0%Z.

(** [s.lstrip("#")]. *)
Definition lstrip_hashes (s : string) : string :=
  str (lstrip_with (is_code 35) (chars s)).

(** The loop of [_find_heading], over the lines from [index] upwards. *)
Fixpoint find_heading_loop (upwards : list string) : string :=
  match upwards with
  | [] => "(top)"
  | l :: rest =>
      let line := strip l in
      if startswith line "#"
      then let h := strip (lstrip_hashes line) in
           if truthy h then h else "(top)"
      else find_heading_loop rest
  end.

Definition _find_heading (lines : list string) (index : Z) : string :=
  match lines with
  | [] => "(top)"
  | _ =>
      let index :=
        if (Z.of_nat (length lines) <=? index)%Z
        then (Z.of_nat (length lines) - 1)%Z else index in
      if (index <? 0)%Z then "(top)"
      else find_heading_loop (rev (take (Z.to_nat index + 1) lines))
  end.

(** What [search_vault] reads of the settings: whether a vault path is
    set and is a directory, and the two limits. *)
Record tool_settings : Type := mkToolSettings {
  root_is_dir : bool;
  max_snippets : Z;
  max_snippet_lines : Z
}.

(** One file that [os.walk] reaches: its path relative to the vault
    root, its name, and its content; [None] when reading it raises
    [OSError], which skips the file. *)
Record candidate : Type := mkCandidate {
  c_rel_path : string;
  c_file : string;
  c_content : option string
}.

(** An index of a slice, as Python reads an [int] against a length. *)
Definition norm_index (n : nat) (i : Z) : nat :=
  if (i <? 0)%Z then Z.to_nat (Z.max (i + Z.of_nat n) 0)
  else Nat.min (Z.to_nat i) n.

(** [l[a:b]] for [int]s [a] and [b]. *)
Definition slice_int {A} (a b : Z) (l : list A) : list A :=
  slice (norm_index (length l) a) (norm_index (length l) b) l.

(** The lines with a positive score, as (score, index). *)
Definition line_hits (lines terms : list string) : list (Z * nat) :=
  flat_map (fun '(idx, line) =>
              let score := _score_line line terms in
              if (0 <? score)%Z then [(score, idx)] else [])
           (enumerate_from 0 lines).

(** The snippet around one hit. *)
Definition hit_snippet (cfg : tool_settings) (rel_path : string)
    (lines : list string) (filename_score : Z) (hit : Z * nat) : Snippet :=
  let '(score, idx) := hit in
  let start := Z.max 0 (Z.of_nat idx - max_snippet_lines cfg) in
  let end_ := Z.min (Z.of_nat (length lines) - 1)
                    (Z.of_nat idx + max_snippet_lines cfg) in
  {| s_path := rel_path;
     s_heading := _find_heading lines (Z.of_nat idx);
     s_line_start := (start + 1)%Z;
     s_line_end := (end_ + 1)%Z;
     s_excerpt := strip (join VaultIndex.nl (slice_int start (end_ + 1) lines));
     s_score := (score + filename_score)%Z |}.

(** The snippet of a file found by its name only. *)
Definition name_snippet (cfg : tool_settings) (rel_path : string)
    (lines : list string) (filename_score : Z) : Snippet :=
  let snippet_end := Z.min (Z.of_nat (length lines)) (max_snippet_lines cfg * 2) in
  {| s_path := rel_path;
     s_heading := _find_heading lines 0;
     s_line_start := 1;
     s_line_end := if (0 <? snippet_end)%Z then snippet_end else 1%Z;
     s_excerpt := match lines with
                  | [] => ""
                  | _ => strip (join VaultIndex.nl (slice_to snippet_end lines))
                  end;
     s_score := filename_score |}.

(** The body of the loop over the files: what one file appends. *)
Definition file_snippets (cfg : tool_settings) (terms : list string)
    (f : candidate) : list Snippet :=
  if negb (VaultBuild.endswith (lower (c_file f)) ".md") then []
  else
    let filename_score :=
      (Z.of_nat (length (List.filter (fun term => contains term (lower (c_file f)))
                                     terms)) * 3)%Z in
    match c_content f with
    | None => []
    | Some content =>
        let lines := splitlines content in
        let line_scores := line_hits lines terms in
        match line_scores with
        | [] =>
            if (filename_score =? 0)%Z then []
            else if (0 <? filename_score)%Z
                 then [name_snippet cfg (c_rel_path f) lines filename_score]
                 else []
        | _ =>
            let top_hits := slice_to 3 (sort_desc fst line_scores) in
            map (hit_snippet cfg (c_rel_path f) lines filename_score) top_hits
            ++ match top_hits with
               | [] => if (0 <? filename_score)%Z
                       then [name_snippet cfg (c_rel_path f) lines filename_score]
                       else []
               | _ => []
               end
        end
    end.

(** [search_vault]: [files] are the files of the walk, in its order. *)
Definition search_vault (cfg : tool_settings) (files : list candidate)
    (query : string) (limit : option Z) : list Snippet :=
  if negb (root_is_dir cfg) then []
  else
    match _tokenize query with
    | [] => []
    | terms =>
        let limit :=
          match limit with
          | Some k => if (k =? 0)%Z then max_snippets cfg else k
          | None => max_snippets cfg
          end in
        let results := flat_map (file_snippets cfg terms) files in
        slice_to limit (sort_desc s_score results)
    end.

End VaultTools.

(* ===================================================================== *)
(** * app.py: the chat endpoint *)
(* ===================================================================== *)

(** [chat] works on three globals: the session store, the vault index
    and the model runner.  The store and the index are the state here.
    The runner is a function of what [chat] passes to it (the system
    prompt, the conversation and the snippets); [chat] calls it at most
    twice, with two different prompts.  The file system that
    [index.build] walks is an argument too. *)
Module Chat.
Import Py Re.
Export AppMore.
Import Session.

Definition IDENTITY_LINE : string :=
  "Jeg hedder Dory, jeg er din digitale praktikant.".
Definition NO_INFO_LINE : string := "I can't find that in the vault.".

Definition build_brancher_count_snippets (v : vault) : list Snippet :=
  match find (fun p => endswith (lower p) "gs1dk brancher index.md")
             (Dict.keys (v_notes v)) with
  | None => []
  | Some target_path =>
      if negb (truthy target_path) then []
      else
        match find (fun section =>
                      String.eqb (path section) target_path
                      && String.eqb (lower (heading section)) "pages")
                   (v_sections v) with
        | None => []
        | Some pages_section =>
            let lines := splitlines (text pages_section) in
            let list_lines :=
              List.filter (fun line => startswith (strip line) "- [[") lines in
            match list_lines with
            | [] => []
            | _ =>
                let count := length list_lines in
                let excerpt_lines :=
                  ("Antal brancher i index: " +:+ str_of_int (Z.of_nat count))
                  :: slice_to (Z.of_nat (Nat.min (length list_lines) 20)) list_lines in
                [ {| s_path := path pages_section;
                     s_heading := heading pages_section;
                     s_line_start := line_start pages_section;
                     s_line_end := line_end pages_section;
                     s_excerpt := join nl excerpt_lines;
                     s_score := 999 |} ]
            end
        end
  end.

Definition build_system_prompt (info_seeking price_query : bool) : string :=
  let base :=
    "You are Dory. If asked who you are or your name, reply exactly: "
    +:+ "'" +:+ IDENTITY_LINE +:+ "'."
    +:+ " You are an Obsidian-vault-grounded assistant and must not invent corporate facts." in
  if info_seeking
  then
    let prompt :=
      base
      +:+ " You will receive extracted facts from the vault. "
      +:+ "Your job is to format those facts clearly without adding, inferring, or omitting information. "
      +:+ "Answer only using the provided vault snippets. "
      +:+ "If the answer is not in the snippets, reply: 'I can't find that in the vault.' "
      +:+ "Include a Sources section with citations in this exact format: "
      +:+ "- <path>#<heading> (lines a-b)" in
    if price_query
    then prompt +:+ " When asked for prices or packages, list each package name with its price exactly as provided."
    else prompt
  else base.

Definition is_runner_error (text : string) : bool :=
  contains_any ["Local codex binary not found"; "Local codex exec failed";
                "Local codex exec timed out"; "OpenAI API error"] text.

(** The settings [chat] reads. *)
Record chat_settings : Type := mkChatSettings {
  cfg_max_snippets : Z;
  cfg_vault_path : bool
}.

(** What [index.build] finds when [chat] calls it: whether the vault
    root is a directory, and the files of the walk. *)
Record filesystem : Type := mkFilesystem {
  fs_is_dir : bool;
  fs_files : list walked
}.

Record world : Type := mkWorld {
  w_store : store;
  w_index : vault
}.

Definition runner : Type := string -> list message -> list Snippet -> string.

(** The index after the lazy build at the start of an info-seeking
    request. *)
Definition ensure_index (cfg : chat_settings) (fs : filesystem) (v : vault) : vault :=
  match v_sections v with
  | [] => if cfg_vault_path cfg then build (fs_is_dir fs) (fs_files fs) else v
  | _ => v
  end.

(** The snippets an info-seeking request is answered from: none
    ([NoInfo]), the snippets with the price flag as it stands after the
    selection, or the exception [build_price_snippets_from_items] would
    raise ([Raised]). *)
Inductive selection : Type :=
| NoInfo
| Raised
| Selected (snippets : list Snippet) (price_query : bool).

Definition select_price (cfg : chat_settings) (sep : string) (v : vault)
    (text : string) : selection :=
  let '(candidate_sections, alias_paths) :=
    _price_candidate_sections v text (cfg_max_snippets cfg * 4) in
  match candidate_sections with
  | [] => NoInfo
  | _ =>
      let price_items := extract_price_items candidate_sections in
      let price_items :=
        match price_items, alias_paths with
        | _ :: _, [] => filter_price_items price_items text
        | _, _ => price_items
        end in
      match price_items with
      | [] =>
          match extract_inclusion_snippets candidate_sections text 4 with
          | [] => NoInfo
          | inclusion_snippets => Selected inclusion_snippets false
          end
      | _ =>
          match build_price_snippets_from_items sep price_items with
          | Some snippets => Selected snippets true
          | None => Raised
          end
      end
  end.

Definition select_general (cfg : chat_settings) (v : vault) (text : string)
    (price_query : bool) : selection :=
  let alias_paths := find_paths_by_alias v text in
  let candidate_sections :=
    match alias_paths with
    | _ :: _ => _rank_sections (sections_for_paths v alias_paths) text
                               (cfg_max_snippets cfg)
    | [] => find_sections (index_of v) text (cfg_max_snippets cfg)
    end in
  match candidate_sections with
  | [] => NoInfo
  | _ => Selected (build_snippets_from_sections candidate_sections 1600) price_query
  end.

Definition select_snippets (cfg : chat_settings) (sep : string) (v : vault)
    (text : string) (price_query : bool) : selection :=
  if is_count_query text && is_industry_query text
  then match build_brancher_count_snippets v with
       | [] => NoInfo
       | snippets => Selected snippets price_query
       end
  else if price_query then select_price cfg sep v text
  else select_general cfg v text price_query.

(** [_update_history] on the world. *)
Definition record_turn (w : world) (user_id channel_id user_text reply : string)
    : world :=
  {| w_store := _update_history (w_store w) user_id channel_id user_text reply;
     w_index := w_index w |}.

(** The part of [chat] from the call of the runner on. *)
Definition answer (run : runner) (w : world) (user_id channel_id text : string)
    (info_seeking price_query : bool) (snippets : list Snippet)
    : world * option string :=
  let session_messages := get_session (w_store w) user_id channel_id in
  let conversation := session_messages ++ [("user", text)] in
  let system_prompt := build_system_prompt info_seeking price_query in
  let response_text := run system_prompt conversation snippets in
  if info_seeking
  then
    if String.eqb (strip response_text) NO_INFO_LINE
    then (record_turn w user_id channel_id text response_text, Some response_text)
    else if is_runner_error response_text
    then (record_turn w user_id channel_id text response_text, Some response_text)
    else
      let response_text :=
        if negb (contains "Sources:" response_text)
        then run (system_prompt
                  +:+ " You MUST include a Sources section with citations.")
                 conversation snippets
        else response_text in
      let '(response_text, srcs) := ensure_sources response_text snippets in
      let w := {| w_store := set_sources (w_store w) user_id channel_id srcs;
                  w_index := w_index w |} in
      (record_turn w user_id channel_id text response_text, Some response_text)
  else (record_turn w user_id channel_id text response_text, Some response_text).

(** [chat]: the world after the request and the reply, [None] for a
    request that ends in an exception.  [sep] is the separator of the
    price excerpts (see [group_snippet]). *)
Definition chat (cfg : chat_settings) (sep : string) (run : runner)
    (fs : filesystem) (w : world) (user_id channel_id request_text : string)
    : world * option string :=
  let text := strip request_text in
  if negb (truthy text) then (w, Some "")
  else if is_identity_question text
  then (record_turn w user_id channel_id text IDENTITY_LINE, Some IDENTITY_LINE)
  else
    let info_seeking := is_info_seeking text in
    let price_query := is_price_query text in
    if info_seeking
    then
      let w := {| w_store := w_store w;
                  w_index := ensure_index cfg fs (w_index w) |} in
      match select_snippets cfg sep (w_index w) text price_query with
      | NoInfo => (record_turn w user_id channel_id text NO_INFO_LINE,
                   Some NO_INFO_LINE)
      | Raised => (w, None)
      | Selected snippets price_query =>
          answer run w user_id channel_id text true price_query snippets
      end
    else answer run w user_id channel_id text false price_query [].

End Chat.

(* ===================================================================== *)
(** * Vocabulary of the further properties *)
(* ===================================================================== *)

Module SpecMore.
Import Py Re AppRank Spec.

(** The scored copy of a section, if its score is positive. *)
Definition positive_copy (ns : gmap string NoteMeta) (query : string)
    (s : Section) : list Section :=
  if (0 <? spec_score ns query s)%Z
  then [with_score s (spec_score ns query s)] else [].

(** The number of heading lines of a document. *)
Definition heading_count (lines : list string) : nat :=
  length (List.filter (fun line => bool_decide (is_heading_line line)) lines).

(** What [build] keeps true file after file. *)
Definition covered (v : vault) : Prop :=
  List.NoDup (Dict.keys (v_notes v))
  /\ (forall s, In s (v_sections v) ->
        exists meta, Dict.get (v_notes v) (path s) = Some meta
                     /\ note_path meta = path s)
  /\ (forall p meta, Dict.get (v_notes v) p = Some meta -> note_path meta = p).

(** The summed score of the sections of one path. *)
Definition path_total (sections : list Section) (p : string) : Z :=
  Zsum (map score (List.filter (fun s => String.eqb (path s) p) sections)).

(** The items of one path and heading, in the order of the list. *)
Definition item_group (items : list PriceItem) (k : string * string)
    : list PriceItem :=
  List.filter (fun item => bool_decide ((i_path item, i_heading item) = k)) items.

(** A snippet of at most three lines that lies inside a section. *)
Definition window_of (section : Section) (s : Snippet) : Prop :=
  s_path s = path section
  /\ s_heading s = heading section
  /\ s_score s = score section
  /\ (line_start section <= s_line_start s)%Z
  /\ (s_line_start s <= s_line_end s <= s_line_start s + 2)%Z
  /\ (s_line_end s
      < line_start section + Z.of_nat (length (splitlines (text section))))%Z.

(** One of the tokens occurs in the lowercased name of the item. *)
Definition names_token (tokens : list string) (item : PriceItem) : Prop :=
  exists token, In token tokens /\ contains token (lower (i_name item)) = true.

(** A text without a character that ends a line. *)
Definition no_linebreak (s : string) : bool :=
  forallb (fun c => negb (is_linebreak c)) (chars s).

(** The part of a text before the first occurrence of [sep]; the whole
    text if there is none. *)
Fixpoint text_before (sep s : list ascii) : list ascii :=
  match s with
  | [] => []
  | c :: s' => if is_prefix sep s then [] else c :: text_before sep s'
  end.

(** One of the sections has this path and this heading. *)
Definition headed_as (secs : list Section) (p h : string) : Prop :=
  exists s, In s secs /\ path s = p /\ heading s = h.

(** No path and no heading of the sections holds a line break. *)
Definition clean_sections (secs : list Section) : Prop :=
  forall s, In s secs ->
    no_linebreak (path s) = true /\ no_linebreak (heading s) = true.


End SpecMore.

(* ===================================================================== *)
(** * Properties of the section splitter *)
(* ===================================================================== *)

Section SplitSections.
Import Py Re VaultIndex Spec.

Lemma increasing_weaken lo lo' bs n :
  (lo' <= lo)%nat -> increasing lo bs n -> increasing lo' bs n.
Proof.
  destruct bs as [|[b h] rest]; simpl; [tauto|].
  intros Hle [Hb Hrest]. split; [lia | exact Hrest].
Qed.

Lemma boundaries_from_increasing lines :
  forall i, increasing i (boundaries_from i lines) (i + length lines).
Proof.
  induction lines as [|line rest IH]; intros i; simpl; [exact I|].
  specialize (IH (S i)).
  replace (i + S (length rest))%nat with (S i + length rest)%nat by lia.
  destruct (heading_match line) as [g|].
  - simpl. split; [lia | exact IH].
  - eapply increasing_weaken; [|exact IH]. lia.
Qed.

Lemma boundaries_from_none lines :
  (forall line, In line lines -> heading_match line = None) ->
  forall i, boundaries_from i lines = [].
Proof.
  induction lines as [|line rest IH]; intros Hno i; simpl; [reflexivity|].
  rewrite (Hno line (or_introl eq_refl)).
  apply IH. intros l Hl. apply Hno. right. exact Hl.
Qed.

Lemma boundaries_from_some lines :
  (exists line, In line lines /\ is_heading_line line) ->
  forall i, boundaries_from i lines <> [].
Proof.
  induction lines as [|line rest IH]; intros [l [Hin Hh]] i; simpl.
  - destruct Hin.
  - destruct (heading_match line) as [g|] eqn:Hm; [discriminate|].
    apply IH. destruct Hin as [-> | Hin]; [contradiction | eauto].
Qed.

Lemma chain_le first secs last :
  chain first secs last -> (first <= last + 1)%Z.
Proof.
  revert first. induction secs as [|s rest IH]; simpl; intros first.
  - lia.
  - intros (_ & Hle & Hrest). apply IH in Hrest. lia.
Qed.

Lemma heading_sections_chain p lines rest :
  forall b h lo,
    increasing lo ((b, h) :: rest) (length lines) ->
    chain (Z.of_nat b + 1) (heading_sections p lines ((b, h) :: rest))
          (Z.of_nat (length lines)).
Proof.
  induction rest as [|[b' h'] rest IH]; intros b h lo [Hb Hrest].
  - simpl. repeat split; lia.
  - specialize (IH b' h' (S b) Hrest).
    destruct Hrest as [Hb' _].
    change (heading_sections p lines ((b, h) :: (b', h') :: rest))
      with ({| path := p; heading := h;
               line_start := (Z.of_nat b + 1)%Z;
               line_end := (Z.of_nat b' - 1 + 1)%Z;
               text := strip (join nl
                         (slice b (Z.to_nat (Z.of_nat b' - 1 + 1)) lines));
               score := 0 |}
            :: heading_sections p lines ((b', h') :: rest)).
    cbn [chain line_start line_end].
    split; [reflexivity|]. split; [lia|].
    replace (Z.of_nat b' - 1 + 1 + 1)%Z with (Z.of_nat b' + 1)%Z by lia.
    exact IH.
Qed.

Lemma split_sections_chain p lines :
  lines <> [] ->
  chain 1 (_split_sections p lines) (Z.of_nat (length lines)).
Proof.
  intros Hne. destruct lines as [|l0 ls]; [contradiction|].
  unfold _split_sections.
  pose proof (boundaries_from_increasing (l0 :: ls) 0) as Hinc.
  destruct (boundaries_from 0 (l0 :: ls)) as [|[first h] rest] eqn:Hb.
  - simpl. repeat split; lia.
  - pose proof (heading_sections_chain p (l0 :: ls) rest first h 0 Hinc) as Hc.
    destruct (0 <? first)%nat eqn:Hpos.
    + apply Nat.ltb_lt in Hpos.
      cbn [app chain line_start line_end].
      split; [reflexivity|]. split; [lia|]. exact Hc.
    + apply Nat.ltb_ge in Hpos.
      replace first with 0%nat in * by lia. exact Hc.
Qed.

Lemma chain_head first secs last s0 :
  chain first secs last -> head secs = Some s0 -> line_start s0 = first.
Proof.
  destruct secs as [|s rest]; simpl; [discriminate|].
  intros (Hs & _) [= <-]. exact Hs.
Qed.

Lemma chain_adjacent secs :
  forall first last (i : nat) a b,
    chain first secs last ->
    secs !! i = Some a -> secs !! S i = Some b ->
    line_start b = (line_end a + 1)%Z.
Proof.
  induction secs as [|s rest IH]; intros first last i a b Hc Ha Hb.
  - discriminate.
  - destruct Hc as (_ & _ & Hrest). destruct i as [|i].
    + simpl in Ha, Hb. injection Ha as <-.
      destruct rest as [|s' rest']; [discriminate|].
      simpl in Hb. injection Hb as <-. apply Hrest.
    + simpl in Ha, Hb. eapply IH; eauto.
Qed.

Lemma chain_last secs :
  forall first last sl,
    chain first secs last -> list.last secs = Some sl -> line_end sl = last.
Proof.
  induction secs as [|s rest IH]; intros first last sl Hc Hl; [discriminate|].
  destruct Hc as (_ & _ & Hrest).
  destruct rest as [|s' rest'].
  - simpl in *. injection Hl as <-. lia.
  - change (list.last (s :: s' :: rest')) with (list.last (s' :: rest')) in Hl.
    eapply IH; eauto.
Qed.

Lemma chain_nonempty_ranges first secs last :
  chain first secs last ->
  forall s, In s secs -> (line_start s <= line_end s)%Z.
Proof.
  revert first. induction secs as [|s0 rest IH]; intros first Hc s Hin.
  - destruct Hin.
  - destruct Hc as (Hs & Hle & Hrest). destruct Hin as [<- | Hin].
    + lia.
    + eapply IH; eauto.
Qed.

End SplitSections.

Section SplitSectionsClaims.
Import Py Re VaultIndex Spec.

Lemma slice_app {A} (a b c : nat) (l : list A) :
  (a <= b)%nat -> (b <= c)%nat -> slice a b l ++ slice b c l = slice a c l.
Proof.
  intros Hab Hbc. unfold slice.
  replace (drop b l) with (drop (b - a) (drop a l))
    by (rewrite drop_drop; f_equal; lia).
  rewrite take_take_drop. f_equal. lia.
Qed.

Lemma slice_all {A} (l : list A) : slice 0 (length l) l = l.
Proof. unfold slice. rewrite drop_0, Nat.sub_0_r. apply firstn_all. Qed.

Lemma chain_slices lines secs :
  forall first last,
    chain first secs last -> (1 <= first)%Z ->
    concat (map (section_lines lines) secs)
    = slice (Z.to_nat (first - 1)) (Z.to_nat last) lines.
Proof.
  induction secs as [|s rest IH]; intros first last Hc Hpos.
  - simpl in Hc. subst first. simpl.
    replace (last + 1 - 1)%Z with last by lia.
    unfold slice. rewrite Nat.sub_diag. reflexivity.
  - destruct Hc as (Hs & Hle & Hrest).
    pose proof (chain_le _ _ _ Hrest) as Hend.
    cbn [map concat]. rewrite (IH _ _ Hrest) by lia.
    unfold section_lines at 1. rewrite Hs.
    replace (line_end s + 1 - 1)%Z with (line_end s) by lia.
    apply slice_app; lia.
Qed.

Lemma heading_sections_text p lines bs :
  Forall (fun s => text s = strip (join nl (section_lines lines s)))
         (heading_sections p lines bs).
Proof.
  induction bs as [|[b h] rest IH]; [constructor|].
  cbn [heading_sections]. constructor; [|exact IH].
  unfold section_lines. cbn [text line_start line_end].
  replace (Z.to_nat (Z.of_nat b + 1 - 1)) with b by lia.
  reflexivity.
Qed.

Lemma split_sections_text p lines :
  Forall (fun s => text s = strip (join nl (section_lines lines s)))
         (_split_sections p lines).
Proof.
  destruct lines as [|l0 ls]; [constructor|].
  unfold _split_sections.
  destruct (boundaries_from 0 (l0 :: ls)) as [|[first h] rest].
  - constructor; [|constructor].
    unfold section_lines. cbn [text line_start line_end].
    rewrite Nat2Z.id. change (Z.to_nat (1 - 1)) with 0%nat.
    rewrite slice_all. reflexivity.
  - apply Forall_app. split; [|apply heading_sections_text].
    destruct (0 <? first)%nat; [|constructor].
    constructor; [|constructor].
    unfold section_lines. cbn [text line_start line_end].
    rewrite Nat2Z.id. reflexivity.
Qed.

(** C1, as the specification words it, fails: the text of a section is
    stripped, so a blank line that closes a section is in no text.  For
    the three lines below the texts are the two heading lines, and the
    line between them is lost whether the texts are split into lines
    again, joined with line feeds, or concatenated. *)
Lemma split_sections_texts_lose_lines :
  let lines := ["# A"; " "; "# B"] in
  let secs := _split_sections "note.md" lines in
  (exists line, In line lines /\ is_heading_line line)
  /\ map text secs = ["# A"; "# B"]
  /\ flat_map splitlines (map text secs) <> lines
  /\ join nl (map text secs) <> join nl lines
  /\ String.concat "" (map text secs) <> String.concat "" lines.
Proof.
  cbv zeta. split.
  - exists "# A". split; [left; reflexivity|].
    unfold is_heading_line. vm_compute. discriminate.
  - repeat split; vm_compute; try reflexivity; discriminate.
Qed.

(** C1 (amended): for every document with at least one heading line, the
    line ranges of the sections of [_split_sections], taken in order,
    reproduce every line of the document exactly once, and the text of
    each section is its range of lines joined by line feeds and
    stripped. *)
Theorem split_sections_reproduce_lines (p : string) (lines : list string) :
  (exists line, In line lines /\ is_heading_line line) ->
  concat (map (section_lines lines) (_split_sections p lines)) = lines
  /\ Forall (fun s => text s = strip (join nl (section_lines lines s)))
            (_split_sections p lines).
Proof.
  intros [line [Hin _]]. split; [|apply split_sections_text].
  assert (Hne : lines <> []) by (intros ->; destruct Hin).
  rewrite (chain_slices lines _ 1 _ (split_sections_chain p lines Hne)) by lia.
  change (Z.to_nat (1 - 1)) with 0%nat. rewrite Nat2Z.id. apply slice_all.
Qed.

(** The amended C1 on a document of five lines with two headings. *)
Lemma split_sections_reproduce_lines_witness :
  let lines := ["intro"; "# A"; ""; "## B"; "body"] in
  (exists line, In line lines /\ is_heading_line line)
  /\ concat (map (section_lines lines) (_split_sections "note.md" lines)) = lines
  /\ Forall (fun s => text s = strip (join nl (section_lines lines s)))
            (_split_sections "note.md" lines).
Proof.
  cbv zeta.
  assert (H : exists line, In line ["intro"; "# A"; ""; "## B"; "body"]
                           /\ is_heading_line line).
  { exists "# A". split; [right; left; reflexivity|].
    unfold is_heading_line. vm_compute. discriminate. }
  split; [exact H|].
  exact (split_sections_reproduce_lines "note.md" _ H).
Defined.

(** C2: for every non-empty list of lines the sections of
    [_split_sections] have 1-based inclusive ranges that tile the
    document: the first starts at line 1, each later one starts right
    after the end of the one before it, the last ends at the number of
    lines, and no range is empty. *)
Theorem split_sections_ranges_tile (p : string) (lines : list string) :
  lines <> [] ->
  (exists s0, head (_split_sections p lines) = Some s0 /\ line_start s0 = 1%Z)
  /\ (forall (i : nat) a b,
        _split_sections p lines !! i = Some a ->
        _split_sections p lines !! S i = Some b ->
        line_start b = (line_end a + 1)%Z)
  /\ (exists sl, list.last (_split_sections p lines) = Some sl
                 /\ line_end sl = Z.of_nat (length lines))
  /\ (forall s, In s (_split_sections p lines) ->
                (line_start s <= line_end s)%Z).
Proof.
  intros Hne. pose proof (split_sections_chain p lines Hne) as Hc.
  assert (Hsec : _split_sections p lines <> []).
  { intros Hnil. rewrite Hnil in Hc. simpl in Hc.
    destruct lines; [contradiction|]. simpl in Hc. lia. }
  repeat split.
  - destruct (_split_sections p lines) as [|s0 rest] eqn:E; [contradiction|].
    exists s0. split; [reflexivity|]. eapply chain_head; eauto.
  - intros i a b Ha Hb. eapply chain_adjacent; eauto.
  - destruct (list.last (_split_sections p lines)) as [sl|] eqn:El.
    + exists sl. split; [reflexivity|]. eapply chain_last; eauto.
    + apply last_None in El. contradiction.
  - intros s Hs. eapply chain_nonempty_ranges; eauto.
Qed.

(** C2 on a document of five lines with two headings. *)
Lemma split_sections_ranges_tile_witness :
  let lines := ["intro"; "# A"; ""; "## B"; "body"] in
  let secs := _split_sections "note.md" lines in
  lines <> []
  /\ (exists s0, head secs = Some s0 /\ line_start s0 = 1%Z)
  /\ (forall (i : nat) a b,
        secs !! i = Some a -> secs !! S i = Some b ->
        line_start b = (line_end a + 1)%Z)
  /\ (exists sl, list.last secs = Some sl
                 /\ line_end sl = Z.of_nat (length lines))
  /\ (forall s, In s secs -> (line_start s <= line_end s)%Z).
Proof.
  cbv zeta.
  assert (H : ["intro"; "# A"; ""; "## B"; "body"] <> []) by discriminate.
  split; [exact H|].
  exact (split_sections_ranges_tile "note.md" _ H).
Defined.

(** C7: a document without heading lines that is not empty becomes
    exactly one section, headed (top), from line 1 to the number of
    lines and holding the whole file; an empty document becomes no
    section. *)
Theorem split_sections_without_headings (p : string) (lines : list string) :
  (forall line, In line lines -> heading_match line = None) ->
  _split_sections p lines
  = match lines with
    | [] => []
    | _ => [ {| path := p; heading := "(top)"; line_start := 1;
                line_end := Z.of_nat (length lines);
                text := strip (join nl lines); score := 0 |} ]
    end.
Proof.
  intros Hno. destruct lines as [|l0 ls]; [reflexivity|].
  unfold _split_sections.
  rewrite (boundaries_from_none _ Hno 0). reflexivity.
Qed.

(** C7 on a document of three lines, none of them a heading, and on
    the empty document. *)
Lemma split_sections_without_headings_witness :
  (forall line, In line ["intro"; " text"; "#nohead"] ->
                heading_match line = None)
  /\ _split_sections "note.md" ["intro"; " text"; "#nohead"]
     = [ {| path := "note.md"; heading := "(top)"; line_start := 1;
            line_end := 3;
            text := "intro" +:+ nl +:+ " text" +:+ nl +:+ "#nohead";
            score := 0 |} ]
  /\ _split_sections "note.md" [] = [].
Proof.
  assert (H : forall line, In line ["intro"; " text"; "#nohead"] ->
                           heading_match line = None).
  { intros line [<-|[<-|[<-|[]]]]; vm_compute; reflexivity. }
  split; [exact H|]. split.
  - exact (split_sections_without_headings "note.md" _ H).
  - apply (split_sections_without_headings "note.md" []). intros line [].
Defined.

End SplitSectionsClaims.

(* ===================================================================== *)
(** * Sorting and deduplication *)
(* ===================================================================== *)

Section Sorting.
Import Py Re App Spec.

Lemma truthy_true s : truthy s = true <-> s <> "".
Proof.
  unfold truthy. rewrite negb_true_iff. split.
  - intros H ->. rewrite String.eqb_refl in H. discriminate.
  - intros H. apply String.eqb_neq. exact H.
Qed.

Lemma truthy_false s : truthy s = false <-> s = "".
Proof.
  unfold truthy. rewrite negb_false_iff. apply String.eqb_eq.
Qed.

(** ** Descending sort on a numeric key *)

Context {A : Type} (key : A -> Z).

Lemma insert_desc_perm x l : Permutation (insert_desc key x l) (x :: l).
Proof.
  induction l as [|y l IH]; simpl; [reflexivity|].
  destruct (key x <? key y)%Z; [|reflexivity].
  rewrite IH. apply perm_swap.
Qed.

Lemma sort_desc_perm l : Permutation (sort_desc key l) l.
Proof.
  induction l as [|x l IH]; simpl; [reflexivity|].
  unfold sort_desc in *. simpl. rewrite insert_desc_perm. rewrite IH. reflexivity.
Qed.

Lemma insert_desc_sorted x l :
  StronglySorted (desc key) l -> StronglySorted (desc key) (insert_desc key x l).
Proof.
  induction l as [|y l IH]; intros Hs; simpl.
  - repeat constructor.
  - apply StronglySorted_inv in Hs as [Hl Hy].
    destruct (key x <? key y)%Z eqn:E.
    + apply Z.ltb_lt in E. constructor; [apply IH; exact Hl|].
      rewrite (insert_desc_perm x l). constructor; [unfold desc; lia | exact Hy].
    + apply Z.ltb_ge in E. constructor; [constructor; assumption|].
      constructor; [exact E|].
      eapply Forall_impl; [exact Hy|]. unfold desc. intros; lia.
Qed.

Lemma sort_desc_sorted l : StronglySorted (desc key) (sort_desc key l).
Proof.
  induction l as [|x l IH]; [constructor|].
  unfold sort_desc in *. simpl. apply insert_desc_sorted. exact IH.
Qed.

End Sorting.

Section ItemOrder.
Import Py Re App Spec.

Lemma ltb_trans a b c :
  String.ltb a b = true -> String.ltb b c = true -> String.ltb a c = true.
Proof.
  unfold String.ltb. intros H1 H2.
  destruct (String.compare a b) eqn:E1; try discriminate.
  destruct (String.compare b c) eqn:E2; try discriminate.
  apply String_as_OT.cmp_lt in E1, E2.
  pose proof (String_as_OT.lt_trans _ _ _ E1 E2) as H.
  apply String_as_OT.cmp_lt in H. unfold String_as_OT.cmp in H.
  rewrite H. reflexivity.
Qed.

Lemma ltb_irrefl a : String.ltb a a = false.
Proof.
  unfold String.ltb. destruct (String.compare a a) eqn:E; try reflexivity.
  pose proof (String.compare_antisym a a) as H. rewrite E in H. discriminate.
Qed.

Lemma ltb_connex a b :
  String.ltb a b = false -> a <> b -> String.ltb b a = true.
Proof.
  unfold String.ltb. intros H Hne.
  rewrite (String.compare_antisym b a).
  destruct (String.compare a b) eqn:E; try discriminate.
  - apply String.compare_eq_iff in E. contradiction.
  - reflexivity.
Qed.

Lemma sort_key_lt_le y x : sort_key_lt y x = true -> key_le y x.
Proof.
  unfold sort_key_lt, key_le.
  destruct (String.eqb (i_path y) (i_path x)) eqn:E.
  - apply String.eqb_eq in E. intros H. apply Z.ltb_lt in H. right. split; [exact E | lia].
  - intros H. left. exact H.
Qed.

Lemma sort_key_ge_le y x : sort_key_lt y x = false -> key_le x y.
Proof.
  unfold sort_key_lt, key_le.
  destruct (String.eqb (i_path y) (i_path x)) eqn:E.
  - apply String.eqb_eq in E. intros H. apply Z.ltb_ge in H. right. split; [symmetry; exact E | lia].
  - apply String.eqb_neq in E. intros H. left. apply ltb_connex; [exact H | exact E].
Qed.

Lemma key_le_trans a b c : key_le a b -> key_le b c -> key_le a c.
Proof.
  unfold key_le. intros [H1 | [E1 L1]] [H2 | [E2 L2]].
  - left. eapply ltb_trans; eauto.
  - left. rewrite <- E2. exact H1.
  - left. rewrite E1. exact H2.
  - right. split; [congruence | lia].
Qed.

Lemma insert_item_perm x l : Permutation (insert_item x l) (x :: l).
Proof.
  induction l as [|y l IH]; simpl; [reflexivity|].
  destruct (sort_key_lt y x); [|reflexivity].
  rewrite IH. apply perm_swap.
Qed.

Lemma sort_items_perm l : Permutation (sort_items l) l.
Proof.
  induction l as [|x l IH]; simpl; [reflexivity|].
  unfold sort_items in *. simpl. rewrite insert_item_perm. rewrite IH. reflexivity.
Qed.

Lemma insert_item_sorted x l :
  StronglySorted key_le l -> StronglySorted key_le (insert_item x l).
Proof.
  induction l as [|y l IH]; intros Hs; simpl.
  - repeat constructor.
  - apply StronglySorted_inv in Hs as [Hl Hy].
    destruct (sort_key_lt y x) eqn:E.
    + constructor; [apply IH; exact Hl|].
      rewrite (insert_item_perm x l).
      constructor; [apply sort_key_lt_le; exact E | exact Hy].
    + apply sort_key_ge_le in E.
      constructor; [constructor; assumption|].
      constructor; [exact E|].
      eapply Forall_impl; [exact Hy|]. intros z Hz. eapply key_le_trans; eauto.
Qed.

Lemma sort_items_sorted l : StronglySorted key_le (sort_items l).
Proof.
  induction l as [|x l IH]; [constructor|].
  unfold sort_items in *. simpl. apply insert_item_sorted. exact IH.
Qed.

Lemma strongly_sorted_lookup {B} (R : B -> B -> Prop) (l : list B) :
  StronglySorted R l ->
  forall (i j : nat) a b,
    (i < j)%nat -> l !! i = Some a -> l !! j = Some b -> R a b.
Proof.
  induction 1 as [|x l Hs IH Hx]; intros i j a b Hij Ha Hb; [discriminate|].
  destruct j as [|j]; [lia|]. simpl in Hb.
  destruct i as [|i].
  - simpl in Ha. injection Ha as <-.
    rewrite Forall_forall in Hx. apply Hx.
    eapply list_elem_of_lookup_2. exact Hb.
  - simpl in Ha. eapply (IH i j); eauto. lia.
Qed.

Lemma dedupe_spec items :
  forall seen,
    NoDup (map item_key (dedupe seen items))
    /\ (forall x, In x (dedupe seen items) ->
                  (item_key x ∉ seen) /\ In x items).
Proof.
  induction items as [|item rest IH]; intros seen; simpl.
  - split; [constructor|]. intros x [].
  - destruct (decide (item_key item ∈ seen)) as [Hin | Hout].
    + destruct (IH seen) as [Hnd Hsub]. split; [exact Hnd|].
      intros x Hx. destruct (Hsub x Hx). split; [assumption | right; assumption].
    + destruct (IH ({[ item_key item ]} ∪ seen)) as [Hnd Hsub]. split.
      * simpl. constructor; [|exact Hnd].
        intros Hk. apply list_elem_of_In in Hk.
        apply in_map_iff in Hk as (y & Hy & Hyin).
        destruct (Hsub y Hyin) as [Hfresh _]. apply Hfresh.
        rewrite Hy. apply elem_of_union. left. apply elem_of_singleton. reflexivity.
      * intros x [<- | Hx]; [split; [exact Hout | left; reflexivity]|].
        destruct (Hsub x Hx) as [Hfresh Hin]. split; [|right; exact Hin].
        intros Hc. apply Hfresh. apply elem_of_union. right. exact Hc.
Qed.

(** Deduplication keeps, for every item, an item with the same key. *)
Lemma dedupe_keeps_key items :
  forall seen x,
    In x items ->
    item_key x ∈ seen
    \/ exists y, In y (dedupe seen items) /\ item_key y = item_key x.
Proof.
  induction items as [|item rest IH]; intros seen x Hin; [destruct Hin|].
  simpl. destruct (decide (item_key item ∈ seen)) as [Hs | Hs].
  - destruct Hin as [<- | Hin]; [left; exact Hs|]. apply IH; exact Hin.
  - destruct Hin as [<- | Hin].
    + right. exists item. split; [left; reflexivity | reflexivity].
    + destruct (IH ({[ item_key item ]} ∪ seen) x Hin) as [Hk | (y & Hy & Hk)].
      * apply elem_of_union in Hk as [Hk | Hk].
        -- apply elem_of_singleton in Hk. right. exists item.
           split; [left; reflexivity | symmetry; exact Hk].
        -- left. exact Hk.
      * right. exists y. split; [right; exact Hy | exact Hk].
Qed.

End ItemOrder.

(* ===================================================================== *)
(** * Properties of the price extractor *)
(* ===================================================================== *)

Section PriceItems.
Import Py Re App Spec.

Lemma line_items_ok section lines idx line :
  forall item,
    In item (line_items section lines idx line) ->
    i_name item <> "" /\ i_price item <> "" /\ recognized (i_price item).
Proof.
  intros item. unfold line_items.
  destruct (_parse_table_row line) as [[|c cs]|] eqn:Hrow.
  2: {
    destruct (find_price_cell (c :: cs)) as [price_cell|]; [|intros []].
    destruct (truthy price_cell); [|intros []].
    destruct (_extract_price_from_line price_cell) as [pr|] eqn:Hpr; [|intros []].
    set (name := if truthy (table_name price_cell (c :: cs))
                 then table_name price_cell (c :: cs)
                 else _collect_label lines idx 4).
    destruct (truthy name && truthy pr) eqn:Hboth; [|intros []].
    apply andb_true_iff in Hboth as [Hn Hp].
    intros [<- | []]. cbn [make_item i_name i_price].
    split; [apply truthy_true; exact Hn|].
    split; [apply truthy_true; exact Hp|].
    exists price_cell. exact Hpr. }
  all: destruct (_extract_price_from_line line) as [price|] eqn:Hpr; [|intros []].
  all: destruct (truthy price) eqn:Hp; [|intros []]; cbn [negb].
  all: set (name := if truthy (_name_from_line line (Some price))
                    then _name_from_line line (Some price)
                    else _collect_label lines idx 4).
  all: destruct (truthy name) eqn:Hn; [|intros []].
  all: intros [<- | []]; cbn [make_item i_name i_price].
  all: split; [|split; [apply truthy_true; exact Hp | exists line; exact Hpr]].
  all: destruct (startswith_any (lower name) CONTINUATION_PREFIXES);
    [|apply truthy_true; exact Hn].
  all: destruct (truthy (_collect_label lines idx 4)
                 && negb (String.eqb (_collect_label lines idx 4) name)) eqn:He;
    [|apply truthy_true; exact Hn].
  all: apply andb_true_iff in He as [He _]; apply truthy_true; exact He.
Qed.

Lemma section_items_ok section :
  forall item,
    In item (section_items section) ->
    i_name item <> "" /\ i_price item <> "" /\ recognized (i_price item).
Proof.
  intros item Hin. unfold section_items in Hin.
  apply in_flat_map in Hin as ([idx line] & _ & Hin).
  eapply line_items_ok. exact Hin.
Qed.

(** C5: every item [extract_price_items] returns has a name that is not
    empty and a recognized price that is not empty; no two returned
    items have the same key (path, heading, name, price, line_start);
    and the items are in ascending order of (path, line_start). *)
Theorem extract_price_items_invariants (sections : list Section) :
  (forall item, In item (extract_price_items sections) ->
     i_name item <> "" /\ i_price item <> "" /\ recognized (i_price item))
  /\ NoDup (map item_key (extract_price_items sections))
  /\ (forall (i j : nat) a b,
        (i < j)%nat ->
        extract_price_items sections !! i = Some a ->
        extract_price_items sections !! j = Some b ->
        key_le a b).
Proof.
  unfold extract_price_items. split; [|split].
  - intros item Hin.
    apply (Permutation_in _ (sort_items_perm _)) in Hin.
    apply dedupe_spec in Hin as [_ Hin].
    apply in_flat_map in Hin as (section & _ & Hin).
    apply section_items_ok in Hin. exact Hin.
  - rewrite sort_items_perm. apply dedupe_spec.
  - apply strongly_sorted_lookup. apply sort_items_sorted.
Qed.

(** Two sections given out of path order, a table row that occurs twice
    under one key, and a plain price line: the result is deduplicated and
    ordered by path and line. *)
Example extract_price_items_example :
  extract_price_items
    [ {| path := "b.md"; heading := "Priser"; line_start := 5; line_end := 6;
         text := "Stor pakke: 1.200,50 DKK / md" +:+ nl +:+ "uden pris";
         score := 0 |};
      {| path := "a.md"; heading := "Pricing"; line_start := 1; line_end := 3;
         text := basis_row +:+ nl +:+ basis_row +:+ nl +:+ "| Navn | Pris |";
         score := 0 |} ]
  = [ {| i_name := "Basis"; i_price := "499 kr."; i_path := "a.md";
         i_heading := "Pricing"; i_line_start := 1; i_line_end := 1 |};
      {| i_name := "Stor pakke"; i_price := "1.200,50 DKK / md";
         i_path := "b.md"; i_heading := "Priser"; i_line_start := 5;
         i_line_end := 5 |} ].
Proof. vm_compute. reflexivity. Qed.

Lemma basis_row_line_items section lines idx :
  line_items section lines idx basis_row
  = [make_item section idx "Basis" "499 kr."].
Proof.
  unfold line_items.
  assert (E1 : _parse_table_row basis_row = Some ["Basis"; "499 kr."])
    by (vm_compute; reflexivity).
  rewrite E1. cbv beta iota zeta.
  assert (E2 : find_price_cell ["Basis"; "499 kr."] = Some "499 kr.")
    by (vm_compute; reflexivity).
  rewrite E2. cbv beta iota zeta.
  assert (E3 : _extract_price_from_line "499 kr." = Some "499 kr.")
    by (vm_compute; reflexivity).
  assert (E4 : table_name "499 kr." ["Basis"; "499 kr."] = "Basis")
    by (vm_compute; reflexivity).
  rewrite E3, E4. reflexivity.
Qed.

Lemma enumerate_from_middle {B} (pre post : list B) (x : B) :
  forall i, In ((i + length pre)%nat, x) (enumerate_from i (pre ++ x :: post)).
Proof.
  induction pre as [|y pre IH]; intros i; simpl.
  - left. f_equal. lia.
  - right. replace (i + S (length pre))%nat with (S i + length pre)%nat by lia.
    apply IH.
Qed.

(** C9: in a section headed Pricing, the table row [| Basis | 499 kr. |]
    makes [extract_price_items] collect exactly one item, named Basis
    with the price 499 kr.; the result holds an item with that name,
    price and position, and it is the whole result when the row is the
    whole text of the section. *)
Theorem basis_row_yields_one_item (section : Section) (pre post : list string) :
  heading section = "Pricing" ->
  splitlines (text section) = pre ++ basis_row :: post ->
  let idx := length pre in
  let item :=
    {| i_name := "Basis"; i_price := "499 kr.";
       i_path := path section; i_heading := "Pricing";
       i_line_start := (line_start section + Z.max (Z.of_nat idx - 1) 0)%Z;
       i_line_end := (line_start section + Z.of_nat idx)%Z |} in
  line_items section (splitlines (text section)) idx basis_row = [item]
  /\ (exists found,
        In found (extract_price_items [section])
        /\ item_key found = item_key item)
  /\ (pre = [] -> post = [] -> extract_price_items [section] = [item]).
Proof.
  intros Hh Hlines idx item.
  assert (Hitem : make_item section idx "Basis" "499 kr." = item).
  { unfold make_item, item. rewrite Hh. reflexivity. }
  split; [|split].
  - rewrite basis_row_line_items. rewrite Hitem. reflexivity.
  - assert (Hin : In item (flat_map section_items [section])).
    { simpl. rewrite app_nil_r. unfold section_items.
      apply in_flat_map. exists (idx, basis_row). split.
      - rewrite Hlines. apply (enumerate_from_middle pre post basis_row 0).
      - rewrite basis_row_line_items, Hitem. left. reflexivity. }
    destruct (dedupe_keeps_key _ ∅ item Hin) as [Hk | (y & Hy & Hk)].
    + apply elem_of_empty in Hk. destruct Hk.
    + exists y. split; [|exact Hk].
      unfold extract_price_items.
      eapply Permutation_in; [symmetry; apply sort_items_perm | exact Hy].
  - intros -> ->. unfold extract_price_items.
    cbn [flat_map]. rewrite app_nil_r. unfold section_items.
    rewrite Hlines. cbn [app enumerate_from flat_map].
    rewrite basis_row_line_items.
    replace (make_item section 0 "Basis" "499 kr.") with item
      by (symmetry; exact Hitem).
    cbn [app dedupe].
    destruct (decide (item_key item ∈ ∅)) as [Hk | _].
    + apply elem_of_empty in Hk. destruct Hk.
    + reflexivity.
Qed.

(** C9 on a section of three lines whose second line is the row. *)
Lemma basis_row_yields_one_item_witness :
  let section :=
    {| path := "prices.md"; heading := "Pricing"; line_start := 7;
       line_end := 9;
       text := "## Pricing" +:+ nl +:+ basis_row +:+ nl +:+ "| Plus | 899 kr. |";
       score := 0 |} in
  let item :=
    {| i_name := "Basis"; i_price := "499 kr.";
       i_path := "prices.md"; i_heading := "Pricing";
       i_line_start := 7; i_line_end := 8 |} in
  splitlines (text section) = ["## Pricing"] ++ basis_row :: ["| Plus | 899 kr. |"]
  /\ line_items section (splitlines (text section)) 1 basis_row = [item]
  /\ (exists found,
        In found (extract_price_items [section])
        /\ item_key found = item_key item).
Proof.
  cbv zeta.
  set (section := {| path := "prices.md"; heading := "Pricing"; line_start := 7;
       line_end := 9;
       text := "## Pricing" +:+ nl +:+ basis_row +:+ nl +:+ "| Plus | 899 kr. |";
       score := 0 |}).
  assert (H : splitlines (text section)
              = ["## Pricing"] ++ basis_row :: ["| Plus | 899 kr. |"])
    by (vm_compute; reflexivity).
  split; [exact H|].
  destruct (basis_row_yields_one_item section _ _ eq_refl H) as (H1 & H2 & _).
  split; [exact H1 | exact H2].
Defined.

End PriceItems.

(* ===================================================================== *)
(** * Aliases *)
(* ===================================================================== *)

Section Aliases.
Import Py Re VaultIndex Spec.

Lemma detect_title_loop_none lines :
  (forall line, In line lines -> heading_match line = None) ->
  _detect_title_loop lines = None.
Proof.
  induction lines as [|line rest IH]; intros Hno; simpl; [reflexivity|].
  rewrite (Hno line (or_introl eq_refl)).
  apply IH. intros l Hl. apply Hno. right. exact Hl.
Qed.

(** C8: for the file name GS1_Denmark-Overview.md and a body without a
    heading, the aliases are the lowercased title and file name
    variants, their lowercased splits at case and digit boundaries, and
    the prefixes of two and three tokens of each, where a leading token
    pair gs, 1 counts as the one token gs1; gs1 denmark is among
    them. *)
Theorem build_aliases_gs1_denmark (lines : list string) :
  (forall line, In line lines -> heading_match line = None) ->
  let filename := "GS1_Denmark-Overview.md" in
  _detect_title lines filename = "GS1 Denmark Overview"
  /\ _build_aliases (_detect_title lines filename) filename
     = [ "denmark overview";
         "gs 1 denmark overview"; "gs 1 denmark-overview";
         "gs 1_denmark"; "gs 1_denmark overview"; "gs 1_denmark-overview";
         "gs1 denmark"; "gs1 denmark overview"; "gs1 denmark-overview";
         "gs1_denmark overview"; "gs1_denmark-overview";
         "overview" ]
  /\ In "gs1 denmark" (_build_aliases (_detect_title lines filename) filename).
Proof.
  intros Hno filename.
  assert (Ht : _detect_title lines filename = "GS1 Denmark Overview").
  { unfold _detect_title. rewrite (detect_title_loop_none lines Hno).
    vm_compute. reflexivity. }
  rewrite Ht. split; [reflexivity|].
  assert (Ha : _build_aliases "GS1 Denmark Overview" filename
               = [ "denmark overview";
                   "gs 1 denmark overview"; "gs 1 denmark-overview";
                   "gs 1_denmark"; "gs 1_denmark overview";
                   "gs 1_denmark-overview";
                   "gs1 denmark"; "gs1 denmark overview";
                   "gs1 denmark-overview";
                   "gs1_denmark overview"; "gs1_denmark-overview";
                   "overview" ])
    by (vm_compute; reflexivity).
  rewrite Ha. split; [reflexivity|].
  do 6 right. left. reflexivity.
Qed.

(** C8 on a body of three lines without a heading. *)
Lemma build_aliases_gs1_denmark_witness :
  let lines := ["GS1 Denmark is the Danish member organisation."; "";
                "#hashtag without a space"] in
  (forall line, In line lines -> heading_match line = None)
  /\ In "gs1 denmark"
        (_build_aliases (_detect_title lines "GS1_Denmark-Overview.md")
                        "GS1_Denmark-Overview.md").
Proof.
  cbv zeta.
  assert (H : forall line,
             In line ["GS1 Denmark is the Danish member organisation."; "";
                      "#hashtag without a space"] ->
             heading_match line = None).
  { intros line [<-|[<-|[<-|[]]]]; vm_compute; reflexivity. }
  split; [exact H|].
  exact (proj2 (proj2 (build_aliases_gs1_denmark _ H))).
Defined.

End Aliases.

(* ===================================================================== *)
(** * Source enforcement *)
(* ===================================================================== *)

Section Sources.
Import Py Re App Spec.

(** C6, as the specification words it, fails on a response whose
    Sources block is unusable: the returned text is not the response
    with something appended, because the response is first cut before
    its Sources marker.  It also fails without snippets: the response
    comes back as it was, with no block appended. *)
Lemma ensure_sources_cuts_response :
  let response := "Answer" +:+ nl +:+ "Sources:" +:+ nl +:+ "none" in
  let snippet := {| s_path := "a.md"; s_heading := "Pricing";
                    s_line_start := 3; s_line_end := 9;
                    s_excerpt := "text"; s_score := 0 |} in
  parse_sources response = []
  /\ ensure_sources response [snippet]
     = ("Answer" +:+ nl +:+ nl +:+ "Sources:" +:+ nl
        +:+ "- a.md#Pricing (lines 3-9)",
        ["a.md#Pricing (lines 3-9)"])
  /\ (forall block, fst (ensure_sources response [snippet]) <> response +:+ block)
  /\ parse_sources "Answer" = []
  /\ ensure_sources "Answer" [] = ("Answer", []).
Proof.
  cbv zeta. split; [vm_compute; reflexivity|].
  split; [vm_compute; reflexivity|].
  split; [|split; vm_compute; reflexivity].
  intros block H. vm_compute in H. discriminate H.
Qed.

(** C6 (amended): when no source can be parsed from the response, the
    citations are one text path#heading (lines a-b) for each of the
    first min(3, length) snippets, in their order.  With at least one
    snippet, [ensure_sources] returns them together with the base text,
    right-stripped, followed by an empty line, the Sources marker and
    one line per citation, where the base text is the response, cut
    before its first Sources marker if it has one; so a response
    without the marker and without trailing whitespace is returned
    extended by the block.  With no snippet it returns the response
    unchanged and no citation. *)
Theorem ensure_sources_synthesizes (response : string) (snippets : list Snippet) :
  parse_sources response = [] ->
  let base :=
    if contains "Sources:" response
    then rstrip (hd "" (split response "Sources:"))
    else response in
  let cites :=
    map (fun s => s_path s +:+ "#" +:+ s_heading s +:+ " (lines "
                  +:+ str_of_int (s_line_start s) +:+ "-"
                  +:+ str_of_int (s_line_end s) +:+ ")")
        (take 3 snippets) in
  let block :=
    nl +:+ nl +:+ "Sources:" +:+ nl
    +:+ join nl (map (fun c => "- " +:+ c) cites) in
  length cites = Nat.min 3 (length snippets)
  /\ (snippets <> [] ->
      ensure_sources response snippets = (rstrip base +:+ block, cites))
  /\ (snippets <> [] ->
      contains "Sources:" response = false -> rstrip response = response ->
      ensure_sources response snippets = (response +:+ block, cites))
  /\ (snippets = [] -> ensure_sources response snippets = (response, [])).
Proof.
  intros Hparse base cites block.
  assert (Hmain : snippets <> [] ->
            ensure_sources response snippets = (rstrip base +:+ block, cites)).
  { intros Hne. unfold ensure_sources. rewrite Hparse.
    destruct snippets as [|s rest]; [contradiction|]. reflexivity. }
  split; [|split; [|split]].
  - unfold cites. rewrite length_map, length_take. reflexivity.
  - exact Hmain.
  - intros Hne Hno Hstrip. rewrite (Hmain Hne).
    unfold base. rewrite Hno, Hstrip. reflexivity.
  - intros ->. unfold ensure_sources. rewrite Hparse. reflexivity.
Qed.

(** The amended C6 on a response without a Sources block and four
    snippets: the first three are cited. *)
Lemma ensure_sources_synthesizes_witness :
  let response := "Basis costs 499 kr." in
  let snippets :=
    map (fun n => {| s_path := "prices.md"; s_heading := "Pricing";
                     s_line_start := n; s_line_end := (n + 2)%Z;
                     s_excerpt := "row"; s_score := 999 |})
        [1%Z; 10%Z; 20%Z; 30%Z] in
  parse_sources response = []
  /\ ensure_sources response snippets
     = ("Basis costs 499 kr." +:+ nl +:+ nl +:+ "Sources:" +:+ nl
        +:+ "- prices.md#Pricing (lines 1-3)" +:+ nl
        +:+ "- prices.md#Pricing (lines 10-12)" +:+ nl
        +:+ "- prices.md#Pricing (lines 20-22)",
        ["prices.md#Pricing (lines 1-3)"; "prices.md#Pricing (lines 10-12)";
         "prices.md#Pricing (lines 20-22)"]).
Proof.
  cbv zeta.
  assert (H : parse_sources "Basis costs 499 kr." = []) by (vm_compute; reflexivity).
  split; [exact H|].
  destruct (ensure_sources_synthesizes "Basis costs 499 kr."
              (map (fun n => {| s_path := "prices.md"; s_heading := "Pricing";
                                s_line_start := n; s_line_end := (n + 2)%Z;
                                s_excerpt := "row"; s_score := 999 |})
                   [1%Z; 10%Z; 20%Z; 30%Z]) H) as (_ & H2 & _).
  rewrite H2 by discriminate. vm_compute. reflexivity.
Defined.

End Sources.

(* ===================================================================== *)
(** * The matcher *)
(* ===================================================================== *)

Section Matcher.
Import Py Re Spec.

Lemma chars_str l : chars (str l) = l.
Proof. apply list_ascii_of_string_of_list_ascii. Qed.

Lemma str_chars s : str (chars s) = s.
Proof. apply string_of_list_ascii_of_string. Qed.

Lemma chars_app a b : chars (a +:+ b) = chars a ++ chars b.
Proof.
  induction a as [|c a IH]; simpl; [reflexivity|].
  unfold chars in *. simpl. rewrite IH. reflexivity.
Qed.

Lemma chars_inj a b : chars a = chars b -> a = b.
Proof. intros H. rewrite <- (str_chars a), <- (str_chars b), H. reflexivity. Qed.

Lemma reaches_refl st : reaches st st.
Proof. exists []. repeat split; simpl; lia. Qed.

Lemma reaches_trans a b c : reaches a b -> reaches b c -> reaches a c.
Proof.
  intros (u & Hu & Pu & Lu) (v & Hv & Pv & Lv). exists (u ++ v). repeat split.
  - rewrite Hu, Hv. apply app_assoc.
  - rewrite Pv, Pu, length_app. lia.
  - rewrite Lv, Lu. unfold last_prev. rewrite fold_left_app. reflexivity.
Qed.

Lemma step_reaches ok st k m :
  step ok st k = Some m ->
  exists c st', m_rest st = c :: m_rest st' /\ ok c = true
                /\ m_pos st' = S (m_pos st) /\ m_prev st' = Some c
                /\ k st' = Some m.
Proof.
  unfold step. destruct (m_rest st) as [|c s'] eqn:E; [discriminate|].
  destruct (ok c) eqn:Hok; [|discriminate].
  intros Hk. eexists c, _. repeat split; [|exact Hok| | |exact Hk]; reflexivity.
Qed.

Lemma step_reaches_one ok st k m :
  step ok st k = Some m ->
  exists st', reaches st st' /\ k st' = Some m.
Proof.
  intros H. apply step_reaches in H as (x & st' & Hr & _ & Hp & Hl & Hk).
  exists st'. split; [|exact Hk]. exists [x]. repeat split.
  - exact Hr.
  - simpl. lia.
  - exact Hl.
Qed.

Lemma rep_reaches p k m s :
  forall lo hi pos prev caps,
    rep p lo hi pos prev s caps k = Some m ->
    exists st',
      reaches {| m_pos := pos; m_prev := prev; m_rest := s; m_caps := caps |} st'
      /\ (pos + lo <= m_pos st')%nat /\ k st' = Some m.
Proof.
  induction s as [|c s' IH]; intros lo hi pos prev caps H.
  - simpl in H. destruct lo; [|discriminate].
    eexists. split; [apply reaches_refl|]. split; [simpl; lia | exact H].
  - simpl in H.
    assert (Hstop : match lo with
                    | O => k {| m_pos := pos; m_prev := prev; m_rest := c :: s';
                                m_caps := caps |}
                    | S _ => None
                    end = Some m ->
                    exists st',
                      reaches {| m_pos := pos; m_prev := prev;
                                 m_rest := c :: s'; m_caps := caps |} st'
                      /\ (pos + lo <= m_pos st')%nat /\ k st' = Some m).
    { destruct lo; [|discriminate]. intros Hk.
      eexists. split; [apply reaches_refl|]. split; [simpl; lia | exact Hk]. }
    destruct (p c && more_allowed hi); [|exact (Hstop H)].
    destruct (rep p (lo - 1) (one_less hi) (S pos) (Some c) s' caps k) as [m'|] eqn:E;
      [|exact (Hstop H)].
    injection H as ->.
    destruct (IH _ _ _ _ _ E) as (st' & (u & Hu & Pu & Lu) & Hlo & Hk).
    exists st'. split; [|split; [|exact Hk]].
    + exists (c :: u). simpl in *. repeat split;
        [rewrite Hu; reflexivity | lia | exact Lu].
    + lia.
Qed.

Lemma run_reaches ic r :
  forall st k m,
    run ic r st k = Some m ->
    exists st', reaches st st' /\ k st' = Some m.
Proof.
  induction r as [|c|p|r1 IH1 r2 IH2|r1 IH1 r2 IH2|p lo hi|r1 IH1|n r1 IH1| |];
    intros st k m H; simpl in H.
  - exists st. split; [apply reaches_refl | exact H].
  - apply step_reaches_one in H. exact H.
  - apply step_reaches_one in H. exact H.
  - apply IH1 in H as (st1 & R1 & H). apply IH2 in H as (st2 & R2 & H).
    exists st2. split; [eapply reaches_trans; eauto | exact H].
  - destruct (run ic r1 st k) as [m'|] eqn:E.
    + injection H as ->. apply IH1 in E. exact E.
    + apply IH2 in H. exact H.
  - destruct st as [pos prev s caps]. simpl in H.
    apply rep_reaches in H as (st' & R & _ & Hk). eauto.
  - destruct (run ic r1 st k) as [m'|] eqn:E.
    + injection H as ->. apply IH1 in E. exact E.
    + exists st. split; [apply reaches_refl | exact H].
  - apply IH1 in H as (st1 & (u & Hu & Pu & Lu) & H).
    exists (close_group n (m_pos st) st1). split; [|exact H].
    exists u. repeat split; [exact Hu | exact Pu | exact Lu].
  - destruct (m_pos st =? 0)%nat; [|discriminate].
    exists st. split; [apply reaches_refl | exact H].
  - destruct (at_word_boundary st); [|discriminate].
    exists st. split; [apply reaches_refl | exact H].
Qed.

(** A match ends at or after its start, within the subject. *)
Lemma match_at_bounds ic r st m :
  match_at ic r st = Some m ->
  m_start m = m_pos st
  /\ (m_pos st <= m_end m <= m_pos st + length (m_rest st))%nat.
Proof.
  unfold match_at. destruct (run ic r st Some) as [fin|] eqn:E; [|discriminate].
  intros [= <-]. simpl. split; [reflexivity|].
  apply run_reaches in E as (st' & (u & Hu & Pu & _) & [= ->]).
  rewrite Hu, length_app. lia.
Qed.

(** Every match [scan] lists was found by [match_at] at some offset of
    the subject. *)
Lemma scan_matches ic r s :
  forall skip pos prev m,
    In m (scan ic r skip pos prev s) ->
    exists pre s' prev',
      s = pre ++ s'
      /\ match_at ic r {| m_pos := pos + length pre; m_prev := prev';
                          m_rest := s'; m_caps := [] |} = Some m.
Proof.
  induction s as [|c s IH]; intros skip pos prev m Hin.
  - simpl in Hin. destruct skip; [|destruct Hin].
    destruct (match_at ic r _) as [m'|] eqn:E; [|destruct Hin].
    destruct Hin as [<- | []].
    exists [], [], prev. split; [reflexivity|].
    simpl. rewrite Nat.add_0_r. exact E.
  - assert (Hrest : forall skip', In m (scan ic r skip' (S pos) (Some c) s) ->
              exists pre s' prev',
                c :: s = pre ++ s'
                /\ match_at ic r {| m_pos := pos + length pre; m_prev := prev';
                                    m_rest := s'; m_caps := [] |} = Some m).
    { intros skip' H. apply IH in H as (pre & s' & prev' & -> & H).
      exists (c :: pre), s', prev'. split; [reflexivity|].
      simpl. rewrite <- Nat.add_succ_comm. exact H. }
    simpl in Hin. destruct skip as [|j]; [|eapply Hrest; exact Hin].
    destruct (match_at ic r _) as [m'|] eqn:E; [|eapply Hrest; exact Hin].
    destruct Hin as [<- | Hin]; [|eapply Hrest; exact Hin].
    exists [], (c :: s), prev. split; [reflexivity|].
    simpl. rewrite Nat.add_0_r. exact E.
Qed.

Lemma head_In {B} (l : list B) (x : B) : head l = Some x -> In x l.
Proof. destruct l; [discriminate|]. intros [= ->]. left. reflexivity. Qed.

End Matcher.

(* ===================================================================== *)
(** * Stripping and splitting *)
(* ===================================================================== *)

Section Strip.
Import Py Re App Spec.

Variable p : ascii -> bool.

Lemma lstrip_starts_clean s : starts_clean p s -> lstrip_with p s = s.
Proof. intros (c & t & -> & Hc). simpl. rewrite Hc. reflexivity. Qed.

Lemma rstrip_ends_clean s : ends_clean p s -> rstrip_with p s = s.
Proof.
  intros (u & c & -> & Hc). unfold rstrip_with.
  rewrite rev_app_distr. simpl. rewrite Hc. simpl.
  rewrite rev_involutive. reflexivity.
Qed.

Lemma strip_clean s : starts_clean p s -> ends_clean p s -> strip_with p s = s.
Proof.
  intros Hs He. unfold strip_with.
  rewrite (lstrip_starts_clean s Hs). apply rstrip_ends_clean. exact He.
Qed.

Lemma starts_clean_app a b : starts_clean p a -> starts_clean p (a ++ b).
Proof. intros (c & t & -> & Hc). exists c, (t ++ b). auto. Qed.

Lemma ends_clean_app a b : ends_clean p b -> ends_clean p (a ++ b).
Proof.
  intros (u & c & -> & Hc). exists (a ++ u), c. rewrite app_assoc. auto.
Qed.

End Strip.

Section Words.
Import Py Re App Spec.

Lemma split_ws_l_words s :
  forall cur w,
    no_space cur ->
    In w (split_ws_l cur s) -> w <> [] /\ no_space w.
Proof.
  assert (Hrev : forall cur, no_space cur -> cur <> [] ->
                             rev cur <> [] /\ no_space (rev cur)).
  { intros cur Hc Hne. split.
    - intros H. apply (f_equal (@rev ascii)) in H.
      rewrite rev_involutive in H. contradiction.
    - unfold no_space. apply Forall_rev. exact Hc. }
  induction s as [|c s IH]; intros cur w Hcur Hin; simpl in Hin.
  - destruct cur as [|x cur]; [destruct Hin|].
    destruct Hin as [<- | []]. apply Hrev; [exact Hcur | discriminate].
  - destruct (is_space c) eqn:Hc.
    + destruct cur as [|x cur]; [eapply IH; eauto|].
      destruct Hin as [<- | Hin].
      * apply Hrev; [exact Hcur | discriminate].
      * eapply IH; [|exact Hin]. constructor.
    + eapply IH; [|exact Hin]. constructor; assumption.
Qed.

Lemma word_ends_clean w : w <> [] -> no_space w -> ends_clean is_space w.
Proof.
  intros Hne Hw. destruct (rev w) as [|c u] eqn:E.
  - apply (f_equal (@rev ascii)) in E. rewrite rev_involutive in E. contradiction.
  - apply (f_equal (@rev ascii)) in E. rewrite rev_involutive in E. simpl in E.
    exists (rev u), c. split; [exact E|].
    unfold no_space in Hw. rewrite Forall_forall in Hw.
    apply Hw. rewrite E. apply list_elem_of_In. apply in_or_app. right. left. reflexivity.
Qed.

Lemma split_ws_words s w :
  In w (split_ws s) -> ends_clean is_space (chars w).
Proof.
  unfold split_ws. intros H. apply in_map_iff in H as (l & <- & Hl).
  rewrite chars_str.
  destruct (split_ws_l_words _ [] l ltac:(constructor) Hl) as [Hne Hns].
  apply word_ends_clean; assumption.
Qed.

End Words.

(* ===================================================================== *)
(** * The price text of a line *)
(* ===================================================================== *)

Section PriceText.
Import Py Re App Spec.

Lemma is_decimal_not_space d : is_decimal d = true -> is_space d = false.
Proof.
  destruct d as [[] [] [] [] [] [] [] []]; vm_compute; intros H;
    first [reflexivity | discriminate H].
Qed.

Lemma is_space_lower c : is_space (lower_char c) = is_space c.
Proof. destruct c as [[] [] [] [] [] [] [] []]; vm_compute; reflexivity. Qed.

(** A character that matches a literal which is no whitespace is no
    whitespace. *)
Lemma eq_char_not_space ic a x :
  is_space a = false -> eq_char ic a x = true -> is_space x = false.
Proof.
  unfold eq_char. intros Ha H. destruct ic.
  - apply Ascii.eqb_eq in H. rewrite <- (is_space_lower x), <- H, is_space_lower.
    exact Ha.
  - apply Ascii.eqb_eq in H. subst x. exact Ha.
Qed.

Lemma reaches_close st st' n start :
  reaches st st' -> reaches st (close_group n start st').
Proof. intros (u & Hu & Pu & Lu). exists u. repeat split; assumption. Qed.

(** The last literal of a sequence: the character before the position
    reached is the one that matched it. *)
Lemma lit_end ic a st k m :
  step (eq_char ic a) st k = Some m ->
  exists st' x,
    reaches st st' /\ m_prev st' = Some x /\ eq_char ic a x = true
    /\ k st' = Some m.
Proof.
  intros H. apply step_reaches in H as (x & st' & Hr & Hok & Hp & Hl & Hk).
  exists st', x. repeat split; try assumption.
  exists [x]. repeat split; [exact Hr | simpl; lia | exact Hl].
Qed.

(** A match of the currency group ends after a character that is no
    whitespace. *)
Lemma currency_end st k m :
  run true PRICE_CURRENCY st k = Some m ->
  exists st' x,
    reaches st st' /\ m_prev st' = Some x /\ is_space x = false
    /\ k st' = Some m.
Proof.
  unfold PRICE_CURRENCY. cbn [run lits foldr chars list_ascii_of_string].
  assert (Hlast : forall a st0 st1 m',
            is_space a = false -> reaches st st1 ->
            step (eq_char true a) st1
                 (fun st' => k (close_group 2 (m_pos st0) st')) = Some m' ->
            exists st' x,
              reaches st st' /\ m_prev st' = Some x /\ is_space x = false
              /\ k st' = Some m').
  { intros a st0 st1 m' Ha R1 H.
    apply lit_end in H as (st2 & x & R2 & Hp & Hx & Hk).
    exists (close_group 2 (m_pos st0) st2), x. repeat split.
    - apply reaches_close. eapply reaches_trans; eauto.
    - exact Hp.
    - eapply eq_char_not_space; eauto.
    - exact Hk. }
  assert (Hkr : forall st1 (tail : mstate -> option mstate) m',
            reaches st st1 ->
            (forall st2 x, reaches st st2 -> m_prev st2 = Some x ->
                           is_space x = false -> tail st2 = Some m' ->
                           exists st' y,
                             reaches st st' /\ m_prev st' = Some y
                             /\ is_space y = false /\ k st' = Some m') ->
            step (eq_char true "k") st1
                 (fun st' => step (eq_char true "r") st' tail) = Some m' ->
            exists st' y,
              reaches st st' /\ m_prev st' = Some y /\ is_space y = false
              /\ k st' = Some m').
  { intros st1 tail m' R1 Htail H.
    apply step_reaches_one in H as (st2 & R2 & H).
    apply lit_end in H as (st3 & x & R3 & Hp & Hx & H).
    eapply Htail; [| exact Hp | | exact H].
    - eapply reaches_trans; [|exact R3]. eapply reaches_trans; eauto.
    - eapply eq_char_not_space; [|exact Hx]. reflexivity. }
  intros H.
  destruct (step (eq_char true "d") st _) as [m1|] eqn:E1.
  { injection H as ->.
    apply step_reaches_one in E1 as (st1 & R1 & E1).
    apply step_reaches_one in E1 as (st2 & R2 & E1).
    eapply (Hlast "k"%char st); [reflexivity | | exact E1].
    eapply reaches_trans; eauto. }
  clear E1.
  destruct (step (eq_char true "k") st _) as [m2|] eqn:E2.
  { injection H as ->.
    eapply (Hkr st); [apply reaches_refl | | exact E2].
    intros st2 x R2 Hp Hx Ht. cbn beta in Ht.
    destruct (step (eq_char true ".") st2 _) as [m3|] eqn:E3.
    - injection Ht as ->.
      eapply (Hlast "."%char st); [reflexivity | exact R2 | exact E3].
    - exists (close_group 2 (m_pos st) st2), x.
      split; [apply reaches_close; exact R2|]. repeat split; assumption. }
  clear E2.
  destruct (at_word_boundary st); [|discriminate].
  eapply (Hkr st); [apply reaches_refl | | exact H].
  intros st2 x R2 Hp Hx Ht. cbn beta in Ht.
  destruct (at_word_boundary st2); [|discriminate].
  exists (close_group 2 (m_pos st) st2), x.
  split; [apply reaches_close; exact R2|]. repeat split; assumption.
Qed.

(** A pattern whose first group opens with a class consumes a character
    of the class first. *)
Lemma run_leading_class ic n p r1 r2 st k m :
  run ic (Seq (Grp n (Seq (Cls p) r1)) r2) st k = Some m ->
  exists c st1 st',
    m_rest st = c :: m_rest st1 /\ p c = true
    /\ m_pos st1 = S (m_pos st) /\ reaches st1 st' /\ k st' = Some m.
Proof.
  intros H. cbn [run] in H.
  apply step_reaches in H as (c & st1 & Hr & Hc & Hp & _ & Hk).
  apply run_reaches in Hk as (st2 & R2 & Hk).
  apply run_reaches in Hk as (st3 & (v & Hv & Pv & Lv) & Hk).
  exists c, st1, st3. repeat split; try assumption.
  eapply reaches_trans; [exact R2|]. exists v. repeat split; assumption.
Qed.

(** A match of [PRICE_PATTERN] starts with a decimal digit. *)
Lemma price_match_start st m :
  match_at true PRICE_PATTERN st = Some m ->
  exists d rest,
    m_rest st = d :: rest /\ is_decimal d = true
    /\ m_start m = m_pos st
    /\ (m_pos st < m_end m <= m_pos st + length (m_rest st))%nat.
Proof.
  intros H. pose proof (match_at_bounds _ _ _ _ H) as [Hs [_ Hhi]].
  unfold match_at in H.
  destruct (run true PRICE_PATTERN st Some) as [fin|] eqn:E; [|discriminate].
  injection H as <-. cbn [m_start m_end] in *.
  unfold PRICE_PATTERN, PRICE_AMOUNT in E.
  apply run_leading_class in E
    as (d & st1 & st' & Hr & Hd & Hp & (u & Hu & Pu & _) & Hk).
  injection Hk as <-.
  exists d, (m_rest st1). repeat split; try assumption. lia.
Qed.

Lemma last_prev_last prev u x :
  u <> [] -> last_prev prev u = Some x -> exists u0, u = u0 ++ [x].
Proof.
  intros Hne H. destruct (exists_last Hne) as (u0 & a & ->).
  unfold last_prev in H. rewrite fold_left_app in H. simpl in H.
  injection H as ->. exists u0. reflexivity.
Qed.

(** The text of a match of [PRICE_PATTERN] starts with a digit and ends
    with a character of the currency, so it has no whitespace at either
    end. *)
Lemma price_match_text st m :
  match_at true PRICE_PATTERN st = Some m ->
  exists consumed rest,
    m_rest st = consumed ++ rest
    /\ m_start m = m_pos st
    /\ m_end m = (m_pos st + length consumed)%nat
    /\ starts_clean is_space consumed /\ ends_clean is_space consumed.
Proof.
  intros H.
  destruct (price_match_start _ _ H) as (d & rest & Hr & Hd & Hs & Hlo & _).
  unfold match_at in H.
  destruct (run true PRICE_PATTERN st Some) as [fin|] eqn:E; [|discriminate].
  injection H as <-. cbn [m_start m_end] in *.
  unfold PRICE_PATTERN in E. cbn [run] in E.
  apply run_reaches in E as (st1 & R1 & E).
  apply run_reaches in E as (st2 & R2 & E).
  apply currency_end in E as (st3 & x & R3 & Hp & Hx & [= ->]).
  destruct (reaches_trans _ _ _ (reaches_trans _ _ _ R1 R2) R3)
    as (u & Hu & Pu & Lu).
  exists u, (m_rest fin). repeat split; try assumption.
  - destruct u as [|c u]; [simpl in Pu; lia|].
    rewrite Hr in Hu. injection Hu as <- _.
    exists d, u. split; [reflexivity | apply is_decimal_not_space; exact Hd].
  - rewrite Hp in Lu. symmetry in Lu.
    apply last_prev_last in Lu as (u0 & ->).
    + exists u0, x. split; [reflexivity | exact Hx].
    + intros ->. simpl in Pu. lia.
Qed.

Lemma price_search_group line m :
  price_search line = Some m ->
  starts_clean is_space (chars (group0 line m))
  /\ ends_clean is_space (chars (group0 line m)).
Proof.
  unfold price_search, search, finditer. intros H.
  apply head_In in H. apply scan_matches in H as (pre & s' & prev' & Hs & H).
  apply price_match_text in H as (u & rest & Hr & Hstart & Hend & Hsc & Hec).
  simpl in *. subst s'.
  unfold group0, str_slice, slice. rewrite chars_str, Hstart, Hend, Hs.
  rewrite drop_app_length.
  replace (length pre + length u - length pre)%nat with (length u) by lia.
  rewrite take_app_length. split; assumption.
Qed.

(** The price of [_extract_price_from_line] is the matched text: the
    strip changes nothing. *)
Lemma price_strip_noop line m :
  price_search line = Some m -> strip (group0 line m) = group0 line m.
Proof.
  intros H. apply price_search_group in H as [Hs He].
  unfold strip. rewrite strip_clean by assumption. apply str_chars.
Qed.

Lemma strip_extended price joined :
  starts_clean is_space (chars price) ->
  ends_clean is_space (chars joined) ->
  strip (price +:+ " " +:+ joined) = price +:+ " " +:+ joined.
Proof.
  intros Hp Hj. unfold strip. rewrite strip_clean.
  - apply str_chars.
  - rewrite chars_app. apply starts_clean_app. exact Hp.
  - rewrite !chars_app. apply ends_clean_app. apply ends_clean_app. exact Hj.
Qed.

Lemma join_two_ends_clean suffix w ws :
  split_ws suffix = w :: ws ->
  ends_clean is_space (chars (join " " (take 2 (w :: ws)))).
Proof.
  intros H.
  assert (Hw : forall x, In x (w :: ws) -> ends_clean is_space (chars x)).
  { intros x Hx. rewrite <- H in Hx. eapply split_ws_words. exact Hx. }
  destruct ws as [|w2 ws].
  - simpl. apply Hw. left. reflexivity.
  - change (join " " (take 2 (w :: w2 :: ws))) with (w +:+ " " +:+ w2).
    rewrite !chars_app. apply ends_clean_app. apply ends_clean_app.
    apply Hw. right. left. reflexivity.
Qed.

Lemma extract_price_cases line m w ws :
  price_search line = Some m ->
  split_ws (strip (str_from (m_end m) line)) = w :: ws ->
  _extract_price_from_line line
  = if continues w
    then Some (group0 line m +:+ " " +:+ join " " (take 2 (w :: ws)))
    else Some (group0 line m).
Proof.
  intros Hsearch Hsplit. unfold _extract_price_from_line. rewrite Hsearch.
  rewrite (price_strip_noop line m Hsearch).
  destruct (truthy (strip (str_from (m_end m) line))) eqn:Ht.
  - rewrite Hsplit. fold (continues w). destruct (continues w); [|reflexivity].
    f_equal. change (slice 0 2 (w :: ws)) with (take 2 (w :: ws)).
    apply strip_extended.
    + apply price_search_group. exact Hsearch.
    + eapply join_two_ends_clean. exact Hsplit.
  - apply truthy_false in Ht. rewrite Ht in Hsplit. discriminate Hsplit.
Qed.

(** C4, as the specification words it, fails for the token inkl: the
    price pattern matches, the first word after the match is inkl, and
    the price text is the matched token alone. *)
Lemma extract_price_ignores_inkl :
  let line := "Basis 100 kr inkl moms" in
  exists m,
    price_search line = Some m
    /\ group0 line m = "100 kr"
    /\ split_ws (strip (str_from (m_end m) line)) = ["inkl"; "moms"]
    /\ _extract_price_from_line line = Some "100 kr"
    /\ _extract_price_from_line line <> Some "100 kr inkl moms".
Proof.
  cbv zeta. eexists. split; [vm_compute; reflexivity|].
  split; [vm_compute; reflexivity|].
  split; [vm_compute; reflexivity|].
  split; [vm_compute; reflexivity|].
  vm_compute. discriminate.
Qed.

(** C4 (amended): when the price pattern matches in a line and the
    first whitespace-separated word after the match starts with a slash
    or, in lower case, with pr or per -- as the words /, pr, pr. and per
    do -- the price text is the matched token, then a space, then the
    first two words after the match (the first one if there is no
    second) joined by a space.  For every other first word, inkl among
    them, the price text is the matched token alone. *)
Theorem extract_price_continuation
    (line : string) (m : rmatch) (w : string) (ws : list string) :
  price_search line = Some m ->
  split_ws (strip (str_from (m_end m) line)) = w :: ws ->
  let price := group0 line m in
  let extended := price +:+ " " +:+ join " " (take 2 (w :: ws)) in
  (startswith w "/" || startswith (lower w) "pr" || startswith (lower w) "per"
   = true -> _extract_price_from_line line = Some extended)
  /\ (In w ["/"; "pr"; "pr."; "per"] ->
      _extract_price_from_line line = Some extended)
  /\ (startswith w "/" || startswith (lower w) "pr"
      || startswith (lower w) "per" = false ->
      _extract_price_from_line line = Some price)
  /\ (w = "inkl" -> _extract_price_from_line line = Some price).
Proof.
  intros Hsearch Hsplit price extended.
  pose proof (extract_price_cases line m w ws Hsearch Hsplit) as H.
  fold price in H. fold extended in H. unfold continues in H.
  repeat split.
  - intros Hc. rewrite Hc in H. exact H.
  - intros Hin.
    assert (Hc : startswith w "/" || startswith (lower w) "pr"
                 || startswith (lower w) "per" = true).
    { destruct Hin as [<-|[<-|[<-|[<-|[]]]]]; vm_compute; reflexivity. }
    rewrite Hc in H. exact H.
  - intros Hc. rewrite Hc in H. exact H.
  - intros ->. exact H.
Qed.

(** The amended C4 on a line whose price is followed by the word pr. *)
Lemma extract_price_continuation_witness :
  let line := "Basis: 499 kr. pr. md ekskl. moms" in
  exists m,
    price_search line = Some m
    /\ split_ws (strip (str_from (m_end m) line)) = ["pr."; "md"; "ekskl."; "moms"]
    /\ In "pr." ["/"; "pr"; "pr."; "per"]
    /\ _extract_price_from_line line = Some "499 kr. pr. md".
Proof.
  cbv zeta.
  assert (H1 : price_search "Basis: 499 kr. pr. md ekskl. moms"
               = Some {| m_start := 7; m_end := 14;
                         m_groups := [(2, (11, 14)); (1, (7, 10))]%nat |})
    by (vm_compute; reflexivity).
  eexists. split; [exact H1|].
  assert (H2 : split_ws (strip (str_from 14 "Basis: 499 kr. pr. md ekskl. moms"))
               = ["pr."; "md"; "ekskl."; "moms"]) by (vm_compute; reflexivity).
  split; [exact H2|].
  assert (H3 : In "pr." ["/"; "pr"; "pr."; "per"])
    by (right; right; left; reflexivity).
  split; [exact H3|].
  destruct (extract_price_continuation _ _ _ _ H1 H2) as (_ & H & _).
  rewrite (H H3). vm_compute. reflexivity.
Defined.

End PriceText.

(* ===================================================================== *)
(** * Lexical search *)
(* ===================================================================== *)

Section Search.
Import Py Re VaultIndex Spec.

Lemma lower_char_idem c : lower_char (lower_char c) = lower_char c.
Proof. destruct c as [[] [] [] [] [] [] [] []]; vm_compute; reflexivity. Qed.

Lemma lower_idem s : lower (lower s) = lower s.
Proof.
  unfold lower. rewrite chars_str, map_map. f_equal.
  apply map_ext. intros c. apply lower_char_idem.
Qed.

Lemma lower_slice a b s :
  lower (str_slice a b (lower s)) = str_slice a b (lower s).
Proof.
  unfold str_slice, slice, lower. rewrite !chars_str.
  rewrite <- firstn_map, <- skipn_map, map_map. do 3 f_equal.
  apply map_ext. intros c. apply lower_char_idem.
Qed.

(** A token of the word pattern is a slice of the subject that is not
    empty. *)
Lemma findall_word_token s t :
  In t (findall false WORD_RE s) ->
  exists a b, t = str_slice a b s /\ t <> "".
Proof.
  unfold findall, finditer. intros H.
  apply in_map_iff in H as (m & <- & H).
  apply scan_matches in H as (pre & s' & prev' & Hs & H).
  pose proof (match_at_bounds _ _ _ _ H) as (Hstart & _ & Hhi).
  exists (m_start m), (m_end m). split; [reflexivity|].
  unfold match_at in H.
  destruct (run false WORD_RE _ Some) as [fin|] eqn:E; [|discriminate].
  injection H as Hm. unfold WORD_RE, plus in E. cbn [run m_pos m_prev m_rest m_caps] in E.
  apply rep_reaches in E as (st' & _ & Hlo & [= ->]).
  rewrite <- Hm in *. cbn [m_start m_end m_pos m_rest] in *.
  unfold group0, str_slice, slice. cbn [m_start m_end].
  simpl in Hs. rewrite Hs, drop_app_length.
  destruct (m_pos fin - length pre)%nat as [|n] eqn:En; [lia|].
  destruct s' as [|c s']; [simpl in Hhi; lia|].
  simpl. discriminate.
Qed.

Lemma query_tokens_truthy query t :
  In t (query_tokens query) -> truthy t = true.
Proof.
  intros H. apply findall_word_token in H as (a & b & _ & Hne).
  apply truthy_true. exact Hne.
Qed.

Lemma query_tokens_lower query :
  map lower (query_tokens query) = query_tokens query.
Proof.
  rewrite <- (map_id (query_tokens query)) at 2.
  apply map_ext_in. intros t H.
  apply findall_word_token in H as (a & b & -> & _). apply lower_slice.
Qed.

Lemma score_loop_sum (f : string -> Z) tokens :
  (forall t, In t tokens -> truthy t = true) ->
  forall acc,
    fold_left (fun score token =>
                 if truthy token then (score + f token)%Z else score)
              tokens acc
    = (acc + Zsum (map f tokens))%Z.
Proof.
  induction tokens as [|t tokens IH]; intros Ht acc; simpl.
  - lia.
  - rewrite (Ht t (or_introl eq_refl)).
    rewrite IH by (intros x Hx; apply Ht; right; exact Hx). lia.
Qed.

Lemma fold_left_pointwise {B C} (f g : B -> C -> B) (l : list C) :
  (forall acc x, f acc x = g acc x) ->
  forall acc, fold_left f l acc = fold_left g l acc.
Proof.
  intros Hfg. induction l as [|x l IH]; intros acc; simpl; [reflexivity|].
  rewrite Hfg. apply IH.
Qed.

(** The score the code computes is the score of the specification. *)
Lemma code_score_is_spec_score ns query section :
  (note_boost ns (lower query) section
   + _score_section section (map lower (query_tokens query)) (lower query))%Z
  = spec_score ns query section.
Proof.
  unfold spec_score, note_boost, _score_section.
  rewrite query_tokens_lower.
  assert (Hfold :
    fold_left
      (fun score token =>
         if truthy token
         then (score + Z.of_nat (count (lower (text section)) token)
               + 3 * Z.of_nat (count (lower (heading section)) token)
               + 2 * Z.of_nat (count (lower (path section)) token))%Z
         else score)
      (query_tokens query) 0%Z
    = Zsum (map (fun t => (Z.of_nat (count (lower (text section)) t)
                          + 3 * Z.of_nat (count (lower (heading section)) t)
                          + 2 * Z.of_nat (count (lower (path section)) t))%Z)
                (query_tokens query))).
  { rewrite <- (Z.add_0_l (Zsum _)).
    rewrite <- (score_loop_sum _ _ (query_tokens_truthy query) 0%Z).
    apply fold_left_pointwise. intros acc t. destruct (truthy t); lia. }
  rewrite Hfold.
  destruct (ns !! path section) as [note|];
    [destruct (existsb _ (aliases note))|];
    destruct (contains (lower query) (lower (text section))); simpl; lia.
Qed.

Lemma slice_to_prefix {B} (k : Z) (l : list B) :
  exists n, slice_to k l = take n l.
Proof. unfold slice_to. destruct (0 <=? k)%Z; eauto. Qed.

Lemma In_take {B} (n : nat) (l : list B) x : In x (take n l) -> In x l.
Proof.
  intros H. rewrite <- (take_drop n l). apply in_or_app. left. exact H.
Qed.

Lemma slice_to_length {B} (k : Z) (l : list B) :
  (0 <= k)%Z -> (Z.of_nat (length (slice_to k l)) <= k)%Z.
Proof.
  intros Hk. unfold slice_to.
  destruct (0 <=? k)%Z eqn:E; [|apply Z.leb_gt in E; lia].
  rewrite length_take. lia.
Qed.

Lemma take_sorted {B} (R : B -> B -> Prop) n (l : list B) :
  StronglySorted R l -> StronglySorted R (take n l).
Proof.
  intros H. revert n. induction H as [|x l Hs IH Hx]; intros n.
  - destruct n; constructor.
  - destruct n as [|n]; simpl; [constructor|].
    constructor; [apply IH|]. apply Forall_take. exact Hx.
Qed.

Lemma find_sections_unfold idx query top_k :
  find_sections idx query top_k
  = match query_tokens query with
    | [] => []
    | _ =>
        slice_to top_k
          (sort_by_score
             (flat_map (scored_copy (notes idx) (query_tokens query) (lower query))
                       (sections idx)))
    end.
Proof.
  unfold find_sections. fold (query_tokens query).
  rewrite query_tokens_lower. reflexivity.
Qed.

Lemma scored_copy_spec ns query s r :
  In r (scored_copy ns (query_tokens query) (lower query) s) ->
  r = with_score s (spec_score ns query s) /\ (0 < spec_score ns query s)%Z.
Proof.
  unfold scored_copy.
  assert (Hsc : (note_boost ns (lower query) s
                 + _score_section s (query_tokens query) (lower query))%Z
                = spec_score ns query s).
  { rewrite <- code_score_is_spec_score, query_tokens_lower. reflexivity. }
  rewrite Hsc.
  destruct (0 <? spec_score ns query s)%Z eqn:E; [|intros []].
  apply Z.ltb_lt in E. intros [<- | []]. split; [reflexivity | exact E].
Qed.

(** C3, as the specification words it, fails for a negative [top_k]:
    the slice [results[:top_k]] then drops the last results only, and
    with three matching sections and [top_k = -1] two sections come
    back, which is more than [top_k]. *)
Lemma find_sections_negative_top_k :
  let idx :=
    {| sections :=
         [ {| path := "a.md"; heading := "Basis"; line_start := 1;
              line_end := 2; text := "basis pakke"; score := 0 |};
           {| path := "b.md"; heading := "Plus"; line_start := 1;
              line_end := 2; text := "mere end basis"; score := 0 |};
           {| path := "c.md"; heading := "Extra"; line_start := 1;
              line_end := 4; text := "basis basis"; score := 0 |} ];
       notes := ∅ |} in
  map path (find_sections idx "basis" (-1)) = ["a.md"; "c.md"]
  /\ ~ (Z.of_nat (length (find_sections idx "basis" (-1))) <= -1)%Z.
Proof.
  cbv zeta. split; [vm_compute; reflexivity|].
  vm_compute. intros H. apply H. reflexivity.
Qed.

(** C3 (amended): for every query and every [top_k] that is not
    negative, [find_sections] returns at most [top_k] sections.  For
    every [top_k], each returned section is a copy of a section of the
    index with a score that is strictly positive and equals the score
    of the specification (the alias boost of 20, the weighted counts of
    the query's word tokens in the lowercased body, heading and path,
    and 8 for the whole lowercased query in the lowercased body); the
    returned sections are in descending order of score; and a query
    without word tokens yields the empty list. *)
Theorem find_sections_ranked (idx : index_state) (query : string) (top_k : Z) :
  ((0 <= top_k)%Z ->
   (Z.of_nat (length (find_sections idx query top_k)) <= top_k)%Z)
  /\ (forall r, In r (find_sections idx query top_k) ->
        (0 < score r)%Z
        /\ score r = spec_score (notes idx) query r
        /\ exists s, In s (sections idx) /\ r = with_score s (score r))
  /\ (forall (i j : nat) a b,
        (i < j)%nat ->
        find_sections idx query top_k !! i = Some a ->
        find_sections idx query top_k !! j = Some b ->
        (score b <= score a)%Z)
  /\ (query_tokens query = [] -> find_sections idx query top_k = []).
Proof.
  rewrite find_sections_unfold.
  destruct (query_tokens query) as [|t0 ts] eqn:Htok.
  { split; [intros; simpl; lia|]. split; [intros r []|].
    split; [intros i j a b _ Ha; discriminate Ha | reflexivity]. }
  assert (Hne : query_tokens query <> []) by (rewrite Htok; discriminate).
  rewrite <- Htok. clear Htok t0 ts.
  set (results := flat_map _ (sections idx)).
  destruct (slice_to_prefix top_k (sort_by_score results)) as [n Hn].
  split; [|split; [|split]].
  - apply slice_to_length.
  - intros r Hr. rewrite Hn in Hr. apply In_take in Hr.
    apply (Permutation_in _ (sort_desc_perm score results)) in Hr.
    apply in_flat_map in Hr as (s & Hs & Hr).
    apply scored_copy_spec in Hr as [-> Hpos].
    split; [exact Hpos|]. split; [reflexivity|].
    exists s. split; [exact Hs | reflexivity].
  - rewrite Hn. apply (strongly_sorted_lookup (desc score)).
    apply take_sorted. apply sort_desc_sorted.
  - intros Hnil. contradiction.
Qed.

(** The amended C3 on an index of two sections with [top_k = 1]. *)
Lemma find_sections_ranked_witness :
  let idx :=
    {| sections :=
         [ {| path := "a.md"; heading := "Basis"; line_start := 1;
              line_end := 2; text := "basis pakke"; score := 0 |};
           {| path := "b.md"; heading := "Plus"; line_start := 1;
              line_end := 2; text := "mere end basis"; score := 0 |} ];
       notes := ∅ |} in
  (0 <= 1)%Z /\ (Z.of_nat (length (find_sections idx "basis" 1)) <= 1)%Z.
Proof.
  cbv zeta. split; [lia|].
  apply (proj1 (find_sections_ranked _ "basis" 1)). lia.
Defined.

End Search.

(* ===================================================================== *)
(** * The search leaves the index alone *)
(* ===================================================================== *)

Section Frame.
Import Py Re VaultIndex Spec ObjectStore.

Lemma grown_nil st : grown st [] = st.
Proof. destruct st. unfold grown. simpl. rewrite app_nil_r. reflexivity. Qed.

Lemma grown_grown st a b : grown (grown st a) b = grown st (a ++ b).
Proof. unfold grown. simpl. rewrite app_assoc. reflexivity. Qed.

Lemma point_to_grown st fresh ls ss :
  point_to st ls ss -> point_to (grown st fresh) ls ss.
Proof.
  unfold point_to. intros H. eapply Forall2_impl; [exact H|].
  intros l s Hl. simpl. apply lookup_app_l_Some. exact Hl.
Qed.

Lemma well_formed_points st :
  well_formed st -> exists ss, point_to st (self_sections st) ss.
Proof.
  unfold well_formed, point_to. generalize (self_sections st) as ls.
  induction ls as [|l ls IH]; intros H.
  - exists []. constructor.
  - apply Forall_cons in H as [Hl Hls].
    destruct (IH Hls) as (ss & Hss).
    apply lookup_lt_is_Some_2 in Hl as [s Hs].
    exists (s :: ss). constructor; assumption.
Qed.

(** The loop builds the scored copies of the objects it visits, in
    order, and collects their references. *)
Lemma score_loop_run tokens query_lower todo ss :
  forall st results,
    point_to st todo ss ->
    let copies := flat_map (scored_copy (self_notes st) tokens query_lower) ss in
    score_loop tokens query_lower todo results st
    = Some (results ++ seq (length (heap st)) (length copies), grown st copies).
Proof.
  revert ss. induction todo as [|l todo IH]; intros ss st results Hp copies.
  - apply Forall2_nil_inv_l in Hp. subst ss. subst copies. simpl.
    rewrite app_nil_r, grown_nil. reflexivity.
  - apply Forall2_cons_inv_l in Hp as (s & ss' & Hs & Hss & ->).
    subst copies. cbn [score_loop flat_map]. unfold bind at 1, read. rewrite Hs.
    unfold bind at 1, get_notes.
    pose proof (eq_refl (scored_copy (self_notes st) tokens query_lower s)) as Hc.
    unfold scored_copy at 2 in Hc.
    destruct (0 <? note_boost (self_notes st) query_lower s
                   + _score_section s tokens query_lower)%Z;
      rewrite Hc; clear Hc.
    + unfold bind, new.
      match goal with
      | |- score_loop _ _ _ ?r ?st0 = _ =>
          assert (Hp0 : point_to st0 todo ss')
            by (apply (point_to_grown st [_]); exact Hss);
          rewrite (IH ss' st0 r Hp0)
      end.
      unfold grown. cbn [heap self_notes self_sections app length].
      rewrite length_app, <- !app_assoc. cbn [length app seq].
      replace (length (heap st) + 1)%nat with (S (length (heap st))) by lia.
      reflexivity.
    + rewrite (IH ss' _ _ Hss). reflexivity.
Qed.

Lemma read_keys_run ls ss :
  forall st, point_to st ls ss ->
    read_keys ls st = Some (map (fun l => (score_at st l, l)) ls, st).
Proof.
  revert ss. induction ls as [|l ls IH]; intros ss st Hp; [reflexivity|].
  apply Forall2_cons_inv_l in Hp as (s & ss' & Hs & Hss & ->).
  cbn [read_keys map]. unfold bind at 1, read. rewrite Hs.
  unfold bind. rewrite (IH ss' st Hss). unfold ret, score_at. rewrite Hs.
  reflexivity.
Qed.

(** Sorting commutes with a map that keeps the keys. *)
Lemma sort_desc_map {B C} (f : B -> C) (kb : B -> Z) (kc : C -> Z) l :
  (forall x, In x l -> kc (f x) = kb x) ->
  map f (sort_desc kb l) = sort_desc kc (map f l).
Proof.
  assert (Hins : forall x l',
             kc (f x) = kb x -> (forall y, In y l' -> kc (f y) = kb y) ->
             map f (insert_desc kb x l') = insert_desc kc (f x) (map f l')).
  { intros x l' Hx. induction l' as [|y l' IH]; intros Hl; simpl; [reflexivity|].
    rewrite Hx, (Hl y (or_introl eq_refl)).
    destruct (kb x <? kb y)%Z; simpl; [rewrite IH|]; try reflexivity.
    intros z Hz. apply Hl. right. exact Hz. }
  induction l as [|x l IH]; intros Hk; [reflexivity|].
  unfold sort_desc in *. simpl. rewrite Hins, IH; try reflexivity.
  - intros z Hz. apply Hk. right. exact Hz.
  - apply Hk. left. reflexivity.
  - intros y Hy. apply Hk. right.
    eapply Permutation_in; [apply (sort_desc_perm kb l) | exact Hy].
Qed.

Lemma slice_to_map {B C} (f : B -> C) k l :
  map f (slice_to k l) = slice_to k (map f l).
Proof.
  unfold slice_to. rewrite length_map.
  destruct (0 <=? k)%Z; symmetry; apply firstn_map.
Qed.

Lemma objects_fresh st copies :
  objects (grown st copies) (seq (length (heap st)) (length copies))
  = map Some copies.
Proof.
  unfold objects. cbn [grown heap].
  generalize (heap st) as h. induction copies as [|c copies IH]; intros h.
  - reflexivity.
  - cbn [length seq map]. f_equal.
    + rewrite lookup_app_r by lia. rewrite Nat.sub_diag. reflexivity.
    + replace (h ++ c :: copies) with ((h ++ [c]) ++ copies)
        by (rewrite <- app_assoc; reflexivity).
      replace (S (length h)) with (length (h ++ [c]))
        by (rewrite length_app; simpl; lia).
      apply IH.
Qed.

(** One call: the store grows by the scored copies, the index is
    untouched, the results refer to new objects only, and the objects
    they refer to are the values of [VaultIndex.find_sections]. *)
Lemma find_sections_run st query top_k ss :
  point_to st (self_sections st) ss ->
  exists res copies,
    ObjectStore.find_sections query top_k st = Some (res, grown st copies)
    /\ (forall l, In l res -> (length (heap st) <= l)%nat)
    /\ objects (grown st copies) res
       = map Some (VaultIndex.find_sections
                     {| sections := ss; notes := self_notes st |} query top_k).
Proof.
  intros Hp. unfold ObjectStore.find_sections, VaultIndex.find_sections.
  destruct (map lower (findall false WORD_RE (lower query))) as [|t0 ts] eqn:Htok.
  { exists [], []. rewrite grown_nil. repeat split. intros l []. }
  rewrite <- Htok. clear Htok t0 ts.
  set (tokens := map lower _). set (ql := lower query).
  cbn [sections notes].
  set (copies := flat_map (scored_copy (self_notes st) tokens ql) ss).
  set (refs := seq (length (heap st)) (length copies)).
  assert (Hfresh : point_to (grown st copies) refs copies).
  { unfold point_to. apply Forall2_same_length_lookup_2.
    - unfold refs. rewrite length_seq. reflexivity.
    - intros i l c Hl Hc. pose proof (objects_fresh st copies) as Ho.
      fold refs in Ho. apply (f_equal (fun x => x !! i)) in Ho.
      unfold objects in Ho. rewrite !list_lookup_fmap in Ho.
      rewrite Hl, Hc in Ho. simpl in Ho. injection Ho as Ho. exact Ho. }
  exists (slice_to top_k
            (map snd (sort_desc fst
               (map (fun l => (score_at (grown st copies) l, l)) refs)))),
         copies.
  split; [|split].
  - unfold bind at 1, get_sections.
    unfold bind at 1. rewrite (score_loop_run tokens ql _ ss st [] Hp).
    fold copies. cbn [app]. fold refs.
    unfold bind, sort_results, bind. rewrite (read_keys_run refs copies _ Hfresh).
    reflexivity.
  - intros l Hl. destruct (slice_to_prefix top_k
        (map snd (sort_desc fst
           (map (fun l => (score_at (grown st copies) l, l)) refs)))) as [n Hn].
    rewrite Hn in Hl. apply In_take in Hl.
    apply in_map_iff in Hl as ([k l'] & <- & Hl).
    apply (Permutation_in _ (sort_desc_perm fst _)) in Hl.
    apply in_map_iff in Hl as (l0 & [= <- <-] & Hl).
    unfold refs in Hl. apply in_seq in Hl. simpl. lia.
  - unfold objects, sort_by_score.
    rewrite slice_to_map, map_map, (slice_to_map Some).
    rewrite (sort_desc_map Some score score_opt) by reflexivity.
    rewrite (sort_desc_map (fun p => heap (grown st copies) !! snd p)
                           fst score_opt).
    + rewrite map_map. cbn [snd]. f_equal. f_equal.
      exact (objects_fresh st copies).
    + intros [k l] Hin. apply in_map_iff in Hin as (l0 & [= <- <-] & _).
      reflexivity.
Qed.

End Frame.

Section FrameClaim.
Import Py Re VaultIndex Spec ObjectStore.

(** C10: a call of [find_sections] on an index whose references point
    to objects succeeds and leaves the index as it was: the list
    [self.sections] and the map [self.notes] are the same, every object
    of the store before the call is unchanged after it (its score
    included), the returned references point to objects built by the
    call; and a second call with the same query and [top_k] returns
    objects equal to those of the first. *)
Theorem find_sections_leaves_index (st : state) (query : string) (top_k : Z) :
  well_formed st ->
  exists res st',
    ObjectStore.find_sections query top_k st = Some (res, st')
    /\ self_sections st' = self_sections st
    /\ self_notes st' = self_notes st
    /\ (exists fresh, heap st' = heap st ++ fresh)
    /\ (forall l s, heap st !! l = Some s -> heap st' !! l = Some s)
    /\ (forall l, In l res -> (length (heap st) <= l)%nat)
    /\ exists res2 st'',
         ObjectStore.find_sections query top_k st' = Some (res2, st'')
         /\ objects st'' res2 = objects st' res.
Proof.
  intros Hwf. destruct (well_formed_points st Hwf) as (ss & Hp).
  destruct (find_sections_run st query top_k ss Hp)
    as (res & copies & Hrun & Hfresh & Hobj).
  pose proof (point_to_grown st copies _ _ Hp) as Hp'.
  destruct (find_sections_run (grown st copies) query top_k ss Hp')
    as (res2 & copies2 & Hrun2 & _ & Hobj2).
  exists res, (grown st copies). repeat split.
  - exact Hrun.
  - exists copies. reflexivity.
  - intros l s Hl. simpl. apply lookup_app_l_Some. exact Hl.
  - exact Hfresh.
  - exists res2, (grown (grown st copies) copies2).
    split; [exact Hrun2|]. rewrite Hobj2, Hobj. reflexivity.
Qed.

(** C10 on a store of three objects, all of them indexed. *)
Lemma find_sections_leaves_index_witness :
  let st :=
    {| heap :=
         [ {| path := "b.md"; heading := "Plus"; line_start := 1;
              line_end := 3; text := "nothing here"; score := 0 |};
           {| path := "b.md"; heading := "Other"; line_start := 4;
              line_end := 6; text := "mere end basis"; score := 0 |};
           {| path := "a.md"; heading := "Basis"; line_start := 1;
              line_end := 3; text := "basis pakke basis"; score := 5 |} ];
       self_sections := [0; 1; 2]%nat;
       self_notes := ∅ |} in
  well_formed st
  /\ exists res st',
       ObjectStore.find_sections "Basis" 5 st = Some (res, st')
       /\ self_sections st' = self_sections st
       /\ self_notes st' = self_notes st
       /\ (exists fresh, heap st' = heap st ++ fresh)
       /\ (forall l s, heap st !! l = Some s -> heap st' !! l = Some s)
       /\ (forall l, In l res -> (length (heap st) <= l)%nat)
       /\ exists res2 st'',
            ObjectStore.find_sections "Basis" 5 st' = Some (res2, st'')
            /\ objects st'' res2 = objects st' res.
Proof.
  cbv zeta.
  match goal with
  | |- well_formed ?s /\ _ =>
      assert (H : well_formed s)
        by (unfold well_formed; repeat constructor; simpl; lia);
      split; [exact H | exact (find_sections_leaves_index s "Basis" 5 H)]
  end.
Defined.

End FrameClaim.

(* ===================================================================== *)
(** * Further properties of the search *)
(* ===================================================================== *)

Section SearchMore.
Import Py Re AppRank Spec SpecMore.

Lemma filter_all_true {B} (f : B -> bool) (l : list B) :
  (forall x, In x l -> f x = true) -> List.filter f l = l.
Proof.
  induction l as [|x l IH]; intros H; simpl; [reflexivity|].
  rewrite (H x (or_introl eq_refl)). f_equal. apply IH.
  intros y Hy. apply H. right. exact Hy.
Qed.

Lemma rank_score_is_score_section section tokens query_lower :
  (forall t, In t tokens -> truthy t = true) ->
  rank_score section tokens query_lower
  = _score_section section tokens query_lower.
Proof.
  intros Ht. unfold rank_score, _score_section.
  assert (Hfold : forall acc,
    fold_left
      (fun score token =>
         (score + Z.of_nat (count (lower (text section)) token)
          + 3 * Z.of_nat (count (lower (heading section)) token)
          + 2 * Z.of_nat (count (lower (path section)) token))%Z)
      tokens acc
    = fold_left
      (fun score token =>
         if truthy token
         then (score + Z.of_nat (count (lower (text section)) token)
               + 3 * Z.of_nat (count (lower (heading section)) token)
               + 2 * Z.of_nat (count (lower (path section)) token))%Z
         else score)
      tokens acc).
  { induction tokens as [|t ts IH]; intros acc; simpl; [reflexivity|].
    rewrite (Ht t (or_introl eq_refl)). apply IH.
    intros x Hx. apply Ht. right. exact Hx. }
  rewrite Hfold. reflexivity.
Qed.

(** X1: ranking a list of sections with [_rank_sections] gives what
    [find_sections] gives on an index that holds these sections and no
    note: the two code paths score, filter, order and cut alike, and
    differ only by the alias boost. *)
Theorem rank_sections_is_find_sections_without_notes
    (sections : list Section) (query : string) (top_k : Z) :
  _rank_sections sections query top_k
  = find_sections {| VaultIndex.sections := sections; notes := ∅ |} query top_k.
Proof.
  rewrite find_sections_unfold. unfold _rank_sections, WORD_PATTERN.
  fold (query_tokens query).
  rewrite (filter_all_true truthy _ (query_tokens_truthy query)).
  destruct (query_tokens query) as [|t0 ts] eqn:Htok; [reflexivity|].
  rewrite <- Htok. cbn [VaultIndex.sections notes]. unfold sort_by_score.
  f_equal. f_equal. apply flat_map_ext. intros s.
  unfold ranked_copy, scored_copy.
  rewrite (rank_score_is_score_section _ _ _ (query_tokens_truthy query)).
  unfold note_boost. rewrite lookup_empty. reflexivity.
Qed.

Lemma scored_copy_positive ns query s :
  scored_copy ns (query_tokens query) (lower query) s = positive_copy ns query s.
Proof.
  unfold scored_copy, positive_copy.
  assert (Hsc : (note_boost ns (lower query) s
                 + _score_section s (query_tokens query) (lower query))%Z
                = spec_score ns query s).
  { rewrite <- code_score_is_spec_score, query_tokens_lower. reflexivity. }
  rewrite Hsc. reflexivity.
Qed.

Lemma find_sections_positive idx query top_k :
  find_sections idx query top_k
  = match query_tokens query with
    | [] => []
    | _ => slice_to top_k
             (sort_by_score (flat_map (positive_copy (notes idx) query)
                                      (sections idx)))
    end.
Proof.
  rewrite find_sections_unfold.
  destruct (query_tokens query) as [|t0 ts] eqn:E; [reflexivity|].
  rewrite <- E. do 2 f_equal. apply flat_map_ext. intros s.
  apply scored_copy_positive.
Qed.

Lemma positive_copies_length ns query sections :
  (length (flat_map (positive_copy ns query) sections) <= length sections)%nat.
Proof.
  induction sections as [|s l IH]; simpl; [lia|].
  rewrite length_app. unfold positive_copy at 1.
  destruct (0 <? spec_score ns query s)%Z; simpl; lia.
Qed.

Lemma slice_to_all {B} (k : Z) (l : list B) :
  (Z.of_nat (length l) <= k)%Z -> slice_to k l = l.
Proof.
  intros H. unfold slice_to.
  destruct (0 <=? k)%Z eqn:E; [|apply Z.leb_gt in E; lia].
  apply firstn_all2. lia.
Qed.

(** X2: for limits that are not negative, the result for the smaller
    [top_k] is the beginning of the result for the larger one: raising
    the limit only adds sections at the end. *)
Theorem find_sections_smaller_limit_is_prefix
    (idx : index_state) (query : string) (k k' : Z) :
  (0 <= k <= k')%Z ->
  find_sections idx query k = take (Z.to_nat k) (find_sections idx query k').
Proof.
  intros [Hk Hk']. rewrite !find_sections_positive.
  destruct (query_tokens query); [rewrite take_nil; reflexivity|].
  unfold slice_to.
  destruct (0 <=? k)%Z eqn:E; [|apply Z.leb_gt in E; lia].
  destruct (0 <=? k')%Z eqn:E'; [|apply Z.leb_gt in E'; lia].
  rewrite take_take. f_equal. lia.
Qed.

Lemma find_sections_smaller_limit_is_prefix_witness :
  let idx :=
    {| sections :=
         [ {| path := "a.md"; heading := "Basis"; line_start := 1;
              line_end := 2; text := "basis pakke"; score := 0 |};
           {| path := "b.md"; heading := "Plus"; line_start := 1;
              line_end := 2; text := "mere end basis"; score := 0 |} ];
       notes := ∅ |} in
  (0 <= 1 <= 2)%Z
  /\ find_sections idx "basis" 1 = take 1 (find_sections idx "basis" 2).
Proof.
  cbv zeta. split; [lia|].
  apply (find_sections_smaller_limit_is_prefix _ "basis" 1 2). lia.
Defined.

Lemma find_sections_all_matches idx query top_k :
  (Z.of_nat (length (sections idx)) <= top_k)%Z ->
  query_tokens query <> [] ->
  Permutation (find_sections idx query top_k)
              (flat_map (positive_copy (notes idx) query) (sections idx)).
Proof.
  intros Hk Hne. rewrite find_sections_positive.
  destruct (query_tokens query); [contradiction|].
  rewrite slice_to_all.
  - apply sort_desc_perm.
  - rewrite (Permutation_length (sort_desc_perm score _)).
    pose proof (positive_copies_length (notes idx) query (sections idx)). lia.
Qed.

(** X3: when [top_k] is at least the number of stored sections and the
    query has a word token, [find_sections] returns one scored copy of
    each stored section whose score is positive and nothing else: no
    match is lost and no section is returned twice. *)
Theorem find_sections_returns_all_matches
    (idx : index_state) (query : string) (top_k : Z) :
  (Z.of_nat (length (sections idx)) <= top_k)%Z ->
  query_tokens query <> [] ->
  Permutation (find_sections idx query top_k)
              (flat_map (positive_copy (notes idx) query) (sections idx)).
Proof.
  apply find_sections_all_matches.
Qed.

Lemma find_sections_returns_all_matches_witness :
  let idx :=
    {| sections :=
         [ {| path := "a.md"; heading := "Intro"; line_start := 1;
              line_end := 2; text := "velkommen"; score := 0 |};
           {| path := "b.md"; heading := "Plus"; line_start := 1;
              line_end := 2; text := "mere end basis"; score := 0 |} ];
       notes := ∅ |} in
  (Z.of_nat (length (sections idx)) <= 5)%Z
  /\ query_tokens "basis" <> []
  /\ Permutation (find_sections idx "basis" 5)
                 (flat_map (positive_copy (notes idx) "basis") (sections idx)).
Proof.
  intros idx.
  assert (H1 : (Z.of_nat (length (sections idx)) <= 5)%Z) by (simpl; lia).
  assert (H2 : query_tokens "basis" <> []) by (vm_compute; discriminate).
  split; [exact H1|]. split; [exact H2|].
  exact (find_sections_returns_all_matches idx "basis" 5 H1 H2).
Defined.

End SearchMore.

(* ===================================================================== *)
(** * Dictionaries *)
(* ===================================================================== *)

Section DictFacts.
Context {K V : Type} `{EqDecision K}.
Implicit Types d : Dict.dict K V.

Lemma dict_get_set_eq d k v : Dict.get (Dict.set d k v) k = Some v.
Proof.
  induction d as [|[k' v'] d IH]; simpl.
  - destruct (decide (k = k)); [reflexivity | contradiction].
  - destruct (decide (k' = k)) as [->|Hne]; simpl.
    + destruct (decide (k = k)); [reflexivity | contradiction].
    + destruct (decide (k' = k)); [contradiction | exact IH].
Qed.

Lemma dict_get_set_ne d k k0 v : k <> k0 -> Dict.get (Dict.set d k v) k0 = Dict.get d k0.
Proof.
  intros Hne. induction d as [|[k' v'] d IH]; simpl.
  - destruct (decide (k = k0)); [contradiction | reflexivity].
  - destruct (decide (k' = k)) as [->|Hk]; simpl.
    + destruct (decide (k = k0)); [contradiction | reflexivity].
    + destruct (decide (k' = k0)); [reflexivity | exact IH].
Qed.

Lemma dict_keys_set d k v x :
  In x (Dict.keys (Dict.set d k v)) <-> x = k \/ In x (Dict.keys d).
Proof.
  unfold Dict.keys. induction d as [|[k' v'] d IH]; simpl.
  - intuition.
  - destruct (decide (k' = k)) as [->|Hk]; simpl; [intuition|].
    rewrite IH. intuition.
Qed.

Lemma dict_keys_set_nodup d k v :
  List.NoDup (Dict.keys d) -> List.NoDup (Dict.keys (Dict.set d k v)).
Proof.
  unfold Dict.keys. induction d as [|[k' v'] d IH]; simpl; intros Hnd.
  - constructor; [intros [] | constructor].
  - inversion Hnd as [|? ? Hnotin Hnd']; subst.
    destruct (decide (k' = k)) as [->|Hk]; simpl; [exact Hnd|].
    constructor; [|apply IH; exact Hnd'].
    intros Hin. apply (dict_keys_set d k v k') in Hin as [-> | Hin];
      [contradiction | contradiction].
Qed.

Lemma dict_get_in d k v : Dict.get d k = Some v -> In (k, v) d.
Proof.
  induction d as [|[k' v'] d IH]; simpl; [discriminate|].
  destruct (decide (k' = k)) as [->|Hk].
  - intros [= ->]. left. reflexivity.
  - intros Hg. right. apply IH. exact Hg.
Qed.

Lemma dict_in_get d k v :
  List.NoDup (Dict.keys d) -> In (k, v) d -> Dict.get d k = Some v.
Proof.
  unfold Dict.keys. induction d as [|[k' v'] d IH]; simpl; intros Hnd Hin;
    [destruct Hin|].
  inversion Hnd as [|? ? Hnotin Hnd']; subst.
  destruct Hin as [[= -> ->] | Hin].
  - destruct (decide (k = k)); [reflexivity | contradiction].
  - destruct (decide (k' = k)) as [->|Hk].
    + exfalso. apply Hnotin. apply (in_map fst) in Hin. exact Hin.
    + apply IH; assumption.
Qed.

End DictFacts.

Lemma dict_to_map {V} (d : Dict.dict string V) (k : string) :
  (list_to_map d : gmap string V) !! k = Dict.get d k.
Proof.
  induction d as [|[k' v] d IH]; simpl; [apply lookup_empty|].
  destruct (decide (k' = k)) as [->|Hne].
  - apply lookup_insert_eq.
  - rewrite lookup_insert_ne by exact Hne. exact IH.
Qed.

(* ===================================================================== *)
(** * The built index *)
(* ===================================================================== *)

Section Built.
Import Py Re AppRank Spec SpecMore.

Lemma heading_sections_path p lines bs :
  Forall (fun s => path s = p) (heading_sections p lines bs).
Proof.
  induction bs as [|[b h] rest IH]; [constructor|].
  cbn [heading_sections]. constructor; [reflexivity | exact IH].
Qed.

Lemma split_sections_path p lines :
  Forall (fun s => path s = p) (_split_sections p lines).
Proof.
  destruct lines as [|l0 ls]; [constructor|].
  unfold _split_sections.
  destruct (boundaries_from 0 (l0 :: ls)) as [|[first h] rest].
  - constructor; [reflexivity | constructor].
  - apply Forall_app. split; [|apply heading_sections_path].
    destruct (0 <? first)%nat; constructor; [reflexivity | constructor].
Qed.

Lemma build_file_covered acc f : covered acc -> covered (build_file acc f).
Proof.
  intros (Hnd & Hsec & Hkey). unfold build_file.
  destruct (negb (endswith (lower (w_file f)) ".md")); [repeat split; assumption|].
  repeat split; cbn [v_sections v_notes].
  - apply dict_keys_set_nodup. exact Hnd.
  - intros s Hin. destruct (decide (w_rel_path f = path s)) as [Heq | Hne].
    + rewrite <- Heq, dict_get_set_eq. eexists. split; reflexivity.
    + apply in_app_or in Hin as [Hin | Hin].
      * rewrite dict_get_set_ne by exact Hne. apply Hsec. exact Hin.
      * pose proof (split_sections_path (w_rel_path f)
                      (splitlines (w_content f))) as Hp.
        rewrite Forall_forall in Hp.
        apply list_elem_of_In in Hin. apply Hp in Hin.
        symmetry in Hin. contradiction.
  - intros p meta. destruct (decide (w_rel_path f = p)) as [<- | Hne].
    + rewrite dict_get_set_eq. intros [= <-]. reflexivity.
    + rewrite dict_get_set_ne by exact Hne. apply Hkey.
Qed.

Lemma build_covered root_is_dir files : covered (build root_is_dir files).
Proof.
  assert (Hempty : covered {| v_sections := []; v_notes := [] |}).
  { repeat split; simpl; [constructor | intros s [] | intros p meta; discriminate]. }
  unfold build. destruct (negb root_is_dir); [exact Hempty|].
  revert Hempty. generalize {| v_sections := []; v_notes := [] |} as acc.
  induction files as [|f files IH]; intros acc Hacc; simpl; [exact Hacc|].
  apply IH. apply build_file_covered. exact Hacc.
Qed.

(** X4: in the index that [build] makes, every note path occurs once in
    [notes], every section has the note of its own path there (so the
    lookup of [find_sections] never misses), and without a vault root
    the index is empty. *)
Theorem build_gives_every_section_its_note
    (root_is_dir : bool) (files : list walked) :
  List.NoDup (Dict.keys (v_notes (build root_is_dir files)))
  /\ (forall s, In s (v_sections (build root_is_dir files)) ->
        exists meta,
          notes (index_of (build root_is_dir files)) !! path s = Some meta
          /\ note_path meta = path s)
  /\ (root_is_dir = false ->
      build root_is_dir files = {| v_sections := []; v_notes := [] |}).
Proof.
  destruct (build_covered root_is_dir files) as (Hnd & Hsec & _).
  split; [exact Hnd|]. split.
  - intros s Hin. destruct (Hsec s Hin) as (meta & Hget & Hp).
    exists meta. split; [|exact Hp].
    unfold index_of. cbn [notes]. rewrite dict_to_map. exact Hget.
  - intros ->. reflexivity.
Qed.

Lemma Zsum_nonneg l : Forall (fun z => (0 <= z)%Z) l -> (0 <= Zsum l)%Z.
Proof.
  induction 1 as [|z l Hz _ IH]; simpl; [lia|]. unfold Zsum in *. simpl. lia.
Qed.

Lemma spec_score_boosted ns query s meta :
  ns !! path s = Some meta ->
  alias_in_query (lower query) meta = true ->
  (20 <= spec_score ns query s)%Z.
Proof.
  intros Hget Ha. unfold spec_score. rewrite Hget.
  unfold alias_in_query in Ha. rewrite Ha.
  assert (Hsum : (0 <= Zsum (map (fun t =>
             Z.of_nat (count (lower (text s)) t)
             + 3 * Z.of_nat (count (lower (heading s)) t)
             + 2 * Z.of_nat (count (lower (path s)) t))%Z (query_tokens query)))%Z).
  { apply Zsum_nonneg. apply Forall_forall. intros z Hz.
    apply list_elem_of_In in Hz. apply in_map_iff in Hz as (t & <- & _). lia. }
  destruct (contains (lower query) (lower (text s))); lia.
Qed.

(** X5: in a built index, a section of a note that
    [find_paths_by_alias] returns for a query scores at least 20 for
    that query; so, when the query has a word token and [top_k] is at
    least the number of sections, [find_sections] returns its scored
    copy. *)
Theorem alias_paths_score_at_least_20
    (root_is_dir : bool) (files : list walked) (query : string)
    (s : Section) (top_k : Z) :
  In s (v_sections (build root_is_dir files)) ->
  In (path s) (find_paths_by_alias (build root_is_dir files) query) ->
  (20 <= spec_score (notes (index_of (build root_is_dir files))) query s)%Z
  /\ (query_tokens query <> [] ->
      (Z.of_nat (length (v_sections (build root_is_dir files))) <= top_k)%Z ->
      In (with_score s (spec_score
                          (notes (index_of (build root_is_dir files))) query s))
         (find_sections (index_of (build root_is_dir files)) query top_k)).
Proof.
  set (v := build root_is_dir files). intros Hs Hp.
  destruct (build_covered root_is_dir files) as (Hnd & _ & _). fold v in Hnd.
  assert (H20 : (20 <= spec_score (notes (index_of v)) query s)%Z).
  { unfold find_paths_by_alias in Hp.
    apply in_flat_map in Hp as ([p meta] & Hin & Hp).
    destruct (alias_in_query (lower query) meta) eqn:Ha; [|destruct Hp].
    destruct Hp as [-> | []].
    apply (spec_score_boosted _ _ _ meta); [|exact Ha].
    unfold index_of. cbn [notes]. rewrite dict_to_map.
    apply dict_in_get; assumption. }
  split; [exact H20|]. intros Hne Hk.
  eapply Permutation_in;
    [symmetry; apply (find_sections_all_matches (index_of v) query top_k Hk Hne)|].
  apply in_flat_map. exists s. split; [exact Hs|].
  unfold positive_copy.
  destruct (0 <? spec_score (notes (index_of v)) query s)%Z eqn:E;
    [left; reflexivity | apply Z.ltb_ge in E; lia].
Qed.

Lemma alias_paths_score_at_least_20_witness :
  let files :=
    [ {| w_rel_path := "gs1/GS1_Denmark-Overview.md";
         w_file := "GS1_Denmark-Overview.md";
         w_content := "GS1 Denmark er en medlemsorganisation." |} ] in
  let s := {| path := "gs1/GS1_Denmark-Overview.md"; heading := "(top)";
              line_start := 1; line_end := 1;
              text := "GS1 Denmark er en medlemsorganisation."; score := 0 |} in
  In s (v_sections (build true files))
  /\ In (path s) (find_paths_by_alias (build true files) "Hvad er GS1 Denmark?")
  /\ (20 <= spec_score (notes (index_of (build true files)))
                       "Hvad er GS1 Denmark?" s)%Z.
Proof.
  intros files s.
  assert (H1 : In s (v_sections (build true files)))
    by (vm_compute; left; reflexivity).
  assert (H2 : In (path s)
                  (find_paths_by_alias (build true files) "Hvad er GS1 Denmark?"))
    by (vm_compute; left; reflexivity).
  split; [exact H1|]. split; [exact H2|].
  exact (proj1 (alias_paths_score_at_least_20 true files _ s 0 H1 H2)).
Defined.

End Built.

(* ===================================================================== *)
(** * Top paths and price candidates *)
(* ===================================================================== *)

Section TopPaths.
Import Py Re AppRank Spec SpecMore.

Lemma add_score_keys l :
  forall acc p,
    In p (Dict.keys (fold_left add_score l acc))
    <-> In p (Dict.keys acc) \/ In p (map path l).
Proof.
  induction l as [|s l IH]; intros acc p; simpl; [tauto|].
  rewrite IH. unfold add_score at 1. rewrite dict_keys_set. intuition.
Qed.

Lemma add_score_nodup l :
  forall acc, List.NoDup (Dict.keys acc) ->
              List.NoDup (Dict.keys (fold_left add_score l acc)).
Proof.
  induction l as [|s l IH]; intros acc H; simpl; [exact H|].
  apply IH. apply dict_keys_set_nodup. exact H.
Qed.

Lemma add_score_total l :
  forall acc p,
    default 0%Z (Dict.get (fold_left add_score l acc) p)
    = (default 0%Z (Dict.get acc p) + path_total l p)%Z.
Proof.
  induction l as [|s l IH]; intros acc p.
  - unfold path_total. simpl. lia.
  - simpl. rewrite IH. unfold add_score, path_total. simpl.
    destruct (String.eqb (path s) p) eqn:E.
    + apply String.eqb_eq in E. subst p. rewrite dict_get_set_eq.
      unfold Zsum. simpl. lia.
    + apply String.eqb_neq in E. rewrite dict_get_set_ne by exact E. reflexivity.
Qed.

Lemma scores_entry sections p t :
  In (p, t) (fold_left add_score sections []) ->
  t = path_total sections p /\ exists s, In s sections /\ path s = p.
Proof.
  intros Hin. split.
  - pose proof (add_score_total sections [] p) as Ht.
    rewrite (dict_in_get _ p t) in Ht.
    + simpl in Ht. exact Ht.
    + apply add_score_nodup. constructor.
    + exact Hin.
  - apply (in_map fst) in Hin. apply add_score_keys in Hin as [[] | Hin].
    apply in_map_iff in Hin as (s & Hp & Hs). eauto.
Qed.

Lemma take_map_fst {B C} n (l : list (B * C)) : map fst (take n l) = take n (map fst l).
Proof. symmetry. apply firstn_map. Qed.

Lemma nodup_take {B} n (l : list B) : List.NoDup l -> List.NoDup (take n l).
Proof.
  intros H. rewrite <- (take_drop n l) in H.
  apply NoDup_app_remove_r in H. exact H.
Qed.

Lemma select_top_paths_facts sections limit :
  exists n ranked,
    _select_top_paths sections limit = map fst (take n ranked)
    /\ Permutation ranked (fold_left add_score sections [])
    /\ StronglySorted (desc snd) ranked
    /\ slice_to limit ranked = take n ranked.
Proof.
  unfold _select_top_paths.
  destruct (slice_to_prefix limit (sort_desc snd (fold_left add_score sections [])))
    as [n Hn].
  exists n, (sort_desc snd (fold_left add_score sections [])).
  rewrite Hn. split; [reflexivity|]. split; [apply sort_desc_perm|].
  split; [apply sort_desc_sorted | reflexivity].
Qed.

(** X6: [_select_top_paths] returns paths of the given sections, each
    once, in descending order of the summed score of their sections;
    at most [limit] of them when [limit] is not negative, and at least
    one when there is a section and [limit] is positive. *)
Theorem select_top_paths_ranks_paths (sections : list Section) (limit : Z) :
  List.NoDup (_select_top_paths sections limit)
  /\ (forall p, In p (_select_top_paths sections limit) ->
        exists s, In s sections /\ path s = p)
  /\ (forall (i j : nat) a b,
        (i < j)%nat ->
        _select_top_paths sections limit !! i = Some a ->
        _select_top_paths sections limit !! j = Some b ->
        (path_total sections b <= path_total sections a)%Z)
  /\ ((0 <= limit)%Z ->
      (Z.of_nat (length (_select_top_paths sections limit)) <= limit)%Z)
  /\ (sections <> [] -> (1 <= limit)%Z ->
      _select_top_paths sections limit <> []).
Proof.
  destruct (select_top_paths_facts sections limit)
    as (n & ranked & Hres & Hperm & Hsorted & Hslice).
  assert (Hentry : forall p t, In (p, t) (take n ranked) ->
            t = path_total sections p /\ exists s, In s sections /\ path s = p).
  { intros p t Hin. apply In_take in Hin.
    apply (Permutation_in _ Hperm) in Hin. apply scores_entry. exact Hin. }
  rewrite Hres. split; [|split; [|split; [|split]]].
  - rewrite take_map_fst. apply nodup_take.
    eapply Permutation_NoDup; [apply Permutation_map; symmetry; exact Hperm|].
    apply (add_score_nodup sections []). constructor.
  - intros p Hin. apply in_map_iff in Hin as ([p' t] & <- & Hin).
    apply Hentry in Hin. apply Hin.
  - intros i j a b Hij Ha Hb.
    rewrite list_lookup_fmap in Ha, Hb.
    destruct (take n ranked !! i) as [[a' ta]|] eqn:Ea; [|discriminate].
    destruct (take n ranked !! j) as [[b' tb]|] eqn:Eb; [|discriminate].
    simpl in Ha, Hb. injection Ha as <-. injection Hb as <-.
    pose proof (strongly_sorted_lookup (desc snd) _
                  (take_sorted _ n _ Hsorted) i j _ _ Hij Ea Eb) as Hle.
    unfold desc in Hle. simpl in Hle.
    destruct (Hentry a' ta) as [-> _];
      [apply list_elem_of_In; eapply list_elem_of_lookup_2; exact Ea|].
    destruct (Hentry b' tb) as [-> _];
      [apply list_elem_of_In; eapply list_elem_of_lookup_2; exact Eb|].
    exact Hle.
  - intros Hl. rewrite length_map, <- Hslice. apply slice_to_length. exact Hl.
  - intros Hne Hl. rewrite <- Hslice. unfold slice_to.
    destruct (0 <=? limit)%Z eqn:E; [|apply Z.leb_gt in E; lia].
    destruct ranked as [|r ranked'].
    + apply Permutation_nil in Hperm.
      destruct sections as [|s0 rest]; [contradiction|].
      assert (Hin : In (path s0) (Dict.keys (fold_left add_score (s0 :: rest) [])))
        by (apply add_score_keys; right; left; reflexivity).
      rewrite Hperm in Hin. destruct Hin.
    + destruct (Z.to_nat limit) as [|m] eqn:Em; [lia|]. simpl. discriminate.
Qed.

Lemma select_top_paths_ranks_paths_witness :
  let sections :=
    [ {| path := "a.md"; heading := "A"; line_start := 1; line_end := 2;
         text := "x"; score := 4 |};
      {| path := "b.md"; heading := "B"; line_start := 1; line_end := 2;
         text := "y"; score := 9 |};
      {| path := "a.md"; heading := "C"; line_start := 3; line_end := 4;
         text := "z"; score := 7 |} ] in
  sections <> [] /\ (1 <= 2)%Z
  /\ _select_top_paths sections 2 = ["a.md"; "b.md"]
  /\ _select_top_paths sections 2 <> [].
Proof.
  intros sections.
  assert (H1 : sections <> []) by discriminate.
  assert (H2 : (1 <= 2)%Z) by lia.
  split; [exact H1|]. split; [exact H2|]. split; [vm_compute; reflexivity|].
  destruct (select_top_paths_ranks_paths sections 2) as (_ & _ & _ & _ & H).
  exact (H H1 H2).
Defined.

Lemma find_sections_from_stored idx query top_k r :
  In r (find_sections idx query top_k) ->
  exists s, In s (sections idx) /\ path r = path s.
Proof.
  rewrite find_sections_positive.
  destruct (query_tokens query) as [|t0 ts]; [intros []|].
  destruct (slice_to_prefix top_k
              (sort_by_score (flat_map (positive_copy (notes idx) query)
                                       (sections idx)))) as [n Hn].
  rewrite Hn. intros Hin. apply In_take in Hin.
  apply (Permutation_in _ (sort_desc_perm score _)) in Hin.
  apply in_flat_map in Hin as (s & Hs & Hin).
  unfold positive_copy in Hin.
  destruct (0 <? spec_score (notes idx) query s)%Z; [|destruct Hin].
  destruct Hin as [<- | []]. exists s. split; [exact Hs | reflexivity].
Qed.

Lemma sections_for_paths_stored v paths s :
  In s (sections_for_paths v paths) <-> In s (v_sections v) /\ In (path s) paths.
Proof.
  unfold sections_for_paths. rewrite filter_In, bool_decide_eq_true.
  rewrite elem_of_list_to_set, list_elem_of_In. reflexivity.
Qed.

(** X7: the sections that [_price_candidate_sections] returns are
    always sections of the index itself, never the scored copies of
    [find_sections] (whose paths only select them); and the paths it
    returns are those of [find_paths_by_alias]. *)
Theorem price_candidates_are_stored_sections
    (v : vault) (query : string) (max_sections : Z) :
  (forall s, In s (fst (_price_candidate_sections v query max_sections)) ->
             In s (v_sections v))
  /\ snd (_price_candidate_sections v query max_sections)
     = find_paths_by_alias v query.
Proof.
  unfold _price_candidate_sections.
  destruct (find_paths_by_alias v query) as [|p0 ps] eqn:Ealias.
  2: { split; [|reflexivity]. cbn [fst]. intros s Hs.
       apply sections_for_paths_stored in Hs. apply Hs. }
  set (q := or_string _ query).
  destruct (find_sections (index_of v) q max_sections) as [|r0 rs] eqn:Escored.
  { split; [intros s []|reflexivity]. }
  split; [|reflexivity]. cbn [fst].
  destruct (select_top_paths_ranks_paths (r0 :: rs) 2) as (_ & Hfrom & _ & _ & Hne).
  destruct (_select_top_paths (r0 :: rs) 2) as [|t0 ts] eqn:Etop.
  { exfalso. apply Hne; [discriminate | lia | reflexivity]. }
  destruct (Hfrom t0 (or_introl eq_refl)) as (r & Hr & Hp).
  rewrite <- Escored in Hr.
  apply find_sections_from_stored in Hr as (s0 & Hs0 & Hp0).
  assert (Hin : In s0 (sections_for_paths v (t0 :: ts))).
  { apply sections_for_paths_stored. split; [exact Hs0|].
    left. rewrite <- Hp0, Hp. reflexivity. }
  destruct (sections_for_paths v (t0 :: ts)) as [|e0 es] eqn:Eexp; [destruct Hin|].
  cbn [or_list]. rewrite <- Eexp. intros s Hs.
  apply sections_for_paths_stored in Hs. apply Hs.
Qed.

End TopPaths.

(* ===================================================================== *)
(** * The number of sections *)
(* ===================================================================== *)

Section SectionCount.
Import Py Re AppRank Spec SpecMore.

Lemma heading_sections_length p lines bs :
  length (heading_sections p lines bs) = length bs.
Proof.
  induction bs as [|[b h] rest IH]; [reflexivity|].
  cbn [heading_sections length]. rewrite IH. reflexivity.
Qed.

Lemma boundaries_from_length lines :
  forall i, length (boundaries_from i lines) = heading_count lines.
Proof.
  unfold heading_count, is_heading_line.
  induction lines as [|line rest IH]; intros i; simpl; [reflexivity|].
  destruct (heading_match line) as [g|] eqn:E.
  - rewrite bool_decide_eq_true_2 by discriminate. simpl. rewrite IH. reflexivity.
  - rewrite bool_decide_eq_false_2 by (intros H; apply H; reflexivity). apply IH.
Qed.

(** X8: a document that is not empty is split into one section per
    heading line, and one more when its first line is no heading
    line. *)
Theorem split_sections_count (p : string) (line : string) (rest : list string) :
  length (_split_sections p (line :: rest))
  = (heading_count (line :: rest)
     + match heading_match line with Some _ => 0 | None => 1 end)%nat.
Proof.
  unfold _split_sections.
  rewrite <- (boundaries_from_length (line :: rest) 0).
  pose proof (boundaries_from_increasing (line :: rest) 0) as Hinc.
  simpl boundaries_from in *.
  destruct (heading_match line) as [g|] eqn:E.
  - cbn [Nat.ltb Nat.leb app]. rewrite heading_sections_length. lia.
  - pose proof (boundaries_from_increasing rest 1) as Hinc1.
    destruct (boundaries_from 1 rest) as [|[first h] bs] eqn:Eb.
    + reflexivity.
    + destruct Hinc1 as [Hfirst _].
      destruct (0 <? first)%nat eqn:Hpos; [|apply Nat.ltb_ge in Hpos; lia].
      rewrite length_app, heading_sections_length. simpl. lia.
Qed.

End SectionCount.

(* ===================================================================== *)
(** * Snippets of sections *)
(* ===================================================================== *)

Section SnippetBounds.
Import Py Re AppMore Spec SpecMore.

Lemma len_str l : len (str l) = length l.
Proof.
  unfold len, str. induction l as [|c l IH]; simpl; [reflexivity|].
  rewrite IH. reflexivity.
Qed.

Lemma len_chars s : length (chars s) = len s.
Proof. rewrite <- (str_chars s) at 2. rewrite len_str. reflexivity. Qed.

Lemma len_app a b : len (a +:+ b) = (len a + len b)%nat.
Proof. rewrite <- !len_chars, chars_app, length_app. reflexivity. Qed.

Lemma lstrip_with_length p s : (length (lstrip_with p s) <= length s)%nat.
Proof.
  induction s as [|c s IH]; simpl; [lia|]. destruct (p c); simpl; lia.
Qed.

Lemma rstrip_with_length p s : (length (rstrip_with p s) <= length s)%nat.
Proof.
  unfold rstrip_with. rewrite length_rev.
  pose proof (lstrip_with_length p (rev s)) as H. rewrite length_rev in H. exact H.
Qed.

Lemma snippet_excerpt_bound max_chars section :
  (0 <= max_chars)%Z ->
  (Z.of_nat (len (s_excerpt (snippet_of_section max_chars section)))
   <= max_chars + 4)%Z.
Proof.
  intros Hmax. unfold snippet_of_section. cbn [s_excerpt].
  destruct (max_chars <? Z.of_nat (len (strip (text section))))%Z eqn:E.
  - rewrite !len_app. unfold rstrip, str_to. rewrite len_str, chars_str.
    pose proof (rstrip_with_length is_space
                  (slice_to max_chars (chars (strip (text section))))) as H1.
    pose proof (slice_to_length max_chars (chars (strip (text section))) Hmax) as H2.
    change (len nl) with 1%nat. change (len "...") with 3%nat. lia.
  - apply Z.ltb_ge in E. lia.
Qed.

(** X9: [build_snippets_from_sections] makes one snippet per section,
    in order, with the path, heading, lines and score of the section;
    the excerpt is the stripped text when that is not longer than
    [max_chars], and for a [max_chars] that is not negative no excerpt
    is longer than [max_chars + 4] characters. *)
Theorem build_snippets_keeps_sections_and_bounds_excerpts
    (sections : list Section) (max_chars : Z) :
  Forall2
    (fun section snippet =>
       s_path snippet = path section
       /\ s_heading snippet = heading section
       /\ s_line_start snippet = line_start section
       /\ s_line_end snippet = line_end section
       /\ s_score snippet = score section
       /\ ((Z.of_nat (len (strip (text section))) <= max_chars)%Z ->
           s_excerpt snippet = strip (text section))
       /\ ((0 <= max_chars)%Z ->
           (Z.of_nat (len (s_excerpt snippet)) <= max_chars + 4)%Z))
    sections (build_snippets_from_sections sections max_chars).
Proof.
  unfold build_snippets_from_sections.
  induction sections as [|section rest IH]; simpl; constructor; [|exact IH].
  repeat split.
  - intros Hshort. unfold snippet_of_section. cbn [s_excerpt].
    destruct (max_chars <? Z.of_nat (len (strip (text section))))%Z eqn:E;
      [apply Z.ltb_lt in E; lia | reflexivity].
  - apply snippet_excerpt_bound.
Qed.

Lemma build_snippets_keeps_sections_and_bounds_excerpts_witness :
  let section := {| path := "a.md"; heading := "A"; line_start := 1;
                    line_end := 2;
                    text := "  Basis pakken koster 499 kr.   "; score := 3 |} in
  (0 <= 10)%Z
  /\ build_snippets_from_sections [section] 10
     = [ {| s_path := "a.md"; s_heading := "A"; s_line_start := 1;
            s_line_end := 2; s_excerpt := "Basis pakk" +:+ nl +:+ "...";
            s_score := 3 |} ]
  /\ (Z.of_nat (len (s_excerpt (snippet_of_section 10 section))) <= 10 + 4)%Z.
Proof.
  intros section.
  assert (H : (0 <= 10)%Z) by lia.
  split; [exact H|]. split; [vm_compute; reflexivity|].
  pose proof (build_snippets_keeps_sections_and_bounds_excerpts [section] 10) as HF.
  apply Forall2_cons_1 in HF as [(_ & _ & _ & _ & _ & _ & Hb) _].
  exact (Hb H).
Defined.

End SnippetBounds.

(* ===================================================================== *)
(** * The session store *)
(* ===================================================================== *)

Section SessionFacts.
Import Py Session.

Lemma slice_from_last {B} (n : Z) (l : list B) :
  (1 <= n)%Z -> slice_from (- n) l = drop (length l - Z.to_nat n) l.
Proof.
  intros Hn. unfold slice_from.
  destruct (0 <=? - n)%Z eqn:E; [apply Z.leb_le in E; lia|].
  rewrite Z.opp_involutive. reflexivity.
Qed.

(** X10: with [max_turns] of at least 1, [_update_history] leaves under
    the key of the conversation the last [max_turns] messages of the old
    history followed by the user text and the reply: never more than
    [max_turns] messages, and with [max_turns] of at least 2 the two new
    messages are the last two.  The histories under other keys and all
    sources stay as they were. *)
Theorem update_history_keeps_last_turns
    (st : store) (user_id channel_id user_text reply : string) :
  (1 <= max_turns st)%Z ->
  let old := get_session st user_id channel_id in
  let appended := old ++ [("user", user_text); ("assistant", reply)] in
  let st' := _update_history st user_id channel_id user_text reply in
  get_session st' user_id channel_id
  = drop (length appended - Z.to_nat (max_turns st)) appended
  /\ (Z.of_nat (length (get_session st' user_id channel_id)) <= max_turns st)%Z
  /\ ((2 <= max_turns st)%Z ->
      exists kept,
        get_session st' user_id channel_id
        = kept ++ [("user", user_text); ("assistant", reply)])
  /\ (forall u c, session_key u c <> session_key user_id channel_id ->
                  get_session st' u c = get_session st u c)
  /\ sources st' = sources st
  /\ max_turns st' = max_turns st.
Proof.
  intros Hmax old appended st'.
  assert (Hget : get_session st' user_id channel_id
                 = drop (length appended - Z.to_nat (max_turns st)) appended).
  { unfold st', _update_history, update_session, get_session at 1.
    cbn [sessions]. rewrite lookup_insert_eq. cbn [default].
    fold old. rewrite <- app_assoc. cbn [app]. fold appended.
    apply slice_from_last. exact Hmax. }
  split; [exact Hget|]. split; [|split; [|split; [|split]]].
  - rewrite Hget, length_drop. lia.
  - intros H2. rewrite Hget. unfold appended.
    exists (drop (length old + 2 - Z.to_nat (max_turns st)) old).
    rewrite length_app. cbn [length].
    rewrite drop_app_le by lia. reflexivity.
  - intros u c Hne. unfold st', _update_history, update_session, get_session.
    cbn [sessions]. rewrite lookup_insert_ne by (intros E; apply Hne; symmetry; exact E).
    reflexivity.
  - reflexivity.
  - reflexivity.
Qed.

Lemma update_history_keeps_last_turns_witness :
  let st := {| max_turns := 2;
               sessions := {[ "u1:c1" := [("user", "hej"); ("assistant", "dav")] ]};
               sources := ∅ |} in
  (1 <= max_turns st)%Z
  /\ get_session (_update_history st "u1" "c1" "pris?" "499 kr.") "u1" "c1"
     = [("user", "pris?"); ("assistant", "499 kr.")].
Proof.
  intros st.
  assert (H : (1 <= max_turns st)%Z) by (simpl; lia).
  split; [exact H|].
  rewrite (proj1 (update_history_keeps_last_turns st "u1" "c1" "pris?" "499 kr." H)).
  vm_compute. reflexivity.
Defined.

End SessionFacts.

(* ===================================================================== *)
(** * Headings and line scores of vault_tools.py *)
(* ===================================================================== *)

Section ToolsFacts.
Import Py Re VaultTools Spec.

Lemma find_heading_loop_nonempty upwards : find_heading_loop upwards <> "".
Proof.
  induction upwards as [|l rest IH]; simpl; [discriminate|].
  destruct (startswith (strip l) "#"); [|exact IH].
  destruct (truthy (strip (lstrip_hashes (strip l)))) eqn:E; [|discriminate].
  apply truthy_true. exact E.
Qed.

(** X11: [_find_heading] never returns the empty text; it returns
    (top) for an empty document and for a negative index, treats an
    index past the end as the last line, and for an index inside the
    document does not depend on the lines after the index. *)
Theorem find_heading_total (lines : list string) (index : Z) :
  _find_heading lines index <> ""
  /\ (lines = [] \/ (index < 0)%Z -> _find_heading lines index = "(top)")
  /\ ((Z.of_nat (length lines) <= index)%Z ->
      _find_heading lines index
      = _find_heading lines (Z.of_nat (length lines) - 1))
  /\ (forall more,
        (0 <= index < Z.of_nat (length lines))%Z ->
        _find_heading (lines ++ more) index = _find_heading lines index).
Proof.
  split; [|split; [|split]].
  - unfold _find_heading. destruct lines as [|l0 ls]; [discriminate|].
    destruct (_ <? 0)%Z; [discriminate | apply find_heading_loop_nonempty].
  - intros [-> | Hneg]; [reflexivity|].
    unfold _find_heading. destruct lines as [|l0 ls]; [reflexivity|].
    destruct (Z.of_nat (length (l0 :: ls)) <=? index)%Z eqn:E;
      [apply Z.leb_le in E; lia|].
    destruct (index <? 0)%Z eqn:E2; [reflexivity | apply Z.ltb_ge in E2; lia].
  - intros Hpast. unfold _find_heading. destruct lines as [|l0 ls]; [reflexivity|].
    destruct (Z.of_nat (length (l0 :: ls)) <=? index)%Z eqn:E;
      [|apply Z.leb_gt in E; lia].
    destruct (Z.of_nat (length (l0 :: ls))
              <=? Z.of_nat (length (l0 :: ls)) - 1)%Z eqn:E2;
      [apply Z.leb_le in E2; lia | reflexivity].
  - intros more [Hlo Hhi]. unfold _find_heading.
    destruct lines as [|l0 ls]; [simpl in Hhi; lia|].
    change ((l0 :: ls) ++ more) with (l0 :: (ls ++ more)).
    destruct (Z.of_nat (length (l0 :: ls ++ more)) <=? index)%Z eqn:E.
    { apply Z.leb_le in E. cbn [length] in *. rewrite length_app in E. lia. }
    destruct (Z.of_nat (length (l0 :: ls)) <=? index)%Z eqn:E2;
      [apply Z.leb_le in E2; lia|].
    destruct (index <? 0)%Z; [reflexivity|].
    change (l0 :: ls ++ more) with ((l0 :: ls) ++ more).
    rewrite take_app_le by lia. reflexivity.
Qed.

Lemma find_heading_total_witness :
  let lines := ["# Priser"; "Basis 499 kr."; "##"; "Plus 899 kr."] in
  (0 <= 1 < Z.of_nat (length lines))%Z
  /\ _find_heading (lines ++ ["# Senere"]) 1 = "Priser"
  /\ _find_heading lines 3 = "(top)".
Proof.
  intros lines.
  assert (H : (0 <= 1 < Z.of_nat (length lines))%Z) by (simpl; lia).
  split; [exact H|]. split; [|vm_compute; reflexivity].
  destruct (find_heading_total lines 1) as (_ & _ & _ & Hind).
  rewrite (Hind ["# Senere"] H). vm_compute. reflexivity.
Defined.

Lemma count_l_positive sub s :
  sub <> [] -> ((0 < count_l sub 0 s)%nat <-> contains_l sub s = true).
Proof.
  intros Hne. induction s as [|c s IH]; simpl.
  - destruct sub; [contradiction|]. simpl. split; [lia | discriminate].
  - destruct (is_prefix sub (c :: s)); simpl; [split; [reflexivity | lia]|].
    exact IH.
Qed.

Lemma count_positive s sub :
  sub <> "" -> ((0 < count s sub)%nat <-> contains sub s = true).
Proof.
  intros Hne. unfold count, contains.
  destruct (chars sub) as [|c l] eqn:E.
  - exfalso. apply Hne. apply chars_inj. rewrite E. reflexivity.
  - rewrite <- E. apply count_l_positive. rewrite E. discriminate.
Qed.

Lemma score_line_fold line terms :
  forall acc,
    fold_left (fun score term =>
                 if truthy term then (score + Z.of_nat (count line term))%Z
                 else score) terms acc
    = (acc + Zsum (map (fun term => if truthy term
                                    then Z.of_nat (count line term) else 0%Z)
                       terms))%Z.
Proof.
  induction terms as [|t terms IH]; intros acc; simpl; [unfold Zsum; simpl; lia|].
  rewrite IH. unfold Zsum. simpl. destruct (truthy t); lia.
Qed.

Lemma Zsum_positive l :
  Forall (fun z => (0 <= z)%Z) l ->
  ((0 < Zsum l)%Z <-> exists z, In z l /\ (0 < z)%Z).
Proof.
  induction 1 as [|z l Hz Hl IH]; unfold Zsum in *; simpl.
  - split; [lia | intros (z & [] & _)].
  - pose proof (Zsum_nonneg l Hl) as Hs. unfold Zsum in Hs. split.
    + intros Hpos. destruct (Z.ltb_spec 0 z) as [Hzp | Hz0].
      * exists z. split; [left; reflexivity | exact Hzp].
      * destruct IH as [IH _]. destruct IH as (y & Hy & Hyp); [lia|].
        exists y. split; [right; exact Hy | exact Hyp].
    + intros (y & [<- | Hy] & Hyp); [lia|].
      destruct IH as [_ IH]. specialize (IH (ex_intro _ y (conj Hy Hyp))). lia.
Qed.

(** X12: [_score_line] is positive exactly when a term that is not
    empty occurs in the lowercased line, and it is never negative. *)
Theorem score_line_positive_iff_term_occurs (line : string) (terms : list string) :
  (0 <= _score_line line terms)%Z
  /\ ((0 < _score_line line terms)%Z
      <-> exists term, In term terms /\ term <> ""
                       /\ contains term (lower line) = true).
Proof.
  unfold _score_line. rewrite score_line_fold. rewrite Z.add_0_l.
  set (f := fun term => if truthy term
                        then Z.of_nat (count (lower line) term) else 0%Z).
  assert (Hnn : Forall (fun z => (0 <= z)%Z) (map f terms)).
  { apply Forall_forall. intros z Hz. apply list_elem_of_In in Hz.
    apply in_map_iff in Hz as (t & <- & _). unfold f. destruct (truthy t); lia. }
  split; [apply Zsum_nonneg; exact Hnn|].
  rewrite (Zsum_positive _ Hnn). split.
  - intros (z & Hz & Hpos). apply in_map_iff in Hz as (t & <- & Ht).
    unfold f in Hpos. destruct (truthy t) eqn:E; [|lia].
    apply truthy_true in E. exists t. repeat split; try assumption.
    apply count_positive; [exact E | lia].
  - intros (t & Ht & Hne & Hc). exists (f t). split; [apply in_map; exact Ht|].
    unfold f. rewrite (proj2 (truthy_true t) Hne).
    apply (count_positive _ _ Hne) in Hc. lia.
Qed.

End ToolsFacts.

(* ===================================================================== *)
(** * Which sections match, and where price items lie *)
(* ===================================================================== *)

Section Matches.
Import Py Re AppMore Spec SpecMore.

Lemma spec_score_positive ns query s :
  (0 < spec_score ns query s)%Z
  <-> (exists meta alias,
         ns !! path s = Some meta /\ In alias (aliases meta)
         /\ contains alias (lower query) = true)
      \/ (exists t, In t (query_tokens query)
                    /\ (contains t (lower (text s)) = true
                        \/ contains t (lower (heading s)) = true
                        \/ contains t (lower (path s)) = true))
      \/ contains (lower query) (lower (text s)) = true.
Proof.
  unfold spec_score.
  set (f := fun t => (Z.of_nat (count (lower (text s)) t)
                      + 3 * Z.of_nat (count (lower (heading s)) t)
                      + 2 * Z.of_nat (count (lower (path s)) t))%Z).
  assert (Hnn : Forall (fun z => (0 <= z)%Z) (map f (query_tokens query))).
  { apply Forall_forall. intros z Hz. apply list_elem_of_In in Hz.
    apply in_map_iff in Hz as (t & <- & _). unfold f. lia. }
  pose proof (Zsum_nonneg _ Hnn) as Hsum.
  pose proof (Zsum_positive _ Hnn) as Hpos.
  assert (Htok : (0 < Zsum (map f (query_tokens query)))%Z
                 <-> exists t, In t (query_tokens query)
                    /\ (contains t (lower (text s)) = true
                        \/ contains t (lower (heading s)) = true
                        \/ contains t (lower (path s)) = true)).
  { rewrite Hpos. split.
    - intros (z & Hz & Hzp). apply in_map_iff in Hz as (t & <- & Ht).
      exists t. split; [exact Ht|].
      pose proof (query_tokens_truthy query t Ht) as Hne. apply truthy_true in Hne.
      unfold f in Hzp.
      destruct (Nat.eq_dec (count (lower (text s)) t) 0) as [E1|E1];
        [|left; apply count_positive; [exact Hne | lia]].
      destruct (Nat.eq_dec (count (lower (heading s)) t) 0) as [E2|E2];
        [|right; left; apply count_positive; [exact Hne | lia]].
      right. right. apply count_positive; [exact Hne | lia].
    - intros (t & Ht & Hc). exists (f t). split; [apply in_map; exact Ht|].
      pose proof (query_tokens_truthy query t Ht) as Hne. apply truthy_true in Hne.
      unfold f. destruct Hc as [Hc | [Hc | Hc]];
        apply (count_positive _ _ Hne) in Hc; lia. }
  assert (Halias :
    existsb (fun alias => contains alias (lower query))
            match ns !! path s with Some note => aliases note | None => [] end
    = true
    <-> exists meta alias,
         ns !! path s = Some meta /\ In alias (aliases meta)
         /\ contains alias (lower query) = true).
  { rewrite existsb_exists. split.
    - intros (alias & Hin & Hc). destruct (ns !! path s) as [meta|]; [|destruct Hin].
      exists meta, alias. auto.
    - intros (meta & alias & -> & Hin & Hc). exists alias. auto. }
  rewrite <- Halias, <- Htok.
  destruct (existsb _ _); destruct (contains (lower query) (lower (text s)));
    split; intros H; try lia; auto;
    try (destruct H as [H | [H | H]]; try discriminate; lia).
Qed.

Lemma positive_copy_member ns query sections s :
  In s sections ->
  (In (with_score s (spec_score ns query s))
      (flat_map (positive_copy ns query) sections)
   <-> (0 < spec_score ns query s)%Z).
Proof.
  intros Hs. rewrite in_flat_map. split.
  - intros (s' & _ & Hin). unfold positive_copy in Hin.
    destruct (0 <? spec_score ns query s')%Z eqn:E; [|destruct Hin].
    destruct Hin as [Heq | []]. apply Z.ltb_lt in E.
    injection Heq as _ _ _ _ _ Hsc. lia.
  - intros Hpos. exists s. split; [exact Hs|]. unfold positive_copy.
    destruct (0 <? spec_score ns query s)%Z eqn:E;
      [left; reflexivity | apply Z.ltb_ge in E; lia].
Qed.

(** X13: when the query has a word token and [top_k] is at least the
    number of stored sections, a stored section comes back from
    [find_sections] (as its scored copy) exactly when an alias of its
    note is in the lowercased query, or a token of the query occurs in
    its lowercased body, heading or path, or the lowercased query
    occurs in its lowercased body. *)
Theorem find_sections_returns_exactly_the_matches
    (idx : index_state) (query : string) (top_k : Z) (s : Section) :
  (Z.of_nat (length (sections idx)) <= top_k)%Z ->
  query_tokens query <> [] ->
  In s (sections idx) ->
  (In (with_score s (spec_score (notes idx) query s))
      (find_sections idx query top_k)
   <-> (exists meta alias,
          notes idx !! path s = Some meta /\ In alias (aliases meta)
          /\ contains alias (lower query) = true)
       \/ (exists t, In t (query_tokens query)
                     /\ (contains t (lower (text s)) = true
                         \/ contains t (lower (heading s)) = true
                         \/ contains t (lower (path s)) = true))
       \/ contains (lower query) (lower (text s)) = true).
Proof.
  intros Hk Hne Hs. rewrite <- spec_score_positive.
  rewrite <- (positive_copy_member (notes idx) query (sections idx) s Hs).
  pose proof (find_sections_all_matches idx query top_k Hk Hne) as Hperm.
  split; intros H.
  - eapply Permutation_in; [exact Hperm | exact H].
  - eapply Permutation_in; [symmetry; exact Hperm | exact H].
Qed.

Lemma find_sections_returns_exactly_the_matches_witness :
  let s := {| path := "b.md"; heading := "Plus"; line_start := 1;
              line_end := 2; text := "mere end basis"; score := 0 |} in
  let idx :=
    {| sections :=
         [ {| path := "a.md"; heading := "Intro"; line_start := 1;
              line_end := 2; text := "velkommen"; score := 0 |}; s ];
       notes := ∅ |} in
  (Z.of_nat (length (sections idx)) <= 5)%Z
  /\ query_tokens "Basis?" <> []
  /\ In s (sections idx)
  /\ In (with_score s (spec_score (notes idx) "Basis?" s))
        (find_sections idx "Basis?" 5).
Proof.
  intros s idx.
  assert (H1 : (Z.of_nat (length (sections idx)) <= 5)%Z) by (simpl; lia).
  assert (H2 : query_tokens "Basis?" <> []) by (vm_compute; discriminate).
  assert (H3 : In s (sections idx)) by (right; left; reflexivity).
  split; [exact H1|]. split; [exact H2|]. split; [exact H3|].
  apply (find_sections_returns_exactly_the_matches idx "Basis?" 5 s H1 H2 H3).
  right. left. exists "basis". split; [vm_compute; left; reflexivity|].
  left. vm_compute. reflexivity.
Defined.

Lemma enumerate_from_bound {B} (l : list B) :
  forall i idx x, In (idx, x) (enumerate_from i l) ->
                  (i <= idx < i + length l)%nat.
Proof.
  induction l as [|y l IH]; intros i idx x Hin; [destruct Hin|].
  simpl in Hin. destruct Hin as [[= <- <-] | Hin]; simpl; [lia|].
  apply IH in Hin. lia.
Qed.

Lemma line_items_shape section lines idx line item :
  In item (line_items section lines idx line) ->
  exists name price, item = make_item section idx name price.
Proof.
  unfold line_items.
  destruct (_parse_table_row line) as [[|c cs]|].
  2: {
    destruct (find_price_cell (c :: cs)) as [price_cell|]; [|intros []].
    destruct (truthy price_cell); [|intros []].
    destruct (_extract_price_from_line price_cell) as [pr|]; [|intros []].
    destruct (truthy _ && truthy pr); [|intros []].
    intros [<- | []]. eauto. }
  all: destruct (_extract_price_from_line line) as [price|]; [|intros []].
  all: destruct (negb (truthy price)); [intros []|].
  all: destruct (truthy _); [|intros []].
  all: intros [<- | []]; eauto.
Qed.



End Matches.

(* ===================================================================== *)
(** * Filtering price items by the words of the query *)
(* ===================================================================== *)

Section FilterItems.
Import Py Re AppMore Spec SpecMore.

Lemma filter_sublist {B} (f : B -> bool) (l : list B) :
  sublist (List.filter f l) l.
Proof.
  induction l as [|x l IH]; simpl; [constructor|].
  destruct (f x); [apply sublist_skip | apply sublist_cons]; exact IH.
Qed.

Lemma dedupe_by_name_spec items :
  forall seen,
    sublist (dedupe_by_name seen items) items
    /\ List.NoDup (map filter_key (dedupe_by_name seen items))
    /\ (forall item, In item (dedupe_by_name seen items) -> filter_key item ∉ seen)
    /\ (forall item, In item items ->
          filter_key item ∈ seen
          \/ exists item', In item' (dedupe_by_name seen items)
                           /\ filter_key item' = filter_key item).
Proof.
  induction items as [|x items IH]; intros seen; simpl.
  - split; [constructor|]. split; [constructor|]. split; intros item [].
  - destruct (decide (filter_key x ∈ seen)) as [Hin | Hnotin].
    + destruct (IH seen) as (Hsub & Hnd & Hfresh & Hall).
      split; [apply sublist_cons; exact Hsub|]. split; [exact Hnd|].
      split; [exact Hfresh|].
      intros item [<- | Hitem]; [left; exact Hin | apply Hall; exact Hitem].
    + destruct (IH ({[ filter_key x ]} ∪ seen)) as (Hsub & Hnd & Hfresh & Hall).
      split; [apply sublist_skip; exact Hsub|].
      split.
      { simpl. constructor; [|exact Hnd].
        intros Hx. apply in_map_iff in Hx as (y & Hy & Hyin).
        apply (Hfresh y Hyin). rewrite Hy.
        apply elem_of_union. left. apply elem_of_singleton. reflexivity. }
      split.
      { intros item [<- | Hitem]; [exact Hnotin|].
        intros Hs. apply (Hfresh item Hitem). apply elem_of_union. right. exact Hs. }
      intros item [<- | Hitem].
      * right. exists x. split; [left; reflexivity | reflexivity].
      * destruct (Hall item Hitem) as [Hs | (item' & Hin' & Hk)].
        -- apply elem_of_union in Hs as [Hs | Hs].
           ++ apply elem_of_singleton in Hs. right. exists x.
              split; [left; reflexivity | symmetry; exact Hs].
           ++ left. exact Hs.
        -- right. exists item'. split; [right; exact Hin' | exact Hk].
Qed.

Lemma name_has_token_spec tokens item :
  name_has_token tokens item = true <-> names_token tokens item.
Proof. unfold name_has_token, names_token. apply existsb_exists. Qed.

(** X15: when the query has a price token, [filter_price_items] keeps a
    sub-list of the items, in their order; the kept items differ
    pairwise in (lowercased name, price); the name of each contains a
    token of the query; and every item whose name contains a token is
    represented by a kept item of the same lowercased name and price. *)
Theorem filter_price_items_keeps_named_items
    (items : list PriceItem) (query : string) :
  _query_tokens query <> [] ->
  let kept := filter_price_items items query in
  sublist kept items
  /\ List.NoDup (map filter_key kept)
  /\ (forall item, In item kept -> names_token (_query_tokens query) item)
  /\ (forall item, In item items -> names_token (_query_tokens query) item ->
        exists item', In item' kept /\ filter_key item' = filter_key item).
Proof.
  intros Hne kept. unfold kept, filter_price_items.
  destruct (_query_tokens query) as [|t ts] eqn:Etok; [contradiction|].
  set (tokens := t :: ts).
  destruct (dedupe_by_name_spec (List.filter (name_has_token tokens) items) ∅)
    as (Hsub & Hnd & _ & Hall).
  split; [etransitivity; [exact Hsub | apply filter_sublist]|].
  split; [exact Hnd|].
  split.
  - intros item Hin.
    apply list_elem_of_In in Hin.
    apply (fun H => elem_of_sublist _ _ _ H Hsub) in Hin.
    apply list_elem_of_In in Hin.
    apply filter_In in Hin as [_ Hin]. apply name_has_token_spec. exact Hin.
  - intros item Hin Hname.
    destruct (Hall item) as [Hs | Hex].
    + apply filter_In. split; [exact Hin | apply name_has_token_spec; exact Hname].
    + apply elem_of_empty in Hs. destruct Hs.
    + exact Hex.
Qed.

Lemma filter_price_items_keeps_named_items_witness :
  let a := {| i_name := "GLN Basis"; i_price := "499 kr."; i_path := "p.md";
              i_heading := "Priser"; i_line_start := 3; i_line_end := 4 |} in
  let b := {| i_name := "Plus"; i_price := "999 kr."; i_path := "p.md";
              i_heading := "Priser"; i_line_start := 5; i_line_end := 6 |} in
  _query_tokens "Hvad koster GLN?" <> []
  /\ sublist (filter_price_items [a; b; a] "Hvad koster GLN?") [a; b; a]
  /\ filter_price_items [a; b; a] "Hvad koster GLN?" = [a].
Proof.
  intros a b.
  assert (H : _query_tokens "Hvad koster GLN?" <> []) by (vm_compute; discriminate).
  split; [exact H|].
  split; [|vm_compute; reflexivity].
  exact (proj1 (filter_price_items_keeps_named_items [a; b; a] "Hvad koster GLN?" H)).
Defined.

End FilterItems.

(* ===================================================================== *)
(** * Inclusion snippets *)
(* ===================================================================== *)

Section Inclusion.
Import Py Re AppMore Spec SpecMore.

Lemma inclusion_snippet_window section idx :
  (idx < length (splitlines (text section)))%nat ->
  window_of section (inclusion_snippet section (splitlines (text section)) idx).
Proof.
  intros Hidx. unfold window_of, inclusion_snippet.
  cbn [s_path s_heading s_score s_line_start s_line_end].
  repeat split; lia.
Qed.

Lemma inclusion_lines_inv (P : Snippet -> Prop) section lines query_tokens limit :
  (forall idx, (idx < length lines)%nat -> P (inclusion_snippet section lines idx)) ->
  forall todo snippets out done,
    (forall idx line, In (idx, line) todo -> (idx < length lines)%nat) ->
    Forall P snippets ->
    (Z.of_nat (length snippets) < Z.max limit 1)%Z ->
    inclusion_lines section lines query_tokens limit todo snippets = (out, done) ->
    Forall P out
    /\ (Z.of_nat (length out) <= Z.max limit 1)%Z
    /\ (done = false -> (Z.of_nat (length out) < Z.max limit 1)%Z).
Proof.
  intros HP. induction todo as [|[idx line] rest IH];
    intros snippets out done Htodo Hall Hlen Hrun; simpl in Hrun.
  - injection Hrun as <- <-. split; [exact Hall|]. split; [lia | intros _; exact Hlen].
  - assert (Hrest : forall i l, In (i, l) rest -> (i < length lines)%nat)
      by (intros i l Hin; apply (Htodo i l); right; exact Hin).
    destruct (negb (existsb _ query_tokens));
      [apply (IH snippets); [exact Hrest | exact Hall | exact Hlen | exact Hrun]|].
    destruct (negb _);
      [apply (IH snippets); [exact Hrest | exact Hall | exact Hlen | exact Hrun]|].
    assert (Hall' : Forall P (snippets ++ [inclusion_snippet section lines idx])).
    { apply Forall_app. split; [exact Hall|]. constructor; [|constructor].
      apply HP. apply (Htodo idx line). left. reflexivity. }
    assert (Hlen' : length (snippets ++ [inclusion_snippet section lines idx])
                    = S (length snippets))
      by (rewrite length_app; simpl; lia).
    destruct (limit <=? Z.of_nat (length (snippets ++ _)))%Z eqn:E.
    + injection Hrun as <- <-. split; [exact Hall'|].
      split; [rewrite Hlen'; lia | discriminate].
    + apply Z.leb_gt in E.
      apply (IH (snippets ++ [inclusion_snippet section lines idx]));
        [exact Hrest | exact Hall' | rewrite Hlen' in *; lia | exact Hrun].
Qed.

Lemma inclusion_sections_inv query_tokens limit all :
  forall sections snippets,
    (forall s, In s sections -> In s all) ->
    Forall (fun s => exists section, In section all /\ window_of section s) snippets ->
    (Z.of_nat (length snippets) < Z.max limit 1)%Z ->
    Forall (fun s => exists section, In section all /\ window_of section s)
           (inclusion_sections query_tokens limit sections snippets)
    /\ (Z.of_nat (length (inclusion_sections query_tokens limit sections snippets))
        <= Z.max limit 1)%Z.
Proof.
  intros secs. induction secs as [|section rest IH];
    intros snippets Hsub Hall Hlen; simpl.
  - split; [exact Hall | lia].
  - destruct (inclusion_lines section (splitlines (text section)) query_tokens limit
                (enumerate_from 0 (splitlines (text section))) snippets)
      as [out done] eqn:Erun.
    destruct (inclusion_lines_inv
                (fun s => exists section, In section all /\ window_of section s)
                section (splitlines (text section)) query_tokens limit)
      with (todo := enumerate_from 0 (splitlines (text section)))
           (snippets := snippets) (out := out) (done := done)
      as (Hout & Hle & Hlt); try assumption.
    + intros idx Hidx. exists section.
      split; [apply Hsub; left; reflexivity | apply inclusion_snippet_window; exact Hidx].
    + intros idx line Hin. apply enumerate_from_bound in Hin. lia.
    + destruct done; [split; assumption|].
      apply IH; [intros s Hs; apply Hsub; right; exact Hs | exact Hout | auto].
Qed.

(** X16: [extract_inclusion_snippets] returns at most [max(limit, 1)]
    snippets, and each of them is a window of at most three lines inside
    one of the given sections, with that section's path, heading and
    score. *)
Theorem inclusion_snippets_are_bounded_windows
    (sections : list Section) (query : string) (limit : Z) :
  let out := extract_inclusion_snippets sections query limit in
  (Z.of_nat (length out) <= Z.max limit 1)%Z
  /\ forall s, In s out -> exists section, In section sections /\ window_of section s.
Proof.
  intros out. unfold out, extract_inclusion_snippets.
  destruct (_query_tokens query) as [|t ts]; [split; [simpl; lia | intros s []]|].
  destruct (inclusion_sections_inv (t :: ts) limit sections sections [])
    as (Hall & Hle); [auto | constructor | simpl; lia |].
  split; [exact Hle|].
  intros s Hs. rewrite Forall_forall in Hall. apply Hall.
  apply list_elem_of_In. exact Hs.
Qed.

End Inclusion.

(* ===================================================================== *)
(** * Price snippets: one per path and heading *)
(* ===================================================================== *)

Section PriceSnippets.
Import Py Re AppMore Spec SpecMore.

Lemma item_group_app a b k : item_group (a ++ b) k = item_group a k ++ item_group b k.
Proof. unfold item_group. apply List.filter_app. Qed.

Lemma item_group_In items k item :
  In item (item_group items k) <-> In item items /\ (i_path item, i_heading item) = k.
Proof.
  unfold item_group. rewrite filter_In. rewrite bool_decide_eq_true. reflexivity.
Qed.

Lemma group_items_get items :
  forall d pre,
    List.NoDup (Dict.keys d) ->
    (forall k, Dict.get d k
               = match item_group pre k with [] => None | g => Some g end) ->
    List.NoDup (Dict.keys (fold_left group_item items d))
    /\ forall k, Dict.get (fold_left group_item items d) k
                 = match item_group (pre ++ items) k with
                   | [] => None | g => Some g end.
Proof.
  induction items as [|x items IH]; intros d pre Hnd Hget; simpl.
  - rewrite app_nil_r. split; assumption.
  - replace (pre ++ x :: items) with ((pre ++ [x]) ++ items)
      by (rewrite <- app_assoc; reflexivity).
    apply IH; [apply dict_keys_set_nodup; exact Hnd|].
    intros k. unfold group_item. rewrite item_group_app.
    destruct (decide ((i_path x, i_heading x) = k)) as [<- | Hne].
    + rewrite dict_get_set_eq. rewrite Hget.
      assert (Hx : item_group [x] (i_path x, i_heading x) = [x]).
      { unfold item_group. simpl. rewrite bool_decide_eq_true_2 by reflexivity.
        reflexivity. }
      rewrite Hx.
      destruct (item_group pre (i_path x, i_heading x)); reflexivity.
    + rewrite dict_get_set_ne by exact Hne. rewrite Hget.
      assert (Hx : item_group [x] k = []).
      { unfold item_group. simpl. rewrite bool_decide_eq_false_2 by exact Hne.
        reflexivity. }
      rewrite Hx, app_nil_r. reflexivity.
Qed.

Lemma fold_min_spec l : forall x,
  (fold_left Z.min l x <= x)%Z
  /\ (forall y, In y l -> fold_left Z.min l x <= y)%Z
  /\ In (fold_left Z.min l x) (x :: l).
Proof.
  induction l as [|a l IH]; intros x; simpl.
  - split; [lia|]. split; [intros y [] | left; reflexivity].
  - destruct (IH (Z.min x a)) as (H1 & H2 & H3).
    split; [lia|]. split.
    + intros y [<- | Hy]; [lia | apply H2; exact Hy].
    + destruct H3 as [H3 | H3]; [|right; right; exact H3].
      rewrite <- H3.
      destruct (Z.min_spec x a) as [[_ E] | [_ E]]; rewrite E;
        [left | right; left]; reflexivity.
Qed.

Lemma fold_max_spec l : forall x,
  (x <= fold_left Z.max l x)%Z
  /\ (forall y, In y l -> y <= fold_left Z.max l x)%Z
  /\ In (fold_left Z.max l x) (x :: l).
Proof.
  induction l as [|a l IH]; intros x; simpl.
  - split; [lia|]. split; [intros y [] | left; reflexivity].
  - destruct (IH (Z.max x a)) as (H1 & H2 & H3).
    split; [lia|]. split.
    + intros y [<- | Hy]; [lia | apply H2; exact Hy].
    + destruct H3 as [H3 | H3]; [|right; right; exact H3].
      rewrite <- H3.
      destruct (Z.max_spec x a) as [[_ E] | [_ E]]; rewrite E;
        [right; left | left]; reflexivity.
Qed.

Lemma min_list_spec l m :
  min_list l = Some m -> (forall y, In y l -> m <= y)%Z /\ In m l.
Proof.
  destruct l as [|x l]; [discriminate|]. simpl. intros [= <-].
  destruct (fold_min_spec l x) as (H1 & H2 & H3).
  split; [|exact H3]. intros y [<- | Hy]; [exact H1 | apply H2; exact Hy].
Qed.

Lemma max_list_spec l m :
  max_list l = Some m -> (forall y, In y l -> y <= m)%Z /\ In m l.
Proof.
  destruct l as [|x l]; [discriminate|]. simpl. intros [= <-].
  destruct (fold_max_spec l x) as (H1 & H2 & H3).
  split; [|exact H3]. intros y [<- | Hy]; [exact H1 | apply H2; exact Hy].
Qed.

Lemma group_snippet_some sep k g :
  g <> [] -> exists s, group_snippet sep (k, g) = Some s.
Proof.
  intros Hne. destruct k as [p h]. destruct g as [|x g]; [contradiction|].
  simpl. eauto.
Qed.

Lemma group_snippet_spec sep k g s :
  group_snippet sep (k, g) = Some s ->
  (s_path s, s_heading s) = k
  /\ s_excerpt s
     = join nl (map (fun item => i_name item +:+ sep +:+ i_price item) g)
  /\ s_score s = 999%Z
  /\ (forall item, In item g ->
        (s_line_start s <= i_line_start item)%Z
        /\ (i_line_end item <= s_line_end s)%Z)
  /\ (exists item, In item g /\ i_line_start item = s_line_start s)
  /\ (exists item, In item g /\ i_line_end item = s_line_end s).
Proof.
  destruct k as [p h]. unfold group_snippet.
  destruct (min_list (map i_line_start g)) as [lo|] eqn:Elo; [|discriminate].
  destruct (max_list (map i_line_end g)) as [hi|] eqn:Ehi; [|discriminate].
  intros [= <-]. cbn [s_path s_heading s_excerpt s_score s_line_start s_line_end].
  apply min_list_spec in Elo as [Hlo Hlo_in].
  apply max_list_spec in Ehi as [Hhi Hhi_in].
  split; [reflexivity|]. split; [reflexivity|]. split; [reflexivity|].
  split.
  - intros item Hin. split;
      [apply Hlo; apply in_map; exact Hin | apply Hhi; apply in_map; exact Hin].
  - split.
    + apply in_map_iff in Hlo_in as (item & E & Hin). eauto.
    + apply in_map_iff in Hhi_in as (item & E & Hin). eauto.
Qed.

Lemma collect_snippets_spec sep d :
  (forall k g, In (k, g) d -> g <> []) ->
  exists l,
    collect_snippets sep d = Some l
    /\ map (fun s => (s_path s, s_heading s)) l = Dict.keys d
    /\ (forall s, In s l ->
          exists k g, In (k, g) d /\ group_snippet sep (k, g) = Some s)
    /\ (forall k g, In (k, g) d ->
          exists s, In s l /\ group_snippet sep (k, g) = Some s).
Proof.
  induction d as [|[k g] d IH]; intros Hne.
  - exists []. simpl. split; [reflexivity|]. split; [reflexivity|].
    split; [intros s [] | intros k g []].
  - destruct IH as (l & Hl & Hkeys & Hfrom & Hto);
      [intros k' g' Hin; apply (Hne k' g'); right; exact Hin|].
    destruct (group_snippet_some sep k g) as (s & Hs);
      [apply (Hne k g); left; reflexivity|].
    exists (s :: l). cbn [collect_snippets]. rewrite Hs, Hl.
    split; [reflexivity|].
    split.
    { cbn [map Dict.keys]. f_equal; [|exact Hkeys].
      apply group_snippet_spec in Hs as [Hk _]. exact Hk. }
    split.
    + intros s' [<- | Hin]; [exists k, g; split; [left; reflexivity | exact Hs]|].
      destruct (Hfrom s' Hin) as (k' & g' & Hin' & Hs').
      exists k', g'. split; [right; exact Hin' | exact Hs'].
    + intros k' g' [[= <- <-] | Hin]; [exists s; split; [left; reflexivity | exact Hs]|].
      destruct (Hto k' g' Hin) as (s' & Hin' & Hs').
      exists s'. split; [right; exact Hin' | exact Hs'].
Qed.

(** X17: [build_price_snippets_from_items] never fails on an empty
    group.  It gives one snippet per (path, heading) that an item has
    and no two for the same pair; the snippet of a pair has score 999,
    lists the items of the pair in their order, one line each, starts
    at the first line any of them starts at and ends at the last line
    any of them ends at. *)
Theorem price_snippets_group_items_by_heading (sep : string) (items : list PriceItem) :
  exists snippets,
    build_price_snippets_from_items sep items = Some snippets
    /\ List.NoDup (map (fun s => (s_path s, s_heading s)) snippets)
    /\ (forall item, In item items ->
          exists s, In s snippets
                    /\ s_path s = i_path item /\ s_heading s = i_heading item)
    /\ (forall s, In s snippets ->
          let group := item_group items (s_path s, s_heading s) in
          group <> []
          /\ s_score s = 999%Z
          /\ s_excerpt s
             = join nl (map (fun item => i_name item +:+ sep +:+ i_price item) group)
          /\ (forall item, In item group ->
                (s_line_start s <= i_line_start item)%Z
                /\ (i_line_end item <= s_line_end s)%Z)
          /\ (exists item, In item group /\ i_line_start item = s_line_start s)
          /\ (exists item, In item group /\ i_line_end item = s_line_end s)).
Proof.
  unfold build_price_snippets_from_items.
  destruct (group_items_get items [] []) as (Hnd & Hget);
    [constructor | intros k; reflexivity |].
  simpl in Hget. set (d := fold_left group_item items []) in *.
  assert (Hgroups : forall k g, In (k, g) d -> g = item_group items k /\ g <> []).
  { intros k g Hin. apply (dict_in_get d k g Hnd) in Hin.
    rewrite Hget in Hin. destruct (item_group items k); [discriminate|].
    injection Hin as <-. split; [reflexivity | discriminate]. }
  destruct (collect_snippets_spec sep d) as (l & Hl & Hkeys & Hfrom & Hto);
    [intros k g Hin; apply (Hgroups k g Hin)|].
  exists l. split; [exact Hl|].
  split; [rewrite Hkeys; exact Hnd|].
  split.
  - intros item Hin.
    set (k := (i_path item, i_heading item)).
    assert (Hg : In item (item_group items k))
      by (apply item_group_In; split; [exact Hin | reflexivity]).
    pose proof (Hget k) as Hk.
    destruct (item_group items k) as [|x g] eqn:E; [destruct Hg|].
    apply dict_get_in in Hk. destruct (Hto k (x :: g) Hk) as (s & Hs & Hsn).
    exists s. split; [exact Hs|].
    apply group_snippet_spec in Hsn as [Hkey _].
    unfold k in Hkey. injection Hkey as -> ->. split; reflexivity.
  - intros s Hs. cbv zeta.
    set (group := item_group items (s_path s, s_heading s)).
    destruct (Hfrom s Hs) as (k & g & Hin & Hsn).
    destruct (Hgroups k g Hin) as [Hg Hne].
    apply group_snippet_spec in Hsn as (Hkey & Hex & Hsc & Hrange & Hlo & Hhi).
    assert (Hgroup : group = g) by (unfold group; rewrite Hkey; symmetry; exact Hg).
    rewrite Hgroup. repeat split; try assumption; apply Hrange; assumption.
Qed.

End PriceSnippets.

(* ===================================================================== *)
(** * Strings: case, containment, sorting *)
(* ===================================================================== *)

Section StringFacts.
Import Py Re AppMore Spec SpecMore.

Lemma str_app a b : str (a ++ b) = str a +:+ str b.
Proof. apply chars_inj. rewrite chars_app, !chars_str. reflexivity. Qed.

Lemma lower_app a b : lower (a +:+ b) = lower a +:+ lower b.
Proof. unfold lower. rewrite chars_app, map_app, str_app. reflexivity. Qed.

Lemma len_lower s : len (lower s) = len s.
Proof. unfold lower. rewrite len_str, length_map, len_chars. reflexivity. Qed.

Lemma is_prefix_app p s : is_prefix p (p ++ s) = true.
Proof.
  induction p as [|c p IH]; simpl; [reflexivity|].
  rewrite IH. destruct (Ascii.eqb_spec c c); [reflexivity | contradiction].
Qed.

Lemma is_prefix_spec p s : is_prefix p s = true <-> exists r, s = p ++ r.
Proof.
  split.
  - revert s. induction p as [|c p IH]; intros s H; [exists s; reflexivity|].
    destruct s as [|d s]; [discriminate|]. simpl in H.
    apply andb_prop in H as [Hc Hp]. apply Ascii.eqb_eq in Hc as ->.
    destruct (IH s Hp) as (r & ->). exists r. reflexivity.
  - intros (r & ->). apply is_prefix_app.
Qed.

Lemma contains_l_spec sub s :
  contains_l sub s = true <-> exists a b, s = a ++ sub ++ b.
Proof.
  split.
  - induction s as [|c s IH]; simpl; intros H.
    + rewrite orb_false_r in H. apply is_prefix_spec in H as (r & Hr).
      exists [], r. exact Hr.
    + apply orb_prop in H as [H | H].
      * apply is_prefix_spec in H as (r & Hr). exists [], r. exact Hr.
      * destruct (IH H) as (a & b & ->). exists (c :: a), b. reflexivity.
  - intros (a & b & ->). induction a as [|c a IH].
    + pose proof (is_prefix_app sub b) as H. simpl app.
      destruct (sub ++ b); simpl; rewrite H; reflexivity.
    + simpl. simpl in IH. rewrite IH. apply orb_true_r.
Qed.

Lemma contains_spec sub s :
  contains sub s = true <-> exists a b, s = a +:+ sub +:+ b.
Proof.
  unfold contains. rewrite contains_l_spec. split.
  - intros (a & b & H). exists (str a), (str b). apply chars_inj.
    rewrite !chars_app, !chars_str. exact H.
  - intros (a & b & ->). exists (chars a), (chars b).
    rewrite !chars_app. reflexivity.
Qed.

Lemma contains_embedded sub s a b :
  contains sub s = true -> contains sub (a +:+ s +:+ b) = true.
Proof.
  rewrite !contains_spec. intros (a' & b' & ->).
  exists (a +:+ a'), (b' +:+ b). apply chars_inj. rewrite !chars_app.
  rewrite <- !app_assoc. reflexivity.
Qed.

Lemma insert_string_perm x l : Permutation (insert_string x l) (x :: l).
Proof.
  induction l as [|y l IH]; simpl; [reflexivity|].
  destruct (le_string x y); [reflexivity|].
  rewrite IH. apply perm_swap.
Qed.

Lemma sorted_strings_perm l : Permutation (sorted_strings l) l.
Proof.
  induction l as [|x l IH]; simpl; [reflexivity|].
  rewrite insert_string_perm, IH. reflexivity.
Qed.

Lemma insert_string_sorted x l :
  Sorted (fun a b => le_string a b = true) l ->
  Sorted (fun a b => le_string a b = true) (insert_string x l).
Proof.
  induction l as [|y l IH]; simpl; intros Hs.
  - constructor; constructor.
  - destruct (le_string x y) eqn:E.
    + constructor; [exact Hs | constructor; exact E].
    + inversion Hs as [|? ? Hs' Hhd]; subst.
      constructor; [apply IH; exact Hs'|].
      assert (Hyx : le_string y x = true).
      { unfold le_string in *. destruct (String.leb_total x y) as [H | H];
          [congruence | exact H]. }
      destruct l as [|z l]; simpl; [constructor; exact Hyx|].
      destruct (le_string x z); constructor; [exact Hyx|].
      inversion Hhd; assumption.
Qed.

Lemma sorted_strings_sorted l :
  Sorted (fun a b => le_string a b = true) (sorted_strings l).
Proof.
  induction l as [|x l IH]; simpl; [constructor|].
  apply insert_string_sorted. exact IH.
Qed.

Lemma sorted_set_In (S : gset string) x :
  In x (sorted_strings (elements S)) <-> x ∈ S.
Proof.
  rewrite <- elem_of_elements, <- !list_elem_of_In.
  rewrite (sorted_strings_perm (elements S)). reflexivity.
Qed.

Lemma sorted_set_nodup (S : gset string) :
  List.NoDup (sorted_strings (elements S)).
Proof.
  eapply Permutation_NoDup; [symmetry; apply sorted_strings_perm|].
  apply NoDup_ListNoDup. apply NoDup_elements.
Qed.

End StringFacts.

(* ===================================================================== *)
(** * The price tokens of a query *)
(* ===================================================================== *)

Section PriceTokens.
Import Py Re AppMore Spec SpecMore.

Lemma is_prefix_take {B} n (l : list B) : exists r, l = take n l ++ r.
Proof. exists (drop n l). symmetry. apply take_drop. Qed.

Lemma drop_last_facts n s :
  (n <= len s)%nat ->
  startswith s (drop_last n s) = true /\ (len (drop_last n s) + n = len s)%nat.
Proof.
  intros Hn. unfold startswith, drop_last. rewrite chars_str, len_str. split.
  - apply is_prefix_spec. apply is_prefix_take.
  - rewrite length_take, len_chars. lia.
Qed.

Lemma startswith_refl s : startswith s s = true.
Proof.
  unfold startswith. apply is_prefix_spec. exists []. rewrite app_nil_r. reflexivity.
Qed.

Lemma normalize_token_facts token :
  startswith token (_normalize_token token) = true
  /\ (len (_normalize_token token) <= len token <= len (_normalize_token token) + 2)%nat
  /\ ((3 <= len token)%nat -> (3 <= len (_normalize_token token))%nat).
Proof.
  unfold _normalize_token.
  destruct (endswith token "s" && (3 <? len token)%nat) eqn:E1.
  { apply andb_prop in E1 as [_ E]. apply Nat.ltb_lt in E.
    destruct (drop_last_facts 1 token) as [H1 H2]; [lia|].
    split; [exact H1 | lia]. }
  destruct (endswith token "er" && (4 <? len token)%nat) eqn:E2.
  { apply andb_prop in E2 as [_ E]. apply Nat.ltb_lt in E.
    destruct (drop_last_facts 2 token) as [H1 H2]; [lia|].
    split; [exact H1 | lia]. }
  destruct (endswith token "e" && (4 <? len token)%nat) eqn:E3.
  { apply andb_prop in E3 as [_ E]. apply Nat.ltb_lt in E.
    destruct (drop_last_facts 1 token) as [H1 H2]; [lia|].
    split; [exact H1 | lia]. }
  split; [apply startswith_refl | lia].
Qed.

Lemma short_keep_long w : in_strings w SHORT_KEEP = true -> (3 <= len w)%nat.
Proof.
  unfold in_strings, SHORT_KEEP. simpl. rewrite orb_false_r.
  intros H.
  repeat (apply orb_prop in H as [H | H];
          [apply String.eqb_eq in H; subst w; simpl; lia|]).
  apply String.eqb_eq in H; subst w; simpl; lia.
Qed.

Lemma token_variants_In w t :
  In t (token_variants w)
  <-> in_strings w PRICE_STOPWORDS = false /\ (3 <= len w)%nat
      /\ (t = w \/ t = _normalize_token w).
Proof.
  unfold token_variants.
  destruct (in_strings w PRICE_STOPWORDS);
    [split; [intros [] | intros [H _]; discriminate]|].
  destruct ((len w <? 3)%nat && negb (in_strings w SHORT_KEEP)) eqn:E.
  - apply andb_prop in E as [E _]. apply Nat.ltb_lt in E.
    split; [intros [] | intros (_ & H & _); lia].
  - assert (Hlen : (3 <= len w)%nat).
    { apply andb_false_iff in E as [E | E]; [apply Nat.ltb_ge in E; exact E|].
      apply negb_false_iff in E. apply short_keep_long. exact E. }
    destruct (String.eqb_spec (_normalize_token w) w) as [Heq | Hne]; simpl.
    + rewrite Heq. split.
      * intros [<- | []]. auto.
      * intros (_ & _ & [-> | ->]); left; reflexivity.
    + split.
      * intros [<- | [<- | []]]; auto.
      * intros (_ & _ & [-> | ->]); [left | right; left]; reflexivity.
Qed.

Lemma word_in_subject s w :
  In w (findall false WORD_RE s) -> contains w s = true.
Proof.
  intros H. apply findall_word_token in H as (a & b & -> & _).
  unfold contains, str_slice, slice. rewrite chars_str.
  apply contains_l_spec. exists (take a (chars s)), (drop (b - a) (drop a (chars s))).
  rewrite take_drop, take_drop. reflexivity.
Qed.

Lemma contains_prefix t w s :
  startswith w t = true -> contains w s = true -> contains t s = true.
Proof.
  unfold startswith, contains. rewrite is_prefix_spec, !contains_l_spec.
  intros (r & ->) (a & b & ->). exists a, (r ++ b). rewrite <- app_assoc. reflexivity.
Qed.

(** X18: [_query_tokens] returns distinct tokens in ascending order.  A
    text is among them exactly when it is a word of the lowercased
    query that is no stop word and has three characters or more, or
    such a word with its ending removed by [_normalize_token]; the
    exemption for the short identifiers never applies.  Every token has
    three characters or more and occurs in the lowercased query. *)
Theorem query_tokens_are_long_words_of_the_query (query : string) :
  List.NoDup (_query_tokens query)
  /\ Sorted (fun a b => le_string a b = true) (_query_tokens query)
  /\ (forall t, In t (_query_tokens query)
        <-> exists w, In w (findall false WORD_PATTERN (lower query))
                      /\ in_strings w PRICE_STOPWORDS = false
                      /\ (3 <= len w)%nat
                      /\ (t = w \/ t = _normalize_token w))
  /\ (forall t, In t (_query_tokens query) ->
        (3 <= len t)%nat /\ contains t (lower query) = true).
Proof.
  assert (Hiff : forall t, In t (_query_tokens query)
        <-> exists w, In w (findall false WORD_PATTERN (lower query))
                      /\ in_strings w PRICE_STOPWORDS = false
                      /\ (3 <= len w)%nat
                      /\ (t = w \/ t = _normalize_token w)).
  { intros t. unfold _query_tokens. rewrite sorted_set_In, elem_of_list_to_set.
    rewrite list_elem_of_In, in_flat_map. split.
    - intros (w & Hw & Ht). exists w. split; [exact Hw|].
      apply token_variants_In. exact Ht.
    - intros (w & Hw & Ht). exists w. split; [exact Hw|].
      apply token_variants_In. exact Ht. }
  split; [apply sorted_set_nodup|].
  split; [apply sorted_strings_sorted|].
  split; [exact Hiff|].
  intros t Ht. apply Hiff in Ht as (w & Hw & _ & Hlen & Ht).
  apply word_in_subject in Hw.
  destruct (normalize_token_facts w) as (Hpre & _ & H3).
  destruct Ht as [-> | ->]; [split; assumption|].
  split; [apply H3; exact Hlen | apply (contains_prefix _ w); assumption].
Qed.

End PriceTokens.

(* ===================================================================== *)
(** * The aliases of a note *)
(* ===================================================================== *)

Section AliasFacts.
Import Py Re AppMore Spec SpecMore.

Lemma lower_join_space l :
  (forall t, In t l -> lower t = t) -> lower (join " " l) = join " " l.
Proof.
  unfold join. induction l as [|x l IH]; intros H; [reflexivity|].
  destruct l as [|y l]; [apply H; left; reflexivity|].
  change (String.concat " " (x :: y :: l))
    with (x +:+ " " +:+ String.concat " " (y :: l)).
  rewrite !lower_app.
  rewrite IH by (intros t Ht; apply H; right; exact Ht).
  rewrite (H x) by (left; reflexivity). reflexivity.
Qed.

Lemma join_head_nonempty sep x l : x <> "" -> join sep (x :: l) <> "".
Proof.
  intros Hx. unfold join. destruct l as [|y l]; [exact Hx|].
  change (String.concat sep (x :: y :: l))
    with (x +:+ sep +:+ String.concat sep (y :: l)).
  destruct x; [contradiction | discriminate].
Qed.

Lemma lowered_nonempty s : s <> "" -> lower s <> "".
Proof.
  intros Hs Hl. apply Hs. pose proof (len_lower s) as H. rewrite Hl in H.
  destruct s; [reflexivity | discriminate].
Qed.

Lemma variant_aliases_clean variant alias :
  alias ∈ variant_aliases variant -> alias <> "" /\ lower alias = alias.
Proof.
  unfold variant_aliases.
  set (cleaned := strip (sub false (plus is_space) [TText " "] variant)).
  destruct (truthy cleaned) eqn:Ecl; simpl negb; cbv iota;
    [|intros H; apply elem_of_empty in H; destruct H].
  apply truthy_true in Ecl.
  set (tokens0 := findall false WORD_RE (lower cleaned)).
  assert (H0 : forall t, In t tokens0 -> t <> "" /\ lower t = t).
  { intros t Ht. apply findall_word_token in Ht as (a & b & -> & Hne).
    split; [exact Hne | apply lower_slice]. }
  set (tokens := match tokens0 with
                 | t0 :: t1 :: rest =>
                     if String.eqb t0 "gs" && isdigit t1 then ("gs" +:+ t1) :: rest
                     else tokens0
                 | _ => tokens0
                 end).
  assert (Htok : forall t, In t tokens -> t <> "" /\ lower t = t).
  { unfold tokens. destruct tokens0 as [|t0 [|t1 rest]]; try exact H0.
    destruct (String.eqb t0 "gs" && isdigit t1); [|exact H0].
    intros t [<- | Ht].
    - split; [discriminate|]. rewrite lower_app.
      rewrite (proj2 (H0 t1 ltac:(right; left; reflexivity))). reflexivity.
    - apply H0. right. right. exact Ht. }
  clearbody tokens. clear H0. clearbody tokens0.
  assert (Hjoin : forall x l, (forall t, In t (x :: l) -> In t tokens) ->
                              join " " (x :: l) <> ""
                              /\ lower (join " " (x :: l)) = join " " (x :: l)).
  { intros x l Hsub. split.
    - apply join_head_nonempty. apply (Htok x). apply Hsub. left. reflexivity.
    - apply lower_join_space. intros t Ht. apply (Htok t). apply Hsub. exact Ht. }
  intros H.
  apply elem_of_union in H as [H | H];
    [apply elem_of_union in H as [H | H]; [apply elem_of_union in H as [H | H]|]|].
  - apply elem_of_singleton in H as ->.
    split; [apply lowered_nonempty; exact Ecl | apply lower_idem].
  - destruct tokens as [|t0 [|t1 rest]]; cbn [Nat.leb length] in H;
      try (apply elem_of_empty in H; destruct H).
    apply elem_of_singleton in H as ->.
    change (slice 0 2 (t0 :: t1 :: rest)) with [t0; t1].
    apply Hjoin. intros t [<- | [<- | []]]; simpl; auto.
  - destruct tokens as [|t0 [|t1 [|t2 rest]]]; cbn [Nat.leb length] in H;
      try (apply elem_of_empty in H; destruct H).
    apply elem_of_singleton in H as ->.
    change (slice 0 3 (t0 :: t1 :: t2 :: rest)) with [t0; t1; t2].
    apply Hjoin. intros t [<- | [<- | [<- | []]]]; simpl; auto.
  - destruct tokens as [|t0 [|t1 rest]];
      try (apply elem_of_empty in H; destruct H).
    + destruct (startswith t0 "gs1"); cbn [Nat.leb length andb] in H;
        apply elem_of_empty in H; destruct H.
    + destruct (startswith t0 "gs1"); cbn [Nat.leb length andb] in H;
        [|apply elem_of_empty in H; destruct H].
      apply elem_of_singleton in H as ->.
      change (slice 1 3 (t0 :: t1 :: rest)) with (t1 :: take 1 rest).
      apply Hjoin. intros t [<- | Ht]; [simpl; auto|].
      apply In_take in Ht. simpl. auto.
Qed.

Lemma foldr_union_elem {B} (f : B -> gset string) (l : list B) x :
  x ∈ foldr (fun b acc => f b ∪ acc) ∅ l <-> exists b, In b l /\ x ∈ f b.
Proof.
  induction l as [|b l IH]; simpl.
  - split; [intros H; apply elem_of_empty in H; destruct H | intros (b & [] & _)].
  - rewrite elem_of_union, IH. split.
    + intros [H | (b' & Hin & H)]; [exists b; auto | exists b'; auto].
    + intros (b' & [<- | Hin] & H); [left; exact H | right; exists b'; auto].
Qed.

Lemma expanded_elem (l : list string) x :
  In x l -> truthy x = true ->
  x ∈ foldr (fun variant acc =>
               if truthy variant
               then {[ variant ]} ∪ {[ _split_camel variant ]} ∪ acc
               else acc) (∅ : gset string) l.
Proof.
  induction l as [|y l IH]; intros Hin Hx; [destruct Hin|]. simpl.
  destruct Hin as [-> | Hin].
  - rewrite Hx. apply elem_of_union. left. apply elem_of_union. left.
    apply elem_of_singleton. reflexivity.
  - destruct (truthy y); [apply elem_of_union; right|]; apply IH; assumption.
Qed.

(** X19: [_build_aliases] returns distinct aliases in ascending order;
    no alias is empty (an empty alias would be found in every query)
    and every alias is in lower case, as the lowercased query it is
    looked up in.  The title, if it has a character that is not
    whitespace, gives the alias that is its lowercased text with every
    run of whitespace replaced by one space and the ends stripped. *)
Theorem build_aliases_are_clean (title filename : string) :
  List.NoDup (_build_aliases title filename)
  /\ Sorted (fun a b => le_string a b = true) (_build_aliases title filename)
  /\ (forall alias, In alias (_build_aliases title filename) ->
        alias <> "" /\ lower alias = alias)
  /\ (let cleaned := strip (sub false (plus is_space) [TText " "] title) in
      cleaned <> "" -> In (lower cleaned) (_build_aliases title filename)).
Proof.
  unfold _build_aliases.
  split; [apply sorted_set_nodup|].
  split; [apply sorted_strings_sorted|].
  split.
  - intros alias Hin. apply sorted_set_In in Hin.
    apply foldr_union_elem in Hin as (variant & _ & Hin).
    apply (variant_aliases_clean variant). exact Hin.
  - cbv zeta.
    set (cleaned := strip (sub false (plus is_space) [TText " "] title)).
    intros Hne. apply sorted_set_In. apply foldr_union_elem.
    exists title. split.
    + apply list_elem_of_In. apply elem_of_elements. apply expanded_elem.
      * apply list_elem_of_In. apply elem_of_elements.
        apply elem_of_union. left. apply elem_of_union. left.
        apply elem_of_union. left. apply elem_of_singleton. reflexivity.
      * apply truthy_true. intros ->. apply Hne. vm_compute. reflexivity.
    + unfold variant_aliases. fold cleaned.
      apply truthy_true in Hne. rewrite Hne. simpl negb. cbv iota.
      apply elem_of_union. left. apply elem_of_union. left.
      apply elem_of_union. left. apply elem_of_singleton. reflexivity.
Qed.

End AliasFacts.

(* ===================================================================== *)
(** * The intent of a message *)
(* ===================================================================== *)

Section Intent.
Import Py Re AppMore Spec SpecMore.

Lemma contains_any_embedded markers text a b :
  contains_any markers (lower text) = true ->
  contains_any markers (lower (a +:+ text +:+ b)) = true.
Proof.
  unfold contains_any. rewrite !existsb_exists.
  intros (m & Hin & Hc). exists m. split; [exact Hin|].
  rewrite !lower_app. apply contains_embedded. exact Hc.
Qed.

(** X20: the intent tests that look for marker words ([is_price_query],
    [is_count_query], [is_industry_query], [is_info_seeking]) are
    monotone in the message: a message that passes a test still passes
    it with any text before and after it. *)
Theorem intent_tests_survive_context (text before after : string) :
  (is_price_query text = true ->
   is_price_query (before +:+ text +:+ after) = true)
  /\ (is_count_query text = true ->
      is_count_query (before +:+ text +:+ after) = true)
  /\ (is_industry_query text = true ->
      is_industry_query (before +:+ text +:+ after) = true)
  /\ (is_info_seeking text = true ->
      is_info_seeking (before +:+ text +:+ after) = true).
Proof.
  unfold is_price_query, is_count_query, is_industry_query, is_info_seeking.
  split; [apply contains_any_embedded|].
  split; [apply contains_any_embedded|].
  split; [apply contains_any_embedded|].
  intros H.
  destruct (contains "?" (lower text)) eqn:Eq.
  - rewrite !lower_app. rewrite (contains_embedded _ _ _ _ Eq). reflexivity.
  - destruct (contains "?" (lower (before +:+ text +:+ after))); [reflexivity|].
    apply contains_any_embedded. exact H.
Qed.

Lemma intent_tests_survive_context_witness :
  is_price_query "pris" = true
  /\ is_price_query ("Hvad er " +:+ "pris" +:+ "en for GLN") = true.
Proof.
  split; [vm_compute; reflexivity|].
  apply (proj1 (intent_tests_survive_context "pris" "Hvad er " "en for GLN")).
  vm_compute. reflexivity.
Defined.

End Intent.

(* ===================================================================== *)
(** * The Sources block is read back as it was written *)
(* ===================================================================== *)

Section SourcesRoundTrip.
Import Py Re AppMore Spec SpecMore.

Lemma lstrip_suffix p s : exists a, s = a ++ lstrip_with p s.
Proof.
  induction s as [|c s (a & IH)]; [exists []; reflexivity|]. simpl.
  destruct (p c); [|exists []; reflexivity].
  exists (c :: a). simpl. rewrite <- IH. reflexivity.
Qed.

Lemma rstrip_prefix p s : exists b, s = rstrip_with p s ++ b.
Proof.
  unfold rstrip_with. destruct (lstrip_suffix p (rev s)) as (a & Ha).
  exists (rev a). rewrite <- rev_app_distr, <- Ha, rev_involutive. reflexivity.
Qed.

Lemma lstrip_result p s : lstrip_with p s = [] \/ starts_clean p (lstrip_with p s).
Proof.
  induction s as [|c s IH]; [left; reflexivity|]. simpl.
  destruct (p c) eqn:E; [exact IH|]. right. exists c, s. auto.
Qed.

Lemma rstrip_result p s : rstrip_with p s = [] \/ ends_clean p (rstrip_with p s).
Proof.
  unfold rstrip_with. destruct (lstrip_result p (rev s)) as [-> | (c & t & -> & Hc)].
  - left. reflexivity.
  - right. exists (rev t), c. simpl. auto.
Qed.

Lemma strip_sub p s : exists a b, s = a ++ strip_with p s ++ b.
Proof.
  unfold strip_with. destruct (lstrip_suffix p s) as (a & Ha).
  destruct (rstrip_prefix p (lstrip_with p s)) as (b & Hb).
  exists a, b. rewrite <- Hb. exact Ha.
Qed.

Lemma contains_l_app_false sep a b :
  contains_l sep (a ++ b) = false -> contains_l sep a = false.
Proof.
  intros H. destruct (contains_l sep a) eqn:E; [|reflexivity].
  apply contains_l_spec in E as (x & y & ->).
  rewrite <- H. symmetry. apply contains_l_spec.
  exists x, (y ++ b). rewrite <- !app_assoc. reflexivity.
Qed.

Lemma contains_l_sub_false sep a s b :
  contains_l sep (a ++ s ++ b) = false -> contains_l sep s = false.
Proof.
  intros H. destruct (contains_l sep s) eqn:E; [|reflexivity].
  apply contains_l_spec in E as (x & y & ->).
  rewrite <- H. symmetry. apply contains_l_spec.
  exists (a ++ x), (y ++ b). rewrite <- !app_assoc. reflexivity.
Qed.

(** ** The text before the marker *)

Lemma split_l_head sep s : forall cur,
  hd [] (split_l sep 0 cur s) = rev cur ++ text_before sep s.
Proof.
  induction s as [|c s IH]; intros cur; simpl.
  - rewrite app_nil_r. reflexivity.
  - destruct (is_prefix sep (c :: s)); simpl.
    + rewrite app_nil_r. reflexivity.
    + rewrite IH. simpl. rewrite <- app_assoc. reflexivity.
Qed.

Lemma text_before_prefix sep s : exists r, s = text_before sep s ++ r.
Proof.
  induction s as [|c s (r & IH)]; [exists []; reflexivity|]. simpl.
  destruct (is_prefix sep (c :: s)); [exists (c :: s); reflexivity|].
  exists r. simpl. rewrite <- IH. reflexivity.
Qed.

Lemma text_before_clear sep s :
  sep <> [] -> contains_l sep (text_before sep s) = false.
Proof.
  intros Hne. induction s as [|c s IH]; simpl.
  - destruct sep; [contradiction | reflexivity].
  - destruct (is_prefix sep (c :: s)) eqn:E.
    + simpl. destruct sep; [contradiction | reflexivity].
    + cbn [contains_l]. rewrite IH, orb_false_r.
      destruct (is_prefix sep (c :: text_before sep s)) eqn:E'; [|reflexivity].
      apply is_prefix_spec in E' as (r & Hr).
      destruct (text_before_prefix sep s) as (r' & Hr').
      rewrite <- E. symmetry. apply is_prefix_spec.
      exists (r ++ r'). rewrite app_assoc, <- Hr. simpl. rewrite <- Hr'. reflexivity.
Qed.

(** ** Lines *)

Lemma linebreak_is_space c : is_linebreak c = true -> is_space c = true.
Proof. destruct c as [[] [] [] [] [] [] [] []]; vm_compute; intros H; congruence. Qed.

Lemma splitlines_l_cons cur c s :
  splitlines_l cur (c :: s)
  = if is_linebreak c
    then rev cur ::
         (if is_code 13 c
          then match s with
               | c' :: s'' => if is_code 10 c' then splitlines_l [] s''
                              else splitlines_l [] s
               | [] => splitlines_l [] s
               end
          else splitlines_l [] s)
    else splitlines_l (c :: cur) s.
Proof. reflexivity. Qed.

Lemma splitlines_l_sub n : forall s cur L,
  (length s <= n)%nat ->
  In L (splitlines_l cur s) -> exists a b, rev cur ++ s = a ++ L ++ b.
Proof.
  induction n as [|n IH]; intros s cur L Hlen Hin.
  - destruct s; [|simpl in Hlen; lia]. simpl in Hin.
    destruct cur as [|x cur]; [destruct Hin|]. destruct Hin as [<- | []].
    exists [], []. rewrite !app_nil_r. reflexivity.
  - destruct s as [|c s].
    + simpl in Hin. destruct cur as [|x cur]; [destruct Hin|].
      destruct Hin as [<- | []]. exists [], []. rewrite !app_nil_r. reflexivity.
    + rewrite splitlines_l_cons in Hin. simpl in Hlen.
      assert (Hrest : forall pre t, c :: s = pre ++ t -> (length t <= n)%nat ->
                                    In L (splitlines_l [] t) ->
                                    exists a b, rev cur ++ c :: s = a ++ L ++ b).
      { intros pre t Hpre Ht HL. apply (IH t [] L Ht) in HL as (a & b & H).
        simpl in H. exists (rev cur ++ pre ++ a), b.
        rewrite Hpre, H, <- !app_assoc. reflexivity. }
      destruct (is_linebreak c).
      * destruct Hin as [<- | Hin]; [exists [], (c :: s); reflexivity|].
        destruct (is_code 13 c);
          [|apply (Hrest [c] s); [reflexivity | lia | exact Hin]].
        destruct s as [|c' s''];
          [apply (Hrest [c] []); [reflexivity | simpl; lia | exact Hin]|].
        destruct (is_code 10 c').
        -- apply (Hrest [c; c'] s''); [reflexivity | simpl in *; lia | exact Hin].
        -- apply (Hrest [c] (c' :: s'')); [reflexivity | simpl in *; lia | exact Hin].
      * apply (IH s (c :: cur) L) in Hin as (a & b & H); [|lia].
        exists a, b. rewrite <- H. simpl. rewrite <- app_assoc. reflexivity.
Qed.

Lemma ends_clean_tail p c t :
  ends_clean p (c :: t) -> (t = [] /\ p c = false) \/ ends_clean p t.
Proof.
  intros (u & x & H & Hx). destruct u as [|y u]; simpl in H.
  - injection H as -> ->. left. auto.
  - injection H as -> ->. right. exists u, x. auto.
Qed.

Lemma ends_clean_nonempty p t : ends_clean p t -> t <> [].
Proof. intros (u & x & -> & _). destruct u; discriminate. Qed.

Lemma splitlines_app_nl n (R : list ascii) : forall B cur,
  (length B <= n)%nat -> ends_clean is_space B ->
  splitlines_l cur (B ++ "010"%char :: R) = splitlines_l cur B ++ splitlines_l [] R.
Proof.
  induction n as [|n IH]; intros B cur Hlen HB.
  - apply ends_clean_nonempty in HB. destruct B; [contradiction | simpl in Hlen; lia].
  - destruct B as [|c B]; [apply ends_clean_nonempty in HB; contradiction|].
    simpl in Hlen. apply ends_clean_tail in HB as [[-> Hc] | HB].
    + assert (Hlb : is_linebreak c = false).
      { destruct (is_linebreak c) eqn:E; [|reflexivity].
        apply linebreak_is_space in E. congruence. }
      simpl app. rewrite !splitlines_l_cons, Hlb. reflexivity.
    + cbn [app]. rewrite !splitlines_l_cons.
      destruct (is_linebreak c).
      * cbn [app]. f_equal.
        destruct (is_code 13 c); [|apply IH; [lia | exact HB]].
        destruct B as [|c' B'']; [apply ends_clean_nonempty in HB; contradiction|].
        cbn [app]. destruct (is_code 10 c') eqn:E10; [|apply (IH (c' :: B'')); [lia | exact HB]].
        apply ends_clean_tail in HB as [[-> Hc'] | HB].
        -- exfalso. destruct c' as [[] [] [] [] [] [] [] []]; vm_compute in E10, Hc';
             congruence.
        -- apply IH; [simpl in Hlen; lia | exact HB].
      * apply IH; [lia | exact HB].
Qed.

Lemma splitlines_clean_line (R : list ascii) x : forall cur,
  forallb (fun c => negb (is_linebreak c)) x = true ->
  splitlines_l cur (x ++ "010"%char :: R) = (rev cur ++ x) :: splitlines_l [] R.
Proof.
  induction x as [|c x IH]; intros cur Hx.
  - simpl app. rewrite splitlines_l_cons, app_nil_r. reflexivity.
  - simpl in Hx. apply andb_prop in Hx as [Hc Hx]. apply negb_true_iff in Hc.
    cbn [app]. rewrite splitlines_l_cons, Hc, IH by exact Hx.
    simpl. rewrite <- app_assoc. reflexivity.
Qed.

Lemma splitlines_clean_last x : forall cur,
  x <> [] -> forallb (fun c => negb (is_linebreak c)) x = true ->
  splitlines_l cur x = [rev cur ++ x].
Proof.
  induction x as [|c x IH]; intros cur Hne Hx; [contradiction|].
  simpl in Hx. apply andb_prop in Hx as [Hc Hx]. apply negb_true_iff in Hc.
  rewrite splitlines_l_cons, Hc.
  destruct x as [|c' x].
  - reflexivity.
  - rewrite IH by (discriminate || exact Hx). simpl. rewrite <- app_assoc. reflexivity.
Qed.

Lemma chars_join_cons sep x y l :
  chars (join sep (x :: y :: l)) = chars x ++ chars sep ++ chars (join sep (y :: l)).
Proof.
  unfold join.
  change (String.concat sep (x :: y :: l))
    with (x +:+ sep +:+ String.concat sep (y :: l)).
  rewrite !chars_app. reflexivity.
Qed.

Lemma splitlines_join ls :
  ls <> [] ->
  (forall l, In l ls -> l <> "" /\ no_linebreak l = true) ->
  splitlines_l [] (chars (join nl ls)) = map chars ls.
Proof.
  induction ls as [|x ls IH]; intros Hne Hall; [contradiction|].
  destruct (Hall x ltac:(left; reflexivity)) as [Hx Hlb].
  destruct ls as [|y ls].
  - simpl. apply splitlines_clean_last; [|exact Hlb].
    intros E. apply Hx. apply chars_inj. rewrite E. reflexivity.
  - rewrite chars_join_cons. change (chars nl) with ["010"%char]. cbn [app].
    rewrite splitlines_clean_line by exact Hlb.
    rewrite IH; [reflexivity | discriminate |].
    intros l Hl. apply Hall. right. exact Hl.
Qed.

(** ** Citations *)

Lemma no_linebreak_app a b :
  no_linebreak (a +:+ b) = no_linebreak a && no_linebreak b.
Proof. unfold no_linebreak. rewrite chars_app. apply forallb_app. Qed.

Lemma no_linebreak_uint d : no_linebreak (NilEmpty.string_of_uint d) = true.
Proof. induction d; simpl; try reflexivity; exact IHd. Qed.

Lemma no_linebreak_int z : no_linebreak (str_of_int z) = true.
Proof.
  unfold str_of_int.
  assert (H : forall d, no_linebreak (NilZero.string_of_uint d) = true).
  { intros d. destruct d; try reflexivity; apply (no_linebreak_uint (_ d)). }
  destruct (Z.to_int z) as [d | d]; simpl; [apply H|].
  change (no_linebreak (String "-" (NilZero.string_of_uint d)))
    with (no_linebreak (NilZero.string_of_uint d)). apply H.
Qed.

Lemma citation_clean snippet :
  no_linebreak (s_path snippet) = true ->
  no_linebreak (s_heading snippet) = true ->
  no_linebreak (citation snippet) = true
  /\ ends_clean is_space (chars (citation snippet)).
Proof.
  intros Hp Hh. unfold citation. split.
  - rewrite !no_linebreak_app, Hp, Hh, !no_linebreak_int. reflexivity.
  - rewrite !chars_app. repeat apply ends_clean_app.
    exists [], ")"%char. split; reflexivity.
Qed.

(** ** Reading the block *)

Lemma parse_skips pre rest :
  (forall L, In L pre -> startswith (strip L) "Sources:" = false) ->
  parse_sources_loop false (pre ++ rest) = parse_sources_loop false rest.
Proof.
  induction pre as [|L pre IH]; intros H; [reflexivity|].
  cbn [app parse_sources_loop]. rewrite (H L) by (left; reflexivity).
  apply IH. intros L' HL'. apply H. right. exact HL'.
Qed.

Lemma listed_line c :
  ends_clean is_space (chars c) ->
  strip ("- " +:+ c) = "- " +:+ c.
Proof.
  intros Hc. unfold strip. rewrite <- (str_chars ("- " +:+ c)) at 2. f_equal.
  apply strip_clean.
  - exists "-"%char, (" "%char :: chars c). split; reflexivity.
  - rewrite chars_app. apply ends_clean_app. exact Hc.
Qed.

Lemma parse_listed cites :
  (forall c, In c cites -> ends_clean is_space (chars c)) ->
  parse_sources_loop true (map (fun c => "- " +:+ c) cites) = cites.
Proof.
  induction cites as [|c cites IH]; intros H; [reflexivity|].
  cbn [map parse_sources_loop].
  rewrite listed_line by (apply H; left; reflexivity).
  change (startswith ("- " +:+ c) "Sources:") with false.
  change (truthy ("- " +:+ c)) with true.
  change (startswith ("- " +:+ c) "-") with true.
  cbn [negb]. cbv iota.
  change (str_from 2 ("- " +:+ c)) with (str (chars c)).
  rewrite str_chars, IH; [reflexivity|].
  intros c' Hc'. apply H. right. exact Hc'.
Qed.

Lemma line_without_marker (B L : list ascii) :
  contains_l (chars "Sources:") B = false ->
  In L (splitlines_l [] B) ->
  startswith (strip (str L)) "Sources:" = false.
Proof.
  intros HB HL.
  apply (splitlines_l_sub (length B) B [] L (le_n _)) in HL as (a & b & H).
  simpl in H. rewrite H in HB. apply contains_l_sub_false in HB.
  unfold startswith, strip. rewrite !chars_str.
  destruct (strip_sub is_space L) as (a' & b' & HL).
  rewrite HL in HB. apply contains_l_sub_false in HB.
  destruct (is_prefix (chars "Sources:") (strip_with is_space L)) eqn:E;
    [|reflexivity].
  rewrite <- HB. symmetry. apply contains_l_spec.
  apply is_prefix_spec in E as (r & ->). exists [], r. reflexivity.
Qed.

Lemma base_without_marker response :
  contains_l (chars "Sources:")
    (chars (rstrip (if contains "Sources:" response
                    then rstrip (hd "" (split response "Sources:"))
                    else response))) = false.
Proof.
  unfold rstrip at 1. rewrite chars_str.
  match goal with |- contains_l _ (rstrip_with _ ?b) = false =>
    destruct (rstrip_prefix is_space b) as (r & Hr);
    apply (contains_l_app_false _ _ r); rewrite <- Hr end.
  destruct (contains "Sources:" response) eqn:E.
  - unfold rstrip. rewrite chars_str.
    match goal with |- contains_l _ (rstrip_with _ ?b) = false =>
      destruct (rstrip_prefix is_space b) as (r' & Hr');
      apply (contains_l_app_false _ _ r'); rewrite <- Hr' end.
    unfold split.
    assert (Hhd : forall l : list (list ascii), hd "" (map str l) = str (hd [] l))
      by (intros [|x l]; reflexivity).
    rewrite Hhd, chars_str, split_l_head. simpl rev. simpl app.
    apply text_before_clear. discriminate.
  - unfold contains in E. destruct (contains_l _ _); [discriminate | reflexivity].
Qed.

Lemma written_block_parses (base : string) cites :
  contains_l (chars "Sources:") (chars (rstrip base)) = false ->
  cites <> [] ->
  (forall c, In c cites ->
     no_linebreak c = true /\ ends_clean is_space (chars c)) ->
  parse_sources (rstrip base +:+ nl +:+ nl +:+ "Sources:" +:+ nl
                 +:+ join nl (map (fun src => "- " +:+ src) cites)) = cites.
Proof.
  intros Hbase Hne Hc.
  set (ls := map (fun src => "- " +:+ src) cites).
  set (T := rstrip base +:+ nl +:+ nl +:+ "Sources:" +:+ nl +:+ join nl ls).
  assert (Hhas : contains "Sources:" T = true).
  { apply contains_spec. exists (rstrip base +:+ nl +:+ nl), (nl +:+ join nl ls).
    apply chars_inj. unfold T. rewrite !chars_app, <- !app_assoc. reflexivity. }
  unfold parse_sources. rewrite Hhas. cbn [negb]. cbv iota.
  assert (Hls : splitlines_l [] (chars (join nl ls)) = map chars ls).
  { apply splitlines_join.
    - unfold ls. destruct cites; [contradiction | discriminate].
    - intros l Hl. unfold ls in Hl. apply in_map_iff in Hl as (c & <- & Hin).
      split; [discriminate|].
      rewrite no_linebreak_app. rewrite (proj1 (Hc c Hin)). reflexivity. }
  assert (HR : splitlines_l [] ("010"%char :: chars "Sources:" ++ "010"%char
                                  :: chars (join nl ls))
               = [] :: chars "Sources:" :: map chars ls).
  { rewrite splitlines_l_cons. change (is_linebreak "010") with true.
    change (is_code 13 "010") with false. cbv iota. f_equal.
    rewrite splitlines_clean_line by reflexivity. rewrite Hls. reflexivity. }
  assert (Hlines : exists pre,
             splitlines T = pre ++ "" :: "Sources:" :: ls
             /\ forall L, In L pre -> startswith (strip L) "Sources:" = false).
  { unfold splitlines, T. rewrite !chars_app.
    change (chars nl) with ["010"%char]. cbn [app].
    destruct (rstrip_result is_space (chars base)) as [Hempty | Hclean].
    - unfold rstrip at 1. rewrite chars_str, Hempty. cbn [app].
      rewrite splitlines_l_cons. change (is_linebreak "010") with true.
      change (is_code 13 "010") with false. cbv iota. rewrite HR.
      exists [""]. split.
      + cbn [map app]. rewrite map_map.
        rewrite (map_ext _ (fun x => x) str_chars), map_id. reflexivity.
      + intros L [<- | []]. reflexivity.
    - rewrite (splitlines_app_nl (length (chars (rstrip base)))) by
        (try apply le_n; unfold rstrip; rewrite chars_str; exact Hclean).
      rewrite HR. exists (map str (splitlines_l [] (chars (rstrip base)))). split.
      + rewrite map_app. cbn [map]. rewrite map_map.
        rewrite (map_ext _ (fun x => x) str_chars), map_id. reflexivity.
      + intros L HL. apply in_map_iff in HL as (l & <- & Hl).
        apply (line_without_marker _ _ Hbase Hl). }
  destruct Hlines as (pre & -> & Hpre).
  rewrite parse_skips by exact Hpre.
  cbn [parse_sources_loop].
  change (startswith (strip "") "Sources:") with false.
  change (startswith (strip "Sources:") "Sources:") with true. cbv iota.
  apply parse_listed. intros c Hin. apply (Hc c Hin).
Qed.

Lemma ensure_sources_parses response snippets :
  (forall c, In c (map citation (take 3 snippets)) ->
     no_linebreak c = true /\ ends_clean is_space (chars c)) ->
  parse_sources (fst (ensure_sources response snippets))
  = snd (ensure_sources response snippets).
Proof.
  intros Hclean. unfold ensure_sources.
  destruct (parse_sources response) as [|src srcs] eqn:Eparse; [|exact Eparse].
  change (slice 0 3 snippets) with (take 3 snippets).
  destruct (map citation (take 3 snippets)) as [|c cs] eqn:Ecites; [exact Eparse|].
  cbn [fst snd]. apply written_block_parses.
  - apply base_without_marker.
  - discriminate.
  - exact Hclean.
Qed.

Lemma ensure_sources_nonempty response snippets :
  snippets <> [] -> snd (ensure_sources response snippets) <> [].
Proof.
  intros Hne. unfold ensure_sources.
  destruct (parse_sources response) as [|src srcs]; [|discriminate].
  destruct snippets as [|s rest]; [contradiction | discriminate].
Qed.

(** X21: the text that [ensure_sources] returns is read back by
    [parse_sources] as the sources returned with it, when no path and
    no heading of the first three snippets holds a line break (a
    citation with one would be cut when read); and with at least one
    snippet the sources are never empty. *)
Theorem ensure_sources_reply_parses_back (response : string) (snippets : list Snippet) :
  (forall s, In s (take 3 snippets) ->
     no_linebreak (s_path s) = true /\ no_linebreak (s_heading s) = true) ->
  parse_sources (fst (ensure_sources response snippets))
  = snd (ensure_sources response snippets)
  /\ (snippets <> [] -> snd (ensure_sources response snippets) <> []).
Proof.
  intros Hclean. split.
  - apply ensure_sources_parses.
    intros c Hc. apply in_map_iff in Hc as (s & <- & Hs).
    destruct (Hclean s Hs) as [Hp Hh]. apply citation_clean; assumption.
  - apply ensure_sources_nonempty.
Qed.

Lemma ensure_sources_reply_parses_back_witness :
  let snippets :=
    [ {| s_path := "prices.md"; s_heading := "Pricing"; s_line_start := 1;
         s_line_end := 3; s_excerpt := "row"; s_score := 999 |} ] in
  let response := "Answer" +:+ nl +:+ "Sources: none" in
  (forall s, In s (take 3 snippets) ->
     no_linebreak (s_path s) = true /\ no_linebreak (s_heading s) = true)
  /\ parse_sources (fst (ensure_sources response snippets))
     = ["prices.md#Pricing (lines 1-3)"].
Proof.
  intros snippets response.
  assert (H : forall s, In s (take 3 snippets) ->
     no_linebreak (s_path s) = true /\ no_linebreak (s_heading s) = true).
  { intros s [<- | []]. split; reflexivity. }
  split; [exact H|].
  rewrite (proj1 (ensure_sources_reply_parses_back response snippets H)).
  vm_compute. reflexivity.
Defined.

End SourcesRoundTrip.

(* ===================================================================== *)
(** * The title of a note and the headings of its sections *)
(* ===================================================================== *)

Section TitleAndSections.
Import Py Re AppMore Spec SpecMore.

Lemma title_in_boundaries lines : forall idx,
  match _detect_title_loop lines with
  | Some t =>
      t <> ""
      /\ exists bpre i bpost,
           boundaries_from idx lines = bpre ++ (i, t) :: bpost
           /\ forall b, In b bpre -> snd b = "(top)"
  | None => forall b, In b (boundaries_from idx lines) -> snd b = "(top)"
  end.
Proof.
  induction lines as [|line rest IH]; intros idx; simpl; [intros b []|].
  destruct (heading_match line) as [g|]; [|apply IH].
  destruct (truthy (strip g)) eqn:E.
  - split; [apply truthy_true; exact E|].
    exists [], idx, (boundaries_from (S idx) rest).
    split; [reflexivity | intros b []].
  - specialize (IH (S idx)). destruct (_detect_title_loop rest) as [t|].
    + destruct IH as (Hne & bpre & i & bpost & Hb & Hpre). split; [exact Hne|].
      exists ((idx, "(top)") :: bpre), i, bpost. rewrite Hb.
      split; [reflexivity|]. intros b [<- | Hin]; [reflexivity | apply Hpre; exact Hin].
    + intros b [<- | Hin]; [reflexivity | apply IH; exact Hin].
Qed.

Lemma heading_sections_headings p lines bs :
  map heading (heading_sections p lines bs) = map snd bs.
Proof.
  induction bs as [|[b h] rest IH]; [reflexivity|].
  cbn [heading_sections map heading snd]. rewrite IH. reflexivity.
Qed.

(** X22: the title of a note and its sections agree.  Either the title
    [_detect_title] finds is not empty and is the heading of a section
    that [_split_sections] makes of the same lines, every section
    before it being headed (top); or the title comes from the file
    name, and then every section is headed (top). *)
Theorem detected_title_heads_a_section (p filename : string) (lines : list string) :
  (exists pre s post,
     _split_sections p lines = pre ++ s :: post
     /\ heading s = _detect_title lines filename
     /\ _detect_title lines filename <> ""
     /\ forall s', In s' pre -> heading s' = "(top)")
  \/ (_detect_title lines filename
      = replace (replace (splitext_root filename) "_" " ") "-" " "
      /\ forall s, In s (_split_sections p lines) -> heading s = "(top)").
Proof.
  unfold _detect_title. pose proof (title_in_boundaries lines 0) as H.
  destruct (_detect_title_loop lines) as [t|].
  - left. destruct H as (Hne & bpre & i & bpost & Hb & Hpre).
    pose proof (heading_sections_headings p lines (boundaries_from 0 lines)) as Hh.
    rewrite Hb, map_app in Hh. cbn [map snd] in Hh.
    apply map_eq_app in Hh as (pre & rest & Hsecs & Hpre' & Hrest).
    apply map_eq_cons in Hrest as (s & post & -> & Hs & _).
    assert (Hpre_top : forall s', In s' pre -> heading s' = "(top)").
    { intros s' Hin. apply (in_map heading) in Hin. rewrite Hpre' in Hin.
      apply in_map_iff in Hin as (b & Hb' & Hin). rewrite <- Hb'.
      apply Hpre. exact Hin. }
    unfold _split_sections. destruct lines as [|l0 ls]; [destruct bpre; discriminate|].
    cbv zeta. rewrite Hb.
    destruct (bpre ++ (i, t) :: bpost) as [|[first h0] bs] eqn:Eb;
      [destruct bpre; discriminate|].
    rewrite Hsecs.
    destruct (0 <? first)%nat.
    + eexists (_ :: pre), s, post. split; [reflexivity|]. split; [exact Hs|].
      split; [exact Hne|]. intros s' [<- | Hin]; [reflexivity | apply Hpre_top; exact Hin].
    + exists pre, s, post. split; [reflexivity|]. split; [exact Hs|].
      split; [exact Hne | exact Hpre_top].
  - right. split; [reflexivity|].
    intros s Hin. unfold _split_sections in Hin.
    destruct lines as [|l0 ls]; [destruct Hin|].
    assert (Hsecs : forall s', In s' (heading_sections p (l0 :: ls)
                                        (boundaries_from 0 (l0 :: ls))) ->
                               heading s' = "(top)").
    { intros s' Hs'. apply (in_map heading) in Hs'.
      rewrite heading_sections_headings in Hs'.
      apply in_map_iff in Hs' as (b & <- & Hb). apply H. exact Hb. }
    destruct (boundaries_from 0 (l0 :: ls)) as [|[first h0] bs].
    + destruct Hin as [<- | []]. reflexivity.
    + apply in_app_or in Hin as [Hin | Hin]; [|apply Hsecs; exact Hin].
      destruct (0 <? first)%nat; [|destruct Hin].
      destruct Hin as [<- | []]. reflexivity.
Qed.

End TitleAndSections.

(* ===================================================================== *)
(** * vault_tools.py: searching the files *)
(* ===================================================================== *)

Section SearchVault.
Import Py Re App VaultTools Spec SpecMore.

Lemma find_heading_not_empty lines index : _find_heading lines index <> "".
Proof.
  unfold _find_heading. destruct lines as [|l0 ls]; [discriminate|].
  destruct (_ <? 0)%Z; [discriminate | apply find_heading_loop_nonempty].
Qed.

Lemma line_hits_spec lines terms sc idx :
  In (sc, idx) (line_hits lines terms) -> (0 < sc)%Z /\ (idx < length lines)%nat.
Proof.
  unfold line_hits. intros H. apply in_flat_map in H as ([i line] & Hin & H).
  apply enumerate_from_bound in Hin.
  destruct (0 <? _score_line line terms)%Z eqn:E; [|destruct H].
  destruct H as [[= <- <-] | []]. apply Z.ltb_lt in E. split; [exact E | lia].
Qed.

Lemma hit_snippet_spec cfg rel_path lines fs sc idx :
  (0 < sc)%Z -> (0 <= fs)%Z -> (idx < length lines)%nat ->
  let s := hit_snippet cfg rel_path lines fs (sc, idx) in
  s_path s = rel_path /\ (0 < s_score s)%Z /\ s_heading s <> ""
  /\ ((0 <= max_snippet_lines cfg)%Z ->
      (1 <= s_line_start s <= s_line_end s)%Z
      /\ (s_line_end s - s_line_start s <= 2 * max_snippet_lines cfg)%Z
      /\ (s_line_end s <= Z.max 1 (Z.of_nat (length lines)))%Z).
Proof.
  intros Hsc Hfs Hidx. cbv zeta. unfold hit_snippet.
  cbn [s_path s_score s_heading s_line_start s_line_end].
  split; [reflexivity|]. split; [lia|].
  split; [apply find_heading_not_empty|]. intros Hm. lia.
Qed.

Lemma name_snippet_spec cfg rel_path lines fs :
  (0 < fs)%Z ->
  let s := name_snippet cfg rel_path lines fs in
  s_path s = rel_path /\ (0 < s_score s)%Z /\ s_heading s <> ""
  /\ ((0 <= max_snippet_lines cfg)%Z ->
      (1 <= s_line_start s <= s_line_end s)%Z
      /\ (s_line_end s - s_line_start s <= 2 * max_snippet_lines cfg)%Z
      /\ (s_line_end s <= Z.max 1 (Z.of_nat (length lines)))%Z).
Proof.
  intros Hfs. cbv zeta. unfold name_snippet.
  cbn [s_path s_score s_heading s_line_start s_line_end].
  split; [reflexivity|]. split; [exact Hfs|].
  split; [apply find_heading_not_empty|]. intros Hm.
  destruct (0 <? _)%Z eqn:E; [apply Z.ltb_lt in E|]; lia.
Qed.

Lemma file_snippets_spec cfg terms f s :
  In s (file_snippets cfg terms f) ->
  (0 < s_score s)%Z /\ s_heading s <> ""
  /\ VaultBuild.endswith (lower (c_file f)) ".md" = true
  /\ s_path s = c_rel_path f
  /\ exists content,
       c_content f = Some content
       /\ ((0 <= max_snippet_lines cfg)%Z ->
           (1 <= s_line_start s <= s_line_end s)%Z
           /\ (s_line_end s - s_line_start s <= 2 * max_snippet_lines cfg)%Z
           /\ (s_line_end s
               <= Z.max 1 (Z.of_nat (length (splitlines content))))%Z).
Proof.
  unfold file_snippets.
  destruct (VaultBuild.endswith (lower (c_file f)) ".md"); [|intros []].
  cbn [negb]. cbv iota.
  set (fs := (Z.of_nat (length (List.filter _ terms)) * 3)%Z).
  assert (Hfs : (0 <= fs)%Z) by (unfold fs; lia).
  destruct (c_content f) as [content|]; [|intros []].
  set (lines := splitlines content).
  assert (Hname : (0 < fs)%Z ->
            s = name_snippet cfg (c_rel_path f) lines fs ->
            (0 < s_score s)%Z /\ s_heading s <> ""
            /\ true = true /\ s_path s = c_rel_path f
            /\ exists content0, Some content = Some content0
                 /\ ((0 <= max_snippet_lines cfg)%Z ->
                     (1 <= s_line_start s <= s_line_end s)%Z
                     /\ (s_line_end s - s_line_start s <= 2 * max_snippet_lines cfg)%Z
                     /\ (s_line_end s
                         <= Z.max 1 (Z.of_nat (length (splitlines content0))))%Z)).
  { intros Hpos ->.
    destruct (name_snippet_spec cfg (c_rel_path f) lines fs Hpos)
      as (H1 & H2 & H3 & H4).
    split; [exact H2|]. split; [exact H3|]. split; [reflexivity|].
    split; [exact H1|]. exists content. split; [reflexivity | exact H4]. }
  destruct (line_hits lines terms) as [|h hs] eqn:Ehits.
  - destruct (fs =? 0)%Z; [intros []|].
    destruct (0 <? fs)%Z eqn:E; [|intros []]. apply Z.ltb_lt in E.
    intros [<- | []]. apply Hname; [exact E | reflexivity].
  - intros Hin. apply in_app_or in Hin as [Hin | Hin].
    + apply in_map_iff in Hin as ([sc idx] & <- & Hin).
      destruct (slice_to_prefix 3 (sort_desc fst (h :: hs))) as [n Hn].
      rewrite Hn in Hin. apply In_take in Hin.
      apply (Permutation_in _ (sort_desc_perm fst (h :: hs))) in Hin.
      rewrite <- Ehits in Hin. apply line_hits_spec in Hin as [Hsc Hidx].
      destruct (hit_snippet_spec cfg (c_rel_path f) lines fs sc idx Hsc Hfs Hidx)
        as (H1 & H2 & H3 & H4).
      split; [exact H2|]. split; [exact H3|]. split; [reflexivity|].
      split; [exact H1|]. exists content. split; [reflexivity | exact H4].
    + destruct (slice_to 3 (sort_desc fst (h :: hs))); [|destruct Hin].
      destruct (0 <? fs)%Z eqn:E; [|destruct Hin]. apply Z.ltb_lt in E.
      destruct Hin as [<- | []]. apply Hname; [exact E | reflexivity].
Qed.

(** X23: the snippets of [search_vault] are in descending order of
    score.  Each has a positive score, a heading that is not empty and
    the path of a walked Markdown file that could be read; and when
    [max_snippet_lines] is not negative its lines are a range of at
    most [2 * max_snippet_lines + 1] lines that starts at line 1 or
    later and ends inside the file (at line 1 for a file without
    lines).  A limit that is positive bounds their number, a limit of
    0 or none stands for the configured one; and without a vault
    directory or without a term in the query there is no snippet. *)
Theorem search_vault_ranks_file_snippets
    (cfg : tool_settings) (files : list candidate) (query : string)
    (limit : option Z) :
  (forall (i j : nat) a b,
     (i < j)%nat ->
     search_vault cfg files query limit !! i = Some a ->
     search_vault cfg files query limit !! j = Some b ->
     (s_score b <= s_score a)%Z)
  /\ (forall s, In s (search_vault cfg files query limit) ->
        (0 < s_score s)%Z /\ s_heading s <> ""
        /\ exists f content,
             In f files
             /\ VaultBuild.endswith (lower (c_file f)) ".md" = true
             /\ c_content f = Some content
             /\ s_path s = c_rel_path f
             /\ ((0 <= max_snippet_lines cfg)%Z ->
                 (1 <= s_line_start s <= s_line_end s)%Z
                 /\ (s_line_end s - s_line_start s
                     <= 2 * max_snippet_lines cfg)%Z
                 /\ (s_line_end s
                     <= Z.max 1 (Z.of_nat (length (splitlines content))))%Z))
  /\ (forall k, limit = Some k -> (0 < k)%Z ->
        (Z.of_nat (length (search_vault cfg files query limit)) <= k)%Z)
  /\ (limit = None \/ limit = Some 0%Z -> (0 <= max_snippets cfg)%Z ->
      (Z.of_nat (length (search_vault cfg files query limit))
       <= max_snippets cfg)%Z)
  /\ (root_is_dir cfg = false \/ _tokenize query = [] ->
      search_vault cfg files query limit = []).
Proof.
  unfold search_vault.
  destruct (root_is_dir cfg); cbn [negb]; cbv iota.
  2: { split; [intros i j a b _ Ha; discriminate Ha|].
       split; [intros s []|]. split; [intros; simpl; lia|].
       split; [intros; simpl; lia | reflexivity]. }
  destruct (_tokenize query) as [|t0 ts] eqn:Eterms.
  { split; [intros i j a b _ Ha; discriminate Ha|].
    split; [intros s []|]. split; [intros; simpl; lia|].
    split; [intros; simpl; lia | reflexivity]. }
  set (terms := t0 :: ts).
  set (results := flat_map (file_snippets cfg terms) files).
  set (k := match limit with
            | Some k => if (k =? 0)%Z then max_snippets cfg else k
            | None => max_snippets cfg
            end).
  destruct (slice_to_prefix k (sort_desc s_score results)) as [n Hn].
  split; [|split; [|split; [|split]]].
  - rewrite Hn. apply (strongly_sorted_lookup (desc s_score)).
    apply take_sorted. apply sort_desc_sorted.
  - intros s Hs. rewrite Hn in Hs. apply In_take in Hs.
    apply (Permutation_in _ (sort_desc_perm s_score results)) in Hs.
    apply in_flat_map in Hs as (f & Hf & Hs).
    apply file_snippets_spec in Hs as (H1 & H2 & H3 & H4 & content & H5 & H6).
    split; [exact H1|]. split; [exact H2|]. exists f, content. auto.
  - intros k' -> Hk'. unfold k.
    destruct (k' =? 0)%Z eqn:E; [apply Z.eqb_eq in E; lia|].
    apply slice_to_length. lia.
  - intros Hlim Hmax. assert (Hk : k = max_snippets cfg).
    { unfold k. destruct Hlim as [-> | ->]; reflexivity. }
    rewrite Hk. apply slice_to_length. exact Hmax.
  - intros [H | H]; discriminate H.
Qed.

Lemma search_vault_ranks_file_snippets_witness :
  let cfg := {| root_is_dir := true; max_snippets := 10; max_snippet_lines := 1 |} in
  let files :=
    [ {| c_rel_path := "notes/gln.md"; c_file := "gln.md";
         c_content := Some ("# GLN" +:+ VaultIndex.nl +:+ "intro"
                            +:+ VaultIndex.nl +:+ "GLN koster 499 kr.") |};
      {| c_rel_path := "readme.txt"; c_file := "readme.txt";
         c_content := Some "GLN" |} ] in
  map (fun s => (s_path s, s_heading s, s_line_start s, s_line_end s, s_score s))
      (search_vault cfg files "GLN" (Some 1%Z))
  = [("notes/gln.md", "GLN", 1%Z, 2%Z, 4%Z)]
  /\ (Z.of_nat (length (search_vault cfg files "GLN" (Some 1%Z))) <= 1)%Z.
Proof.
  intros cfg files. split; [vm_compute; reflexivity|].
  destruct (search_vault_ranks_file_snippets cfg files "GLN" (Some 1%Z))
    as (_ & _ & H & _).
  apply (H 1%Z); [reflexivity | lia].
Defined.

End SearchVault.

(* ===================================================================== *)
(** * The chat endpoint *)
(* ===================================================================== *)

Section ChatSelection.
Import Py Re Session Chat Spec SpecMore.

Lemma headed_stored secs s : In s secs -> headed_as secs (path s) (heading s).
Proof. intros H. exists s. auto. Qed.

Lemma find_sections_headed idx query top_k r :
  In r (find_sections idx query top_k) ->
  headed_as (sections idx) (path r) (heading r).
Proof.
  rewrite find_sections_positive.
  destruct (query_tokens query) as [|t0 ts]; [intros []|].
  destruct (slice_to_prefix top_k
              (sort_by_score (flat_map (positive_copy (notes idx) query)
                                       (sections idx)))) as [n Hn].
  rewrite Hn. intros Hin. apply In_take in Hin.
  apply (Permutation_in _ (sort_desc_perm score _)) in Hin.
  apply in_flat_map in Hin as (s & Hs & Hin).
  unfold positive_copy in Hin.
  destruct (0 <? spec_score (notes idx) query s)%Z; [|destruct Hin].
  destruct Hin as [<- | []]. exists s. auto.
Qed.

Lemma rank_sections_headed secs query top_k r :
  In r (_rank_sections secs query top_k) ->
  headed_as secs (path r) (heading r).
Proof.
  unfold _rank_sections.
  destruct (List.filter truthy (findall false WORD_PATTERN (lower query)))
    as [|t0 ts]; [intros []|].
  set (tokens := t0 :: ts).
  destruct (slice_to_prefix top_k
              (sort_desc score (flat_map (ranked_copy tokens (lower query)) secs)))
    as [n Hn].
  rewrite Hn. intros Hin. apply In_take in Hin.
  apply (Permutation_in _ (sort_desc_perm score _)) in Hin.
  apply in_flat_map in Hin as (s & Hs & Hin).
  unfold ranked_copy in Hin.
  destruct (0 <? rank_score s tokens (lower query))%Z; [|destruct Hin].
  destruct Hin as [<- | []]. exists s. auto.
Qed.

Lemma price_candidates_headed v query max_sections s :
  In s (fst (_price_candidate_sections v query max_sections)) ->
  headed_as (v_sections v) (path s) (heading s).
Proof.
  unfold _price_candidate_sections.
  destruct (find_paths_by_alias v query) as [|p ps].
  - set (scored := find_sections (index_of v) _ max_sections).
    assert (Hscored : forall r, In r scored ->
                                headed_as (v_sections v) (path r) (heading r)).
    { intros r Hr. apply find_sections_headed in Hr. exact Hr. }
    destruct scored as [|r0 rs] eqn:E; [intros []|].
    cbn [fst]. unfold or_list.
    destruct (sections_for_paths v (_select_top_paths (r0 :: rs) 2)) as [|e es] eqn:Ee.
    + exact (Hscored s).
    + intros Hin. rewrite <- Ee in Hin. apply sections_for_paths_stored in Hin as [Hin _].
      apply headed_stored. exact Hin.
  - cbn [fst]. intros Hin. apply sections_for_paths_stored in Hin as [Hin _].
    apply headed_stored. exact Hin.
Qed.

Lemma price_item_headed secs item :
  In item (extract_price_items secs) ->
  exists section, In section secs
                  /\ i_path item = path section /\ i_heading item = heading section.
Proof.
  unfold extract_price_items. intros Hin.
  apply (Permutation_in _ (sort_items_perm _)) in Hin.
  apply dedupe_spec in Hin as [_ Hin].
  apply in_flat_map in Hin as (section & Hsec & Hin).
  unfold section_items in Hin.
  apply in_flat_map in Hin as ([idx line] & _ & Hin).
  apply line_items_shape in Hin as (name & price & ->).
  exists section. auto.
Qed.

Lemma filter_price_items_subset items query item :
  In item (filter_price_items items query) -> In item items.
Proof.
  unfold filter_price_items.
  destruct (_query_tokens query) as [|t ts]; [auto|].
  intros Hin.
  destruct (dedupe_by_name_spec (List.filter (name_has_token (t :: ts)) items) ∅)
    as (Hsub & _).
  apply list_elem_of_In in Hin.
  apply (fun H => elem_of_sublist _ _ _ H Hsub) in Hin.
  apply list_elem_of_In in Hin. apply filter_In in Hin as [Hin _]. exact Hin.
Qed.

Lemma price_snippets_origin sep items :
  exists snippets,
    build_price_snippets_from_items sep items = Some snippets
    /\ (items <> [] -> snippets <> [])
    /\ forall s, In s snippets ->
         exists item, In item items
                      /\ s_path s = i_path item /\ s_heading s = i_heading item.
Proof.
  unfold build_price_snippets_from_items.
  destruct (group_items_get items [] []) as (Hnd & Hget);
    [constructor | intros k; reflexivity |].
  simpl in Hget. set (d := fold_left group_item items []) in *.
  assert (Hgroups : forall k g, In (k, g) d -> g = item_group items k /\ g <> []).
  { intros k g Hin. apply (dict_in_get d k g Hnd) in Hin.
    rewrite Hget in Hin. destruct (item_group items k); [discriminate|].
    injection Hin as <-. split; [reflexivity | discriminate]. }
  destruct (collect_snippets_spec sep d) as (l & Hl & _ & Hfrom & Hto);
    [intros k g Hin; apply (Hgroups k g Hin)|].
  exists l. split; [exact Hl|]. split.
  - intros Hne. destruct items as [|item rest]; [contradiction|].
    set (k := (i_path item, i_heading item)).
    assert (Hg : In item (item_group (item :: rest) k))
      by (apply item_group_In; split; [left; reflexivity | reflexivity]).
    pose proof (Hget k) as Hk.
    destruct (item_group (item :: rest) k) as [|x g] eqn:E; [destruct Hg|].
    apply dict_get_in in Hk. destruct (Hto k (x :: g) Hk) as (s & Hs & _).
    intros ->. destruct Hs.
  - intros s Hs. destruct (Hfrom s Hs) as (k & g & Hin & Hsn).
    destruct (Hgroups k g Hin) as [Hg Hne].
    apply group_snippet_spec in Hsn as (Hkey & _).
    destruct g as [|item g']; [contradiction|].
    assert (Hitem : In item (item_group items k)) by (rewrite <- Hg; left; reflexivity).
    apply item_group_In in Hitem as [Hin' Hk].
    exists item. split; [exact Hin'|].
    rewrite <- Hkey in Hk. injection Hk as -> ->. auto.
Qed.

Lemma inclusion_snippets_headed secs query limit s :
  In s (extract_inclusion_snippets secs query limit) ->
  exists section, In section secs
                  /\ s_path s = path section /\ s_heading s = heading section.
Proof.
  unfold extract_inclusion_snippets.
  destruct (_query_tokens query) as [|t ts]; [intros []|].
  destruct (inclusion_sections_inv (t :: ts) limit secs secs [])
    as (Hall & _); [auto | constructor | simpl; lia |].
  intros Hs. rewrite Forall_forall in Hall.
  apply list_elem_of_In in Hs. destruct (Hall s Hs) as (section & Hin & Hw).
  destruct Hw as (Hp & Hh & _). exists section. auto.
Qed.

Lemma brancher_snippets_headed v s :
  In s (build_brancher_count_snippets v) ->
  headed_as (v_sections v) (s_path s) (s_heading s).
Proof.
  unfold build_brancher_count_snippets.
  destruct (find _ (Dict.keys (v_notes v))) as [target|]; [|intros []].
  destruct (negb (truthy target)); [intros []|].
  destruct (find _ (v_sections v)) as [pages|] eqn:E; [|intros []].
  apply find_some in E as [Hin _].
  destruct (List.filter _ (splitlines (text pages))); [intros []|].
  intros [<- | []]. exists pages. auto.
Qed.

Lemma select_price_spec cfg sep v text :
  select_price cfg sep v text <> Raised
  /\ forall snippets pq,
       select_price cfg sep v text = Selected snippets pq ->
       snippets <> []
       /\ forall s, In s snippets -> headed_as (v_sections v) (s_path s) (s_heading s).
Proof.
  unfold select_price.
  pose proof (price_candidates_headed v text (cfg_max_snippets cfg * 4)) as Hcand.
  destruct (_price_candidate_sections v text (cfg_max_snippets cfg * 4))
    as [candidates alias_paths].
  cbn [fst] in Hcand.
  destruct candidates as [|c0 cs]; [split; [discriminate | intros ? ? [=]]|].
  set (candidates := c0 :: cs) in *.
  set (items0 := extract_price_items candidates).
  set (items := match items0, alias_paths with
                | _ :: _, [] => filter_price_items items0 text
                | _, _ => items0
                end).
  assert (Hitems : forall item, In item items ->
            headed_as (v_sections v) (i_path item) (i_heading item)).
  { intros item Hin.
    assert (Hin0 : In item items0).
    { unfold items in Hin. destruct items0 as [|i0 is0]; [exact Hin|].
      destruct alias_paths; [apply filter_price_items_subset in Hin|]; exact Hin. }
    apply price_item_headed in Hin0 as (section & Hsec & Hp & Hh).
    destruct (Hcand section Hsec) as (s0 & Hs0 & Hp0 & Hh0).
    exists s0. split; [exact Hs0|]. split; congruence. }
  destruct items as [|item rest] eqn:Eitems.
  - destruct (extract_inclusion_snippets candidates text 4) as [|i0 is0] eqn:Eincl;
      [split; [discriminate | intros ? ? [=]]|].
    split; [discriminate|]. intros snippets pq [= <- <-].
    split; [discriminate|]. intros s Hs. rewrite <- Eincl in Hs.
    apply inclusion_snippets_headed in Hs as (section & Hsec & Hp & Hh).
    destruct (Hcand section Hsec) as (s0 & Hs0 & Hp0 & Hh0).
    exists s0. split; [exact Hs0|]. split; congruence.
  - destruct (price_snippets_origin sep (item :: rest)) as (l & -> & Hne & Hfrom).
    split; [discriminate|]. intros snippets pq [= <- <-].
    split; [apply Hne; discriminate|].
    intros s Hs. destruct (Hfrom s Hs) as (it & Hin & Hp & Hh).
    destruct (Hitems it Hin) as (s0 & Hs0 & Hp0 & Hh0).
    exists s0. split; [exact Hs0|]. split; congruence.
Qed.

Lemma select_general_spec cfg v text price_query :
  select_general cfg v text price_query <> Raised
  /\ forall snippets pq,
       select_general cfg v text price_query = Selected snippets pq ->
       snippets <> []
       /\ forall s, In s snippets -> headed_as (v_sections v) (s_path s) (s_heading s).
Proof.
  unfold select_general. cbv zeta.
  assert (Hcand : forall r,
            In r match find_paths_by_alias v text with
                 | [] => find_sections (index_of v) text (cfg_max_snippets cfg)
                 | _ :: _ =>
                     _rank_sections (sections_for_paths v (find_paths_by_alias v text))
                                    text (cfg_max_snippets cfg)
                 end ->
            headed_as (v_sections v) (path r) (heading r)).
  { intros r Hr. destruct (find_paths_by_alias v text) as [|p ps].
    - apply find_sections_headed in Hr. exact Hr.
    - apply rank_sections_headed in Hr as (s0 & Hs0 & Hp & Hh).
      apply sections_for_paths_stored in Hs0 as [Hs0 _]. exists s0. auto. }
  destruct (match find_paths_by_alias v text with
            | [] => find_sections (index_of v) text (cfg_max_snippets cfg)
            | _ :: _ =>
                _rank_sections (sections_for_paths v (find_paths_by_alias v text))
                               text (cfg_max_snippets cfg)
            end) as [|r0 rs]; [split; [discriminate | intros ? ? [=]]|].
  split; [discriminate|]. intros snippets pq [= <- <-].
  split; [discriminate|].
  intros s Hs. unfold build_snippets_from_sections in Hs.
  change (snippet_of_section 1600 r0 :: map (snippet_of_section 1600) rs)
    with (map (snippet_of_section 1600) (r0 :: rs)) in Hs.
  apply in_map_iff in Hs as (r & <- & Hr). apply (Hcand r Hr).
Qed.

Lemma select_snippets_spec cfg sep v text price_query :
  select_snippets cfg sep v text price_query <> Raised
  /\ forall snippets pq,
       select_snippets cfg sep v text price_query = Selected snippets pq ->
       snippets <> []
       /\ forall s, In s snippets -> headed_as (v_sections v) (s_path s) (s_heading s).
Proof.
  unfold select_snippets.
  destruct (is_count_query text && is_industry_query text).
  - destruct (build_brancher_count_snippets v) as [|s0 ss] eqn:E;
      [split; [discriminate | intros ? ? [=]]|].
    split; [discriminate|]. intros snippets pq [= <- <-].
    split; [discriminate|]. intros s Hs. rewrite <- E in Hs.
    apply brancher_snippets_headed. exact Hs.
  - destruct price_query; [apply select_price_spec | apply select_general_spec].
Qed.

End ChatSelection.

Section ChatTurns.
Import Py Re Session Chat Spec SpecMore.







Lemma get_sources_after_record st v srcs user_id channel_id text reply :
  get_sources
    (w_store (record_turn
                {| w_store := set_sources st user_id channel_id srcs; w_index := v |}
                user_id channel_id text reply))
    user_id channel_id = srcs.
Proof.
  unfold get_sources, record_turn, _update_history, update_session, set_sources.
  cbn [w_store sources]. rewrite lookup_insert_eq. reflexivity.
Qed.

Lemma answer_cites run w user_id channel_id text pq snippets :
  snippets <> [] ->
  (forall s, In s snippets ->
     no_linebreak (s_path s) = true /\ no_linebreak (s_heading s) = true) ->
  exists reply,
    snd (answer run w user_id channel_id text true pq snippets) = Some reply
    /\ (strip reply = NO_INFO_LINE
        \/ is_runner_error reply = true
        \/ (parse_sources reply <> []
            /\ get_sources
                 (w_store (fst (answer run w user_id channel_id text true pq snippets)))
                 user_id channel_id
               = parse_sources reply)).
Proof.
  intros Hne Hclean. unfold answer.
  set (conv := get_session (w_store w) user_id channel_id ++ [("user", text)]).
  set (r1 := run (build_system_prompt true pq) conv snippets).
  destruct (String.eqb (strip r1) NO_INFO_LINE) eqn:E1.
  { exists r1. split; [reflexivity|]. left. apply String.eqb_eq. exact E1. }
  destruct (is_runner_error r1) eqn:E2.
  { exists r1. split; [reflexivity|]. right. left. exact E2. }
  set (r := if negb (contains "Sources:" r1)
            then run (build_system_prompt true pq
                      +:+ " You MUST include a Sources section with citations.")
                     conv snippets
            else r1).
  assert (Hparse : parse_sources (fst (ensure_sources r snippets))
                   = snd (ensure_sources r snippets)).
  { apply ensure_sources_parses. intros c Hc.
    apply in_map_iff in Hc as (s & <- & Hs). apply In_take in Hs.
    destruct (Hclean s Hs) as [Hp Hh]. apply citation_clean; assumption. }
  pose proof (ensure_sources_nonempty r snippets Hne) as Hsome.
  destruct (ensure_sources r snippets) as [reply srcs]. cbn [fst snd] in *.
  exists reply. split; [reflexivity|]. right. right.
  rewrite get_sources_after_record, Hparse. split; [exact Hsome | reflexivity].
Qed.

(** X25: an info-seeking message is answered with its sources.  When
    no path and no heading of the index holds a line break, the reply
    of [chat] to a message that is not empty, no identity question, and
    info-seeking is the no-info line, or a text the runner returned
    that strips to the no-info line or reports a runner error, or else
    a text from which [parse_sources] reads at least one source; and in
    this last case the sources stored for the conversation are exactly
    the ones read from the reply. *)
Theorem chat_reply_cites_stored_sources
    (cfg : chat_settings) (sep : string) (run : runner) (fs : filesystem)
    (w : world) (user_id channel_id request_text : string) :
  let text := strip request_text in
  let out := chat cfg sep run fs w user_id channel_id request_text in
  text <> "" ->
  is_identity_question text = false ->
  is_info_seeking text = true ->
  clean_sections (v_sections (ensure_index cfg fs (w_index w))) ->
  exists reply,
    snd out = Some reply
    /\ (strip reply = NO_INFO_LINE
        \/ is_runner_error reply = true
        \/ (parse_sources reply <> []
            /\ get_sources (w_store (fst out)) user_id channel_id
               = parse_sources reply)).
Proof.
  intros text out Htext Hid Hinfo Hclean. unfold out, chat. fold text.
  apply truthy_true in Htext. rewrite Htext, Hid, Hinfo. cbn [negb]. cbv iota.
  set (w1 := {| w_store := w_store w;
                w_index := ensure_index cfg fs (w_index w) |}).
  destruct (select_snippets_spec cfg sep (w_index w1) text (is_price_query text))
    as [Hraise Hsel].
  destruct (select_snippets cfg sep (w_index w1) text (is_price_query text))
    as [| |snippets pq].
  - exists NO_INFO_LINE. split; [reflexivity|]. left. vm_compute. reflexivity.
  - contradiction.
  - destruct (Hsel snippets pq eq_refl) as [Hne Hheaded].
    apply answer_cites; [exact Hne|].
    intros s Hs. destruct (Hheaded s Hs) as (s0 & Hs0 & Hp & Hh).
    destruct (Hclean s0 Hs0) as [Hcp Hch]. rewrite <- Hp, <- Hh. auto.
Qed.

Lemma chat_reply_cites_stored_sources_witness :
  let cfg := {| cfg_max_snippets := 5; cfg_vault_path := false |} in
  let fs := {| fs_is_dir := false; fs_files := [] |} in
  let w :=
    {| w_store := {| max_turns := 4; sessions := ∅; sources := ∅ |};
       w_index :=
         {| v_sections :=
              [ {| path := "gln.md"; heading := "GLN"; line_start := 1;
                   line_end := 2; text := "GLN er et nummer"; score := 0 |} ];
            v_notes := [] |} |} in
  let run : runner := fun _ _ _ => "GLN er et nummer." in
  let out := chat cfg " - " run fs w "u1" "c1" " Hvad er GLN? " in
  strip " Hvad er GLN? " <> ""
  /\ is_identity_question (strip " Hvad er GLN? ") = false
  /\ is_info_seeking (strip " Hvad er GLN? ") = true
  /\ clean_sections (v_sections (ensure_index cfg fs (w_index w)))
  /\ snd out = Some ("GLN er et nummer." +:+ nl +:+ nl +:+ "Sources:" +:+ nl
                     +:+ "- gln.md#GLN (lines 1-2)")
  /\ exists reply,
       snd out = Some reply
       /\ (strip reply = NO_INFO_LINE
           \/ is_runner_error reply = true
           \/ (parse_sources reply <> []
               /\ get_sources (w_store (fst out)) "u1" "c1" = parse_sources reply)).
Proof.
  intros cfg fs w run out.
  assert (H1 : strip " Hvad er GLN? " <> "") by (vm_compute; discriminate).
  assert (H2 : is_identity_question (strip " Hvad er GLN? ") = false)
    by (vm_compute; reflexivity).
  assert (H3 : is_info_seeking (strip " Hvad er GLN? ") = true)
    by (vm_compute; reflexivity).
  assert (H4 : clean_sections (v_sections (ensure_index cfg fs (w_index w)))).
  { intros s [<- | []]. split; vm_compute; reflexivity. }
  split; [exact H1|]. split; [exact H2|]. split; [exact H3|]. split; [exact H4|].
  split; [vm_compute; reflexivity|].
  exact (chat_reply_cites_stored_sources cfg " - " run fs w "u1" "c1"
           " Hvad er GLN? " H1 H2 H3 H4).
Defined.

End ChatTurns.

Section ChatGrounding.
Import Py Re Session Chat Spec SpecMore.

Lemma find_sections_no_sections idx query top_k :
  sections idx = [] -> find_sections idx query top_k = [].
Proof.
  intros He. rewrite find_sections_positive, He.
  destruct (query_tokens query); [reflexivity|].
  destruct (slice_to_prefix top_k (sort_by_score
              (flat_map (positive_copy (notes idx) query) []))) as [n ->].
  simpl. destruct n; reflexivity.
Qed.

Lemma rank_sections_no_sections query top_k : _rank_sections [] query top_k = [].
Proof.
  unfold _rank_sections.
  destruct (List.filter truthy _) as [|t0 ts]; [reflexivity|].
  destruct (slice_to_prefix top_k (sort_desc score
              (flat_map (ranked_copy (t0 :: ts) (lower query)) []))) as [n ->].
  simpl. destruct n; reflexivity.
Qed.

Lemma sections_for_paths_no_sections v paths :
  v_sections v = [] -> sections_for_paths v paths = [].
Proof. intros He. unfold sections_for_paths. rewrite He. reflexivity. Qed.

Lemma select_snippets_no_sections cfg sep v text price_query :
  v_sections v = [] -> select_snippets cfg sep v text price_query = NoInfo.
Proof.
  intros He. unfold select_snippets.
  destruct (is_count_query text && is_industry_query text).
  - unfold build_brancher_count_snippets. rewrite He.
    destruct (find _ (Dict.keys (v_notes v))) as [target|]; [|reflexivity].
    destruct (negb (truthy target)); reflexivity.
  - destruct price_query.
    + unfold select_price, _price_candidate_sections.
      destruct (find_paths_by_alias v text) as [|p ps].
      * rewrite find_sections_no_sections by exact He. reflexivity.
      * rewrite sections_for_paths_no_sections by exact He. reflexivity.
    + unfold select_general.
      destruct (find_paths_by_alias v text) as [|p ps].
      * rewrite find_sections_no_sections by exact He. reflexivity.
      * rewrite sections_for_paths_no_sections by exact He.
        rewrite rank_sections_no_sections. reflexivity.
Qed.

(** X26: [chat] answers an info-seeking message from the vault or not
    at all.  When the index, after the lazy build, has no section, the
    reply to a message that is not empty, no identity question and
    info-seeking is the no-info line, whatever the runner would say:
    two runners give the same result.  And whatever the index, the
    snippets the request is answered from are never empty, and each
    carries the path and the heading of a section of the index. *)
Theorem chat_answers_from_the_vault_only
    (cfg : chat_settings) (sep : string) (run : runner) (fs : filesystem)
    (w : world) (user_id channel_id request_text : string) :
  let text := strip request_text in
  let v := ensure_index cfg fs (w_index w) in
  text <> "" ->
  is_identity_question text = false ->
  is_info_seeking text = true ->
  (v_sections v = [] ->
   snd (chat cfg sep run fs w user_id channel_id request_text) = Some NO_INFO_LINE
   /\ forall run' : runner,
        chat cfg sep run' fs w user_id channel_id request_text
        = chat cfg sep run fs w user_id channel_id request_text)
  /\ (forall snippets pq,
        select_snippets cfg sep v text (is_price_query text) = Selected snippets pq ->
        chat cfg sep run fs w user_id channel_id request_text
        = answer run {| w_store := w_store w; w_index := v |}
                 user_id channel_id text true pq snippets
        /\ snippets <> []
        /\ forall s, In s snippets ->
             headed_as (v_sections v) (s_path s) (s_heading s)).
Proof.
  intros text v Htext Hid Hinfo.
  apply truthy_true in Htext.
  assert (Hchat : forall r : runner,
            chat cfg sep r fs w user_id channel_id request_text
            = match select_snippets cfg sep v text (is_price_query text) with
              | NoInfo =>
                  (record_turn {| w_store := w_store w; w_index := v |}
                               user_id channel_id text NO_INFO_LINE,
                   Some NO_INFO_LINE)
              | Raised => ({| w_store := w_store w; w_index := v |}, None)
              | Selected snippets pq =>
                  answer r {| w_store := w_store w; w_index := v |}
                         user_id channel_id text true pq snippets
              end).
  { intros r. unfold chat. fold text. rewrite Htext, Hid, Hinfo. reflexivity. }
  split.
  - intros He. rewrite !Hchat.
    rewrite (select_snippets_no_sections cfg sep v text _ He).
    split; [reflexivity|]. intros run'. rewrite Hchat.
    rewrite (select_snippets_no_sections cfg sep v text _ He). reflexivity.
  - intros snippets pq Hsel. rewrite Hchat, Hsel. split; [reflexivity|].
    destruct (select_snippets_spec cfg sep v text (is_price_query text)) as [_ H].
    apply (H snippets pq Hsel).
Qed.

Lemma chat_answers_from_the_vault_only_witness :
  let cfg := {| cfg_max_snippets := 5; cfg_vault_path := true |} in
  let fs := {| fs_is_dir := false; fs_files := [] |} in
  let w := {| w_store := {| max_turns := 4; sessions := ∅; sources := ∅ |};
              w_index := {| v_sections := []; v_notes := [] |} |} in
  let run : runner := fun _ _ _ => "499 kr." in
  strip "Hvad koster GLN?" <> ""
  /\ is_identity_question (strip "Hvad koster GLN?") = false
  /\ is_info_seeking (strip "Hvad koster GLN?") = true
  /\ v_sections (ensure_index cfg fs (w_index w)) = []
  /\ snd (chat cfg " - " run fs w "u1" "c1" "Hvad koster GLN?") = Some NO_INFO_LINE.
Proof.
  intros cfg fs w run.
  assert (H1 : strip "Hvad koster GLN?" <> "") by (vm_compute; discriminate).
  assert (H2 : is_identity_question (strip "Hvad koster GLN?") = false)
    by (vm_compute; reflexivity).
  assert (H3 : is_info_seeking (strip "Hvad koster GLN?") = true)
    by (vm_compute; reflexivity).
  assert (H4 : v_sections (ensure_index cfg fs (w_index w)) = [])
    by (vm_compute; reflexivity).
  split; [exact H1|]. split; [exact H2|]. split; [exact H3|]. split; [exact H4|].
  exact (proj1 (proj1 (chat_answers_from_the_vault_only cfg " - " run fs w "u1" "c1"
                         "Hvad koster GLN?" H1 H2 H3) H4)).
Defined.

End ChatGrounding.

(* ===================================================================== *)
(** * Conversations are kept apart *)
(* ===================================================================== *)

Section Conversations.
Import Py Re Session Spec SpecMore.

Lemma split_at_first {B} (x : B) (a a' b b' : list B) :
  ~ In x a -> ~ In x a' -> a ++ x :: b = a' ++ x :: b' -> a = a' /\ b = b'.
Proof.
  revert a'. induction a as [|y a IH]; intros a' Ha Ha' H.
  - destruct a' as [|y' a']; simpl in H.
    + injection H as ->. auto.
    + injection H as <- _. exfalso. apply Ha'. left. reflexivity.
  - destruct a' as [|y' a']; simpl in H.
    + injection H as -> _. exfalso. apply Ha. left. reflexivity.
    + injection H as -> H. destruct (IH a') as [-> ->]; auto.
      * intros Hin. apply Ha. right. exact Hin.
      * intros Hin. apply Ha'. right. exact Hin.
Qed.

Lemma no_colon_chars u : contains ":" u = false -> ~ In ":"%char (chars u).
Proof.
  intros H Hin. apply in_split in Hin as (a & b & E).
  assert (Hc : contains ":" u = true).
  { unfold contains. apply contains_l_spec. exists a, b. exact E. }
  congruence.
Qed.

Lemma session_key_injective u c u' c' :
  contains ":" u = false -> contains ":" u' = false ->
  session_key u c = session_key u' c' -> u = u' /\ c = c'.
Proof.
  intros Hu Hu' H. unfold session_key in H.
  apply (f_equal chars) in H. rewrite !chars_app in H.
  change (chars ":") with [":"%char] in H. cbn [app] in H.
  apply split_at_first in H as [E1 E2];
    [|apply no_colon_chars; exact Hu | apply no_colon_chars; exact Hu'].
  split; apply chars_inj; assumption.
Qed.

(** X27: conversations are kept apart.  When user ids hold no colon
    (the key of a conversation is the user id, a colon and the channel
    id), recording a turn or storing sources for one conversation
    leaves the history and the sources of every conversation with
    another user or channel as they were, and what is stored for the
    conversation itself is what is read back. *)
Theorem conversations_do_not_mix
    (st : store) (user_id channel_id user_id' channel_id' : string)
    (text reply : string) (srcs : list string) :
  contains ":" user_id = false ->
  contains ":" user_id' = false ->
  (user_id, channel_id) <> (user_id', channel_id') ->
  get_session (_update_history st user_id channel_id text reply)
              user_id' channel_id'
  = get_session st user_id' channel_id'
  /\ get_sources (_update_history st user_id channel_id text reply)
                 user_id' channel_id'
     = get_sources st user_id' channel_id'
  /\ get_sources (set_sources st user_id channel_id srcs) user_id' channel_id'
     = get_sources st user_id' channel_id'
  /\ get_session (set_sources st user_id channel_id srcs) user_id' channel_id'
     = get_session st user_id' channel_id'
  /\ get_sources (set_sources st user_id channel_id srcs) user_id channel_id = srcs.
Proof.
  intros Hu Hu' Hne.
  assert (Hkey : session_key user_id channel_id <> session_key user_id' channel_id').
  { intros E. apply session_key_injective in E as [-> ->]; [|assumption..].
    apply Hne. reflexivity. }
  unfold _update_history, update_session, set_sources, get_session, get_sources.
  cbn [sessions sources].
  rewrite !lookup_insert_ne by exact Hkey. rewrite lookup_insert_eq.
  repeat split; reflexivity.
Qed.

Lemma conversations_do_not_mix_witness :
  let st := {| max_turns := 4;
               sessions := {[ "7:9" := [("user", "hej"); ("assistant", "dav")] ]};
               sources := {[ "7:9" := ["a.md#A (lines 1-2)"] ]} |} in
  contains ":" "8" = false /\ contains ":" "7" = false
  /\ ("8", "9") <> ("7", "9")
  /\ get_session (_update_history st "8" "9" "pris?" "499 kr.") "7" "9"
     = [("user", "hej"); ("assistant", "dav")].
Proof.
  intros st.
  assert (H1 : contains ":" "8" = false) by reflexivity.
  assert (H2 : contains ":" "7" = false) by reflexivity.
  assert (H3 : ("8", "9") <> ("7", "9")) by discriminate.
  split; [exact H1|]. split; [exact H2|]. split; [exact H3|].
  rewrite (proj1 (conversations_do_not_mix st "8" "9" "7" "9" "pris?" "499 kr." []
                    H1 H2 H3)).
  vm_compute. reflexivity.
Defined.

End Conversations.

(* ===================================================================== *)
(** * Ties keep the order of the index *)
(* ===================================================================== *)

Section StableRanking.
Import Py Re AppMore Spec SpecMore.

Lemma insert_desc_stable {B} (key : B -> Z) (z : Z) x l :
  List.filter (fun a => (key a =? z)%Z) (insert_desc key x l)
  = List.filter (fun a => (key a =? z)%Z) (x :: l).
Proof.
  induction l as [|y l IH]; [reflexivity|].
  cbn [insert_desc]. destruct (key x <? key y)%Z eqn:E; [|reflexivity].
  apply Z.ltb_lt in E. cbn [List.filter] in *. rewrite IH.
  destruct (key y =? z)%Z eqn:Ey; destruct (key x =? z)%Z eqn:Ex; try reflexivity.
  apply Z.eqb_eq in Ey, Ex. lia.
Qed.

Lemma sort_desc_stable {B} (key : B -> Z) (z : Z) l :
  List.filter (fun a => (key a =? z)%Z) (sort_desc key l)
  = List.filter (fun a => (key a =? z)%Z) l.
Proof.
  induction l as [|x l IH]; [reflexivity|].
  unfold sort_desc in *. cbn [foldr]. rewrite insert_desc_stable.
  cbn [List.filter]. rewrite IH. reflexivity.
Qed.

Lemma filter_take_prefix {B} (f : B -> bool) n (l : list B) :
  exists m, List.filter f (take n l) = take m (List.filter f l).
Proof.
  revert n. induction l as [|x l IH]; intros n.
  - exists 0%nat. destruct n; reflexivity.
  - destruct n as [|n]; [exists 0%nat; reflexivity|].
    destruct (IH n) as (m & Hm). cbn [take List.filter].
    destruct (f x); [exists (S m); cbn [take]; rewrite Hm; reflexivity|].
    exists m. exact Hm.
Qed.

(** X28: ties keep the order of the index.  The sections that
    [find_sections] returns with one score are the first ones, in the
    order of the index, of all the sections that have this score: the
    sort is stable, so among equal scores an earlier section of the
    index is returned before a later one and is never dropped in
    favour of it. *)
Theorem find_sections_ties_keep_index_order
    (idx : index_state) (query : string) (top_k z : Z) :
  exists n,
    List.filter (fun r => (score r =? z)%Z) (find_sections idx query top_k)
    = take n (List.filter (fun r => (score r =? z)%Z)
                          (flat_map (positive_copy (notes idx) query)
                                    (sections idx))).
Proof.
  rewrite find_sections_positive.
  destruct (query_tokens query) as [|t0 ts]; [exists 0%nat; reflexivity|].
  set (results := flat_map (positive_copy (notes idx) query) (sections idx)).
  destruct (slice_to_prefix top_k (sort_by_score results)) as [n Hn].
  rewrite Hn.
  destruct (filter_take_prefix (fun r => (score r =? z)%Z) n (sort_by_score results))
    as (m & Hm).
  exists m. rewrite Hm. unfold sort_by_score. rewrite sort_desc_stable. reflexivity.
Qed.

End StableRanking.

(* ===================================================================== *)
(** * Table rows *)
(* ===================================================================== *)

Section TableRows.
Import Py Re AppMore Spec SpecMore.

Lemma split_pipe_pieces s : forall cur piece,
  ~ In "|"%char cur ->
  In piece (split_l ["|"%char] 0 cur s) -> ~ In "|"%char piece.
Proof.
  induction s as [|c s IH]; intros cur piece Hcur Hin.
  - destruct Hin as [<- | []]. rewrite <- in_rev. exact Hcur.
  - cbn [split_l is_prefix length Nat.sub] in Hin.
    destruct (Ascii.eqb_spec "|"%char c) as [<- | Hc]; cbn [andb] in Hin.
    + destruct Hin as [<- | Hin]; [rewrite <- in_rev; exact Hcur|].
      apply (IH [] piece); [intros [] | exact Hin].
    + apply (IH (c :: cur) piece); [|exact Hin].
      intros [E | Hin']; [apply Hc; symmetry; exact E | apply Hcur; exact Hin'].
Qed.

Lemma lstrip_keeps p c s : In c s -> p c = false -> In c (lstrip_with p s).
Proof.
  induction s as [|x s IH]; intros Hin Hc; [destruct Hin|]. simpl.
  destruct (p x) eqn:E; [|exact Hin].
  destruct Hin as [-> | Hin]; [congruence | apply IH; assumption].
Qed.

Lemma strip_keeps p c s : In c s -> p c = false -> In c (strip_with p s).
Proof.
  intros Hin Hc. unfold strip_with, rstrip_with.
  rewrite <- in_rev. apply lstrip_keeps; [|exact Hc].
  rewrite <- in_rev. apply lstrip_keeps; assumption.
Qed.

Lemma strip_with_result p s :
  strip_with p s = []
  \/ (starts_clean p (strip_with p s) /\ ends_clean p (strip_with p s)).
Proof.
  unfold strip_with.
  destruct (rstrip_result p (lstrip_with p s)) as [-> | Hends]; [left; reflexivity|].
  right. split; [|exact Hends].
  destruct (lstrip_result p s) as [E | (c & t & E & Hc)].
  - rewrite E in Hends. destruct Hends as (u & x & Hu & _).
    unfold rstrip_with in Hu. simpl in Hu. destruct u; discriminate.
  - destruct (rstrip_prefix p (lstrip_with p s)) as (b & Hb).
    destruct (rstrip_with p (lstrip_with p s)) as [|y r] eqn:Er.
    + destruct Hends as (u & x & Hu & _). destruct u; discriminate.
    + rewrite E in Hb. simpl in Hb. injection Hb as <- _.
      exists c, r. auto.
Qed.

Lemma strip_idempotent s : strip (strip s) = strip s.
Proof.
  unfold strip. rewrite chars_str. f_equal.
  destruct (strip_with_result is_space (chars s)) as [-> | [Hs He]];
    [reflexivity | apply strip_clean; assumption].
Qed.

(** X29: the cells of a table row.  [_parse_table_row] gives no row
    exactly for a line without a pipe and for a line that, stripped,
    holds only pipes, hyphens, colons and spaces (the test for an empty
    stripped line never decides).  The cells of a row are stripped,
    never empty and hold no pipe. *)
Theorem table_row_cells_are_clean (line : string) :
  (_parse_table_row line = None
   <-> contains "|" line = false
       \/ forallb (one_of "|-: ") (chars (strip line)) = true)
  /\ forall cells,
       _parse_table_row line = Some cells ->
       forall cell, In cell cells ->
         cell <> "" /\ strip cell = cell /\ contains "|" cell = false.
Proof.
  unfold _parse_table_row.
  destruct (contains "|" line) eqn:Epipe; cbn [negb]; cbv iota.
  2: { split; [split; auto | intros cells [=]]. }
  assert (Hstripped : truthy (strip line) = true).
  { apply contains_spec in Epipe as (a & b & ->). apply truthy_true.
    intros E. apply (f_equal chars) in E. unfold strip in E. rewrite chars_str in E.
    assert (Hin : In "|"%char (strip_with is_space (chars (a +:+ "|" +:+ b)))).
    { apply strip_keeps; [|reflexivity]. rewrite !chars_app.
      apply in_or_app. right. left. reflexivity. }
    rewrite E in Hin. destruct Hin. }
  rewrite Hstripped. cbn [negb]. cbv iota.
  destruct (forallb (one_of "|-: ") (chars (strip line))) eqn:Esep.
  { split; [split; auto | intros cells [=]]. }
  split.
  { split; [intros [=] | intros [H | H]; discriminate H]. }
  intros cells [= <-] cell Hin. apply filter_In in Hin as [Hin Hne].
  apply truthy_true in Hne. split; [exact Hne|].
  apply in_map_iff in Hin as (piece & <- & Hpiece).
  split; [apply strip_idempotent|].
  unfold split in Hpiece. apply in_map_iff in Hpiece as (l & <- & Hl).
  change (chars "|") with ["|"%char] in Hl.
  apply split_pipe_pieces in Hl; [|intros []].
  destruct (contains "|" (strip (str l))) eqn:E; [|reflexivity].
  exfalso. apply Hl. unfold contains, strip in E. rewrite !chars_str in E.
  apply contains_l_spec in E as (a & b & E).
  destruct (strip_sub is_space l) as (a' & b' & Hsub).
  rewrite Hsub, E. apply in_or_app. right. apply in_or_app. left.
  apply in_or_app. right. left. reflexivity.
Qed.

Lemma table_row_cells_are_clean_witness :
  _parse_table_row "| Basis | 499 kr. |  |" = Some ["Basis"; "499 kr."]
  /\ forall cell, In cell ["Basis"; "499 kr."] ->
       cell <> "" /\ strip cell = cell /\ contains "|" cell = false.
Proof.
  assert (H : _parse_table_row "| Basis | 499 kr. |  |" = Some ["Basis"; "499 kr."])
    by (vm_compute; reflexivity).
  split; [exact H|].
  exact (proj2 (table_row_cells_are_clean "| Basis | 499 kr. |  |") _ H).
Defined.

End TableRows.

(* ===================================================================== *)
(** * The further properties on small inputs *)
(* ===================================================================== *)

Section Instances.
Import Py Re Session Chat Spec SpecMore.

Lemma build_gives_every_section_its_note_witness :
  let files :=
    [ {| w_rel_path := "a/GLN.md"; w_file := "GLN.md";
         w_content := "# GLN" +:+ nl +:+ "Et nummer." |};
      {| w_rel_path := "a/notes.txt"; w_file := "notes.txt";
         w_content := "# Not Markdown" |} ] in
  let s := {| path := "a/GLN.md"; heading := "GLN"; line_start := 1; line_end := 2;
              text := "# GLN" +:+ nl +:+ "Et nummer."; score := 0 |} in
  v_sections (build true files) = [s]
  /\ exists meta,
       notes (index_of (build true files)) !! path s = Some meta
       /\ note_path meta = path s.
Proof.
  intros files s.
  assert (H : v_sections (build true files) = [s]) by (vm_compute; reflexivity).
  split; [exact H|].
  apply (proj1 (proj2 (build_gives_every_section_its_note true files)) s).
  rewrite H. left. reflexivity.
Defined.

Lemma price_candidates_are_stored_sections_witness :
  let s := {| path := "priser.md"; heading := "Priser"; line_start := 1;
              line_end := 2; text := "GLN Basis 499 kr."; score := 0 |} in
  let v := {| v_sections := [s]; v_notes := [] |} in
  fst (_price_candidate_sections v "Hvad koster GLN?" 20) = [s]
  /\ forall s', In s' (fst (_price_candidate_sections v "Hvad koster GLN?" 20)) ->
                In s' (v_sections v).
Proof.
  intros s v. split; [vm_compute; reflexivity|].
  exact (proj1 (price_candidates_are_stored_sections v "Hvad koster GLN?" 20)).
Defined.

Lemma inclusion_snippets_are_bounded_windows_witness :
  let section := {| path := "medlem.md"; heading := "Medlemskab"; line_start := 4;
                    line_end := 6;
                    text := "## Medlemskab" +:+ nl +:+ "GLN er inkl. i medlemskab"
                            +:+ nl +:+ "Kontakt os";
                    score := 0 |} in
  map (fun s => (s_path s, s_line_start s, s_line_end s))
      (extract_inclusion_snippets [section] "Er GLN inkl. i medlemskab?" 4)
  = [("medlem.md", 4%Z, 5%Z); ("medlem.md", 4%Z, 6%Z)]
  /\ forall s, In s (extract_inclusion_snippets [section]
                                                "Er GLN inkl. i medlemskab?" 4) ->
       exists section', In section' [section] /\ window_of section' s.
Proof.
  intros section. split; [vm_compute; reflexivity|].
  exact (proj2 (inclusion_snippets_are_bounded_windows
                  [section] "Er GLN inkl. i medlemskab?" 4)).
Defined.

Lemma price_snippets_group_items_by_heading_witness :
  let a := {| i_name := "Basis"; i_price := "499 kr."; i_path := "p.md";
              i_heading := "Priser"; i_line_start := 3; i_line_end := 4 |} in
  let b := {| i_name := "Plus"; i_price := "999 kr."; i_path := "p.md";
              i_heading := "Priser"; i_line_start := 5; i_line_end := 6 |} in
  build_price_snippets_from_items " - " [a; b]
  = Some [ {| s_path := "p.md"; s_heading := "Priser"; s_line_start := 3;
              s_line_end := 6;
              s_excerpt := "Basis - 499 kr." +:+ nl +:+ "Plus - 999 kr.";
              s_score := 999 |} ]
  /\ exists snippets,
       build_price_snippets_from_items " - " [a; b] = Some snippets
       /\ List.NoDup (map (fun s => (s_path s, s_heading s)) snippets).
Proof.
  intros a b. split; [vm_compute; reflexivity|].
  destruct (price_snippets_group_items_by_heading " - " [a; b])
    as (snippets & H1 & H2 & _).
  exists snippets. split; assumption.
Defined.

Lemma query_tokens_are_long_words_of_the_query_witness :
  _query_tokens "Hvad koster pakkerne?" = ["pakkern"; "pakkerne"]
  /\ List.NoDup (_query_tokens "Hvad koster pakkerne?").
Proof.
  split; [vm_compute; reflexivity|].
  exact (proj1 (query_tokens_are_long_words_of_the_query "Hvad koster pakkerne?")).
Defined.

Lemma build_aliases_are_clean_witness :
  let title := "  GS1   Denmark " in
  strip (sub false (plus is_space) [TText " "] title) <> ""
  /\ In "gs1 denmark" (_build_aliases title "overview.md").
Proof.
  intros title.
  assert (H : strip (sub false (plus is_space) [TText " "] title) <> "")
    by (vm_compute; discriminate).
  split; [exact H|].
  exact (proj2 (proj2 (proj2 (build_aliases_are_clean title "overview.md"))) H).
Defined.


End Instances.
